(* ===== verification/_CoqProject ===== *)
-Q . S2P
Prelude.v
FileSystem.v
Copier.v
Help.v
Selector.v
Database.v
Prereq.v
Assembler.v
Run.v
Flags.v
