(* ===== verification/Prelude.v ===== *)
(** * MakeSM: a verification development of [src/makesm.go]

    ** The program

    [makesm.go] builds a standalone ScoreMaster installation.  [main]
    reads the flags, stops when [-target] is empty, runs
    [checkPrerequisites] (every required tool and folder must exist,
    all are reported before the run stops), removes an old target with
    [zapTarget] when [-ok] is given, makes the eight folders of the
    layout with [makeFolder] (an [os.Mkdir] that is fatal when it
    fails), and then populates them in a fixed order: [writeReadme],
    [copyPHP], [copyDatabase] (each SQL script piped into [sqlite3] by
    [loadSQL], or the live database copied), [copySMFiles],
    [copyExecs], [copyImages], [copyJodit], [copyPhpPackages] and
    [generateHelp] (the help tree through [copyHelp] and
    [copyMarkdown]).  All copying goes through [copyFile], [copyExec]
    and the recursive [copyFolderTree].

    ** The model

    A shallow embedding.  Each Go function is a Rocq definition of the
    same name in the monad [M world A] of this file: a run either
    continues ([Ok]), stops in [log.Fatal] ([Fatal msg], the world left
    behind is kept since nothing is cleaned up), or runs out of the fuel
    of a recursive walk ([NoFuel]).  The world is the file system, a
    stdpp [gmap] from paths (lists of components, [filepath.Join] being
    [++]) to directories and regular files with their mode and bytes,
    together with the ordered list of observable events (log lines,
    errors printed by [fmt.Println], processes started).  Go [error]
    results are [option oserror]; the flags are the [Config] record
    passed to every operation instead of the Go globals.

    - [Prelude]: the monad, its notations ([makesm_scope]), [forM_] for
      [for range] loops, the [strings]/[regexp] functions the program
      uses ([contains], [replace_first], [replace_all]), tactics
      ([msimpl], [mcase], [decide_vm], [ends_auto]), hint databases and
      the generic lemmas on the monad, lists and strings; the triple
      [ends_in P c Q] (from [P], [c] returns into [Q] or exits, and never
      runs out of fuel) with its rules for [m_bind] and [forM_],
      [keeps P c] (every run that returns or exits stays in [P]), and
      [no_exit c] (no run of [c] reaches [log.Fatal]).
    - [FileSystem]: paths, nodes, errors, events, the world; the [os]
      primitives ([os.Stat], [os.Mkdir], [os.MkdirAll], [os.Create],
      [os.Chmod], [os.RemoveAll], [os.ReadDir], [os.ReadFile], writes);
      the error of [os.Stat] ([stat_error]: not-exist for a missing
      component, not-a-directory for a path through a regular file);
      the invariant [fs_wf] (every entry's parent is a directory) and
      its preservation by every write; frame lemmas; executable
      checkers ([fs_wfb], [nothing_below], [nofile_on]) proved sound;
      [dirs_near p] (every new directory lies on the way to or below
      [p]) and [dir_bound] (how deep the directories under a path go).
    - [Copier]: [binexe], [copyFile], [copyExec], [copyFolderTree],
      [establishFolder], [makeFolder], [copyMarkdown], [copyHelp]; the
      frame of a walk ([walk_frame dst]: only paths on the way to or
      below [dst] change, directories stay directories).
    - [Help]: the help walk: its loop body [help_entry], the renaming
      [help_name], the precondition [help_pre] (source a tree, fresh
      destination with no [.md] in its path, no two sibling sources
      giving the same renamed name), the loop invariant [help_inv] and
      the postcondition [help_post] (the renamed mirror).
    - [Selector]: [Config], the manifests, [smFolder], [copySMFiles],
      [copyImageSet], [copyImages].
    - [Database]: the [SqlEngine] class (what the [sqlite3] process
      does with a script and a database), [loadSQL], [copyDatabase].
    - [Prereq]: [fileOrFolderExists] ([!os.IsNotExist] of the [os.Stat]
      error, [is_not_exist]) and [checkPrerequisites], its nine checks
      as a table, and the specification [required_artifacts].
    - [Assembler]: [myREADME], [zapTarget], [writeReadme], [copyPHP],
      [copyExecs], [copyJodit], [copyPhpPackages], [generateHelp] and
      [main], written as [main_start ;; buildFolders ;; populate]; the
      paths [copyPHP] names and [php_unix_fs], what it installs off
      Windows.
    - [Run]: every step of [main] ends, the walks end when their
      destination is apart from their source, and so does [main]; every
      step keeps [fs_wf] (the [keeps] rules and [keeps_auto]), and so
      does [main].
    - [Flags]: the command line: the flag table of lines 57-67 (names,
      kinds, defaults), the setters into [Config], [flag.Parse] with the
      rules of Go's [flag] package ([parse_args], errors as
      [flag_error]), folder values as paths ([path_of_string], read back
      from [show_path]), and [makesm], the program on its arguments:
      banner, parse, [main].

    ** The theorems

    - [main] (C1-C4): the layout it builds (exactly the eight folders
      under the target, an old target's content gone with [-ok]); no
      write before the prerequisites pass; no overwrite of an existing
      target without [-ok]; an empty target is refused at once.
    - [checkPrerequisites] (C5) refines the per-platform list of
      required artifacts: it reports exactly those for which [os.Stat]
      fails with a not-exist error, in order, never writes, and fails
      exactly when it reports one.
    - The database (C6, C18-C20): the order of the SQL scripts, the live
      copy, and which failures are fatal.
    - Selection (C7, C14-C17): which images and which language files are
      copied, and which failures stop the run.
    - The copier (C8-C12): [copyFile] on every branch, [copyFolderTree]
      terminates with [tree_fuel] and mirrors its source, the mode
      [copyExec] leaves, and [copyMarkdown], which renames the folders of
      the destination too, so that under a folder [x.md] nothing is
      copied.
    - The other steps (C13, C21-C23): [copyJodit], [writeReadme],
      [copyExecs] and [copyPhpPackages].
    - The help (C24-C25, C32): [copyHelp] terminates with [tree_fuel]
      and puts every source entry at its name with [.md] turned into
      [.hlp]; [generateHelp] does so for [sm/help]; the renaming leaves
      no [.md] and is undone by turning [.hlp] back into [.md] on every
      name without [.hlp], so only such a name can clash.
    - [copyPHP] (C26-C28): off Windows it installs exactly
      [php_unix_fs] (the CGI binary with 0755 where the platform is not
      Linux, then [php.ini]); on Windows it mirrors the PHP installation
      and copies [php.ini] over it, and a missing installation is fatal.
    - Termination (C29-C31): the tree walk ends whenever its destination
      is apart from its source, whatever lies there; a whole run of
      [main] ends under that condition for its three walks; a walk from
      a folder into a new sub-folder of itself never returns, whatever
      the fuel.
    Every theorem with hypotheses has a witness ([..._witness]) that
    applies it to a small concrete file system, evaluated by
    [vm_compute].

    ** Fuel

    [copyFolderTree] and [copyHelp] take fuel; the program gives them
    [tree_fuel fs src], one more than the depth of the source tree at
    the moment the walk starts ([walk_fuel] reads it).  This is enough
    whenever the destination is apart from the source and has nothing
    below it ([copyFolderTree_terminates]; for [copyHelp],
    [copyHelp_terminates] under [help_pre]), and a run that did not run
    out gives the same result with more ([copyFolderTree_fuel_mono], a
    lemma of [Copier]).
    Without the freshness of the destination, apartness alone is enough
    for the walks to end ([copyFolderTree_ends], [copyHelp_ends]: writes
    make new directories only on the way to or below the destination,
    so the source's directories keep their depth, which bounds the
    recursion).  When the destination is a new folder inside the
    source the Go program recurses into its own output; the model runs
    out of every fuel there ([copyFolderTree_into_source]: each level
    makes [src/x], reads [x] back among the entries of [src] and
    descends), so [NoFuel] stands for a run that does not return.  The
    model has no limit on path length, where a real system would stop
    the descent with an error.

    ** Not modelled

    [os.IsNotExist] is a library function: it is modelled as true on a
    not-exist error, and on a not-a-directory error only on Windows
    (where [os.Stat] of a path through a file reports a path-not-found
    error that [IsNotExist] matches; on Unix it does not).
    The [flag] package is library code: [parse_args] follows its
    documented rules, and its usage text is not modelled; a folder
    flag's value is split at [/] without [filepath.Clean]'s handling of
    [.] and [..];
    [fmt.Println()] blank lines and log timestamps; the one second
    [time.Sleep] of [zapTarget]; the umask, symbolic links, permission
    checks and I/O errors of reads and writes (the [log.Fatal] of a
    failed [io.Copy] included); the goroutine that writes the script to
    the stdin of [sqlite3] (the process is the [SqlEngine] function of
    the script and the old database); the wording of Go errors beyond
    their kind and path ([oserror_text]); path separators and
    case-insensitive Windows names.  The program does no fixed-width
    arithmetic: its one integer, the [int64] byte count of [io.Copy]
    that [copyFile] returns, is dropped by every caller, so no theorem
    is about overflow.  The theorems on [main] cover its
    early exits, its layout phase and its termination; no theorem
    states the file system after a complete successful run. *)

From stdpp Require Import base list gmap strings sorting.
From Stdlib Require Import String.

(* ------------------------------------------------------------------ *)
(** ** The program monad: state passing with [log.Fatal] as an exit *)

(** A run of the Go program either continues with a value and a new
    state, stops because [log.Fatal] was called (exit status 1, the
    state is what the program left behind), or is cut by the fuel that
    bounds the recursive directory walks. *)
Inductive outcome (S A : Type) : Type :=
  | Ok (a : A) (s : S)
  | Fatal (msg : string) (s : S)
  | NoFuel.
Arguments Ok {S A} a s.
Arguments Fatal {S A} msg s.
Arguments NoFuel {S A}.

Definition M (S A : Type) : Type := S -> outcome S A.

Definition m_ret {S A} (a : A) : M S A := fun s => Ok a s.

Definition m_bind {S A B} (c : M S A) (k : A -> M S B) : M S B :=
  fun s =>
    match c s with
    | Ok a s' => k a s'
    | Fatal msg s' => Fatal msg s'
    | NoFuel => NoFuel
    end.

Definition m_get {S} : M S S := fun s => Ok s s.
Definition m_put {S} (s : S) : M S unit := fun _ => Ok tt s.
Definition m_modify {S} (f : S -> S) : M S unit := fun s => Ok tt (f s).
Definition m_fatal {S A} (msg : string) : M S A := fun s => Fatal msg s.
Definition m_nofuel {S A} : M S A := fun _ => NoFuel.

Declare Scope makesm_scope.
Delimit Scope makesm_scope with sm.
Notation "x <- c ;; k" := (m_bind c (fun x => k))
  (at level 100, c at next level, right associativity) : makesm_scope.
Notation "c ;; k" := (m_bind c (fun _ => k))
  (at level 100, right associativity) : makesm_scope.
Open Scope makesm_scope.

(** [for _, x := range l { f(x) }] *)
Fixpoint forM_ {S A} (l : list A) (f : A -> M S unit) : M S unit :=
  match l with
  | [] => m_ret tt
  | x :: l' => f x ;; forM_ l' f
  end.

(* ------------------------------------------------------------------ *)
(** ** Strings as the Go [strings] package treats them *)

Local Open Scope string_scope.

(** Drop the first [n] bytes. *)
Fixpoint sdrop (n : nat) (s : string) : string :=
  match n, s with
  | O, _ => s
  | S n', String _ s' => sdrop n' s'
  | S _, EmptyString => EmptyString
  end.

(** [strings.Contains(s, pat)]; also what [regexp.MatchString] does
    for a pattern made of literal characters such as [\.md]. *)
Fixpoint contains (pat s : string) : bool :=
  String.prefix pat s ||
  match s with
  | EmptyString => false
  | String _ s' => contains pat s'
  end.

(** [strings.Replace(s, old, new, 1)] for a non-empty [old]: the first
    occurrence is replaced. *)
Fixpoint replace_first (old new s : string) : string :=
  if String.prefix old s then new ++ sdrop (String.length old) s
  else match s with
       | EmptyString => EmptyString
       | String c s' => String c (replace_first old new s')
       end.

(** [strings.Replace(s, old, new, -1)] for a non-empty [old]: scan from
    the left, replace each occurrence and continue after it (occurrences
    do not overlap).  [skip] counts the bytes of a replaced occurrence
    still to be dropped. *)
Fixpoint replace_go (old new : string) (skip : nat) (s : string) : string :=
  match s with
  | EmptyString => EmptyString
  | String c s' =>
      match skip with
      | S k => replace_go old new k s'
      | O =>
          if String.prefix old s
          then new ++ replace_go old new (String.length old - 1) s'
          else String c (replace_go old new 0 s')
      end
  end.

Definition replace_all (old new s : string) : string :=
  replace_go old new 0 s.

Close Scope string_scope.

(** Byte-wise name order: [os.ReadDir] returns entries sorted by name. *)
Definition name_le (a b : string) : Prop := String.leb a b = true.
#[export] Instance name_le_dec : RelDecision name_le :=
  fun a b => decide (String.leb a b = true).

(* ------------------------------------------------------------------ *)
(** ** Automation *)

Create HintDb makesm discriminated.
Create Rewrite HintDb makesm_rw.

(** Unfold one layer of the monad in the goal and in hypotheses. *)
Ltac msimpl :=
  unfold m_bind, m_ret, m_get, m_put, m_modify, m_fatal, m_nofuel in *;
  cbn -[String.prefix String.length] in *.

(** Case on the outcome of the first computation of a bind. *)
Ltac mcase c :=
  let E := fresh "E" in
  destruct c as [?a ?s|?msg ?s|] eqn:E.

(** Prove a decidable proposition about closed data (the manifests) by
    evaluating its decision procedure. *)
Ltac decide_vm := apply (bool_decide_eq_true_1 _); vm_compute; reflexivity.

(* ------------------------------------------------------------------ *)
(** ** Generic lemmas on the monad *)

Section MonadLemmas.
Context {S A B : Type}.

Lemma m_bind_ok (c : M S A) (k : A -> M S B) s a s' :
  c s = Ok a s' -> m_bind c k s = k a s'.
Proof. intros H. unfold m_bind. by rewrite H. Qed.

Lemma m_bind_fatal (c : M S A) (k : A -> M S B) s msg s' :
  c s = Fatal msg s' -> m_bind c k s = Fatal msg s'.
Proof. intros H. unfold m_bind. by rewrite H. Qed.

Lemma m_bind_nofuel (c : M S A) (k : A -> M S B) s :
  c s = NoFuel -> m_bind c k s = NoFuel.
Proof. intros H. unfold m_bind. by rewrite H. Qed.

Lemma m_bind_Ok_inv (c : M S A) (k : A -> M S B) s b s'' :
  m_bind c k s = Ok b s'' -> exists a s', c s = Ok a s' /\ k a s' = Ok b s''.
Proof. unfold m_bind. destruct (c s); naive_solver. Qed.

Lemma m_bind_assoc {C} (c : M S A) (k : A -> M S B) (k' : B -> M S C) s :
  m_bind (m_bind c k) k' s = m_bind c (fun a => m_bind (k a) k') s.
Proof. unfold m_bind. by destruct (c s). Qed.
End MonadLemmas.

(** A computation that always returns (never exits, never runs out). *)
Definition total {S A} (c : M S A) : Prop := forall s, exists a s', c s = Ok a s'.

Lemma total_ret {S A} (a : A) : total (S := S) (m_ret a).
Proof. intros s. by exists a, s. Qed.

Lemma total_bind {S A B} (c : M S A) (k : A -> M S B) :
  total c -> (forall a, total (k a)) -> total (m_bind c k).
Proof.
  intros Hc Hk s. destruct (Hc s) as (a & s' & Hs). unfold m_bind. rewrite Hs. apply Hk.
Qed.

#[export] Hint Rewrite @m_bind_assoc : makesm_rw.
#[export] Hint Resolve m_bind_ok m_bind_fatal m_bind_nofuel : makesm.

Section ForLemmas.
Context {S A : Type}.

(** A loop whose every iteration succeeds and extends an invariant
    indexed by the processed prefix succeeds with the full invariant. *)
Lemma forM_ok (I : list A -> S -> Prop) (f : A -> M S unit) (l : list A) :
  (forall done x rest s, l = done ++ x :: rest -> I done s ->
     exists s', f x s = Ok tt s' /\ I (done ++ [x]) s') ->
  forall s, I [] s -> exists s', forM_ l f s = Ok tt s' /\ I l s'.
Proof.
  intros Hstep.
  cut (forall rest done s, l = done ++ rest -> I done s ->
         exists s', forM_ rest f s = Ok tt s' /\ I l s').
  { intros H s Hs. by apply (H l []). }
  induction rest as [|x rest IH]; intros done s Hl Hs.
  - exists s. rewrite app_nil_r in Hl. subst. done.
  - destruct (Hstep done x rest s Hl Hs) as (s1 & Hf & Hs1).
    cbn. rewrite (m_bind_ok _ _ _ _ _ Hf).
    apply (IH (done ++ [x])); [by rewrite <-app_assoc|done].
Qed.

Lemma forM_app (l1 l2 : list A) (f : A -> M S unit) s :
  forM_ (l1 ++ l2) f s = m_bind (forM_ l1 f) (fun _ => forM_ l2 f) s.
Proof.
  revert s. induction l1 as [|x l1 IH]; intros s; [done|].
  cbn [app forM_]. rewrite m_bind_assoc. unfold m_bind at 1 2.
  destruct (f x s); [apply IH|done|done].
Qed.

Lemma forM_ext (f g : A -> M S unit) (l : list A) s :
  (forall x s, f x s = g x s) -> forM_ l f s = forM_ l g s.
Proof.
  intros Hfg. revert s. induction l as [|x l IH]; intros s; [done|].
  cbn. unfold m_bind. rewrite Hfg. by destruct (g x s).
Qed.

Lemma forM_total (f : A -> M S unit) (l : list A) :
  (forall x s, exists s', f x s = Ok tt s') -> forall s, exists s', forM_ l f s = Ok tt s'.
Proof.
  intros Hf s. destruct (forM_ok (fun _ _ => True) f l) with (s := s) as (s' & ? & _);
    [intros; destruct (Hf x s0) as [s' ?]; eauto|done|eauto].
Qed.

Lemma total_forM (f : A -> M S unit) (l : list A) :
  (forall x, total (f x)) -> total (forM_ l f).
Proof.
  intros Hf. induction l as [|x l IH]; [apply total_ret|]. by apply total_bind.
Qed.

(** A relation that every iteration establishes between its input and
    output state holds between the input and output of the loop. *)
Lemma forM_preorder (R : S -> S -> Prop) `{!PreOrder R}
      (f : A -> M S unit) (l : list A) s s' :
  (forall x s1 s2, x ∈ l -> f x s1 = Ok tt s2 -> R s1 s2) ->
  forM_ l f s = Ok tt s' -> R s s'.
Proof.
  revert s. induction l as [|x l IH]; intros s Hstep Hrun; cbn in Hrun.
  - unfold m_ret in Hrun. by simplify_eq.
  - apply m_bind_Ok_inv in Hrun as ([] & s1 & Hf & Hrest).
    transitivity s1; [by eapply Hstep; [left|]|].
    apply IH; [|done]. intros. eapply Hstep; [by right|done].
Qed.
(** An invariant that every iteration preserves holds after the loop. *)
Lemma forM_inv (P : S -> Prop) (f : A -> M S unit) (l : list A) s s' :
  (forall x s1 s2, x ∈ l -> P s1 -> f x s1 = Ok tt s2 -> P s2) ->
  P s -> forM_ l f s = Ok tt s' -> P s'.
Proof.
  intros Hstep Hs Hrun.
  assert (PreOrder (fun s1 s2 => P s1 -> P s2)) by (split; [intros ??|intros ??? ?? ?]; auto).
  by apply (forM_preorder (fun s1 s2 => P s1 -> P s2) f l s s'); [eauto|..].
Qed.
End ForLemmas.

(** A triple of total correctness for a program that may exit: from a
    state in [P], [c] returns a value [a] into a state in [Q a] or stops
    at a [log.Fatal]; it never runs out of fuel. *)
Definition ends_in {S A} (P : S -> Prop) (c : M S A) (Q : A -> S -> Prop) : Prop :=
  forall s, P s -> match c s with Ok a s' => Q a s' | Fatal _ _ => True | NoFuel => False end.

Section EndsIn.
Context {S A B : Type}.
Implicit Types (P : S -> Prop).

Lemma ends_in_ret P (Q : A -> S -> Prop) a : (forall s, P s -> Q a s) -> ends_in P (m_ret a) Q.
Proof. intros H s Hs. by apply H. Qed.

Lemma ends_in_fatal P (Q : A -> S -> Prop) msg : ends_in P (m_fatal msg) Q.
Proof. done. Qed.

Lemma ends_in_bind P (Q : A -> S -> Prop) (R : B -> S -> Prop) c k :
  ends_in P c Q -> (forall a, ends_in (Q a) (k a) R) -> ends_in P (m_bind c k) R.
Proof.
  intros Hc Hk s Hs. specialize (Hc s Hs). unfold m_bind.
  destruct (c s); [by apply Hk|done|done].
Qed.

Lemma ends_in_conseq P P' (Q Q' : A -> S -> Prop) c :
  ends_in P c Q -> (forall s, P' s -> P s) -> (forall a s, Q a s -> Q' a s) -> ends_in P' c Q'.
Proof. intros H HP HQ s Hs. specialize (H s (HP s Hs)). destruct (c s); auto. Qed.

(** Case analysis on the initial state. *)
Lemma ends_in_at P (Q : A -> S -> Prop) c :
  (forall s, P s -> ends_in (eq s) c Q) -> ends_in P c Q.
Proof. intros H s Hs. by apply (H s Hs). Qed.

Lemma ends_in_total P (Q : A -> S -> Prop) c :
  (forall s, P s -> exists a s', c s = Ok a s' /\ Q a s') -> ends_in P c Q.
Proof. intros H s Hs. destruct (H s Hs) as (a & s' & -> & ?). done. Qed.

Lemma ends_in_nofuel P (Q : A -> S -> Prop) c s : ends_in P c Q -> P s -> c s <> NoFuel.
Proof. intros H Hs Hc. specialize (H s Hs). by rewrite Hc in H. Qed.
End EndsIn.

(** A loop whose every iteration ends and keeps an invariant ends and
    keeps it. *)
Lemma ends_in_forM {S A} (I : S -> Prop) (f : A -> M S unit) (l : list A) :
  (forall x, x ∈ l -> ends_in I (f x) (fun _ => I)) -> ends_in I (forM_ l f) (fun _ => I).
Proof.
  induction l as [|x l IH]; intros Hf; cbn; [by apply ends_in_ret|].
  apply (ends_in_bind _ (fun _ => I)); [apply Hf; by left|].
  intros _. apply IH. intros y Hy. apply Hf. by right.
Qed.

(** A computation that ends from every state. *)
Definition ends {S A} (c : M S A) : Prop := ends_in (fun _ => True) c (fun _ _ => True).

Section Ends.
Context {S A B : Type}.

Lemma ends_ret (a : A) : ends (S := S) (m_ret a).
Proof. by apply ends_in_ret. Qed.

Lemma ends_fatal msg : ends (S := S) (A := A) (m_fatal msg).
Proof. apply ends_in_fatal. Qed.

Lemma ends_bind (c : M S A) (k : A -> M S B) : ends c -> (forall a, ends (k a)) -> ends (m_bind c k).
Proof. intros Hc Hk. by apply (ends_in_bind _ (fun _ _ => True)). Qed.

Lemma total_ends (c : M S A) : total c -> ends c.
Proof. intros Hc. apply ends_in_total. intros s _. destruct (Hc s) as (a & s' & ?). eauto. Qed.

Lemma ends_forM (f : A -> M S unit) (l : list A) : (forall x, ends (f x)) -> ends (forM_ l f).
Proof. intros Hf. apply (ends_in_forM (fun _ => True)). intros x _. apply Hf. Qed.

Lemma ends_never_nofuel (c : M S A) s : ends c -> c s <> NoFuel.
Proof. intros H. by apply (ends_in_nofuel (fun _ => True) (fun _ _ => True)). Qed.
End Ends.

(** Take a composite program apart into its steps; a step that is left
    is a primitive whose [total] or [ends] lemma is in [makesm]. *)
Ltac ends_auto :=
  repeat first
    [ solve [eauto with makesm]
    | apply total_ends; solve [eauto with makesm]
    | apply ends_bind; [|intros ?]
    | apply ends_forM; intros ?
    | apply ends_ret
    | apply ends_fatal
    | progress case_match ].

(** An invariant of the state: every run from a state in [P] that
    returns or exits leaves a state in [P] ([log.Fatal] included: the
    state left behind is what the user finds). *)
Definition keeps {S A} (P : S -> Prop) (c : M S A) : Prop :=
  forall s, P s -> match c s with Ok _ s' | Fatal _ s' => P s' | NoFuel => True end.

Section Keeps.
Context {S A B : Type} (P : S -> Prop).

Lemma keeps_ret (a : A) : keeps P (m_ret a).
Proof. by intros s Hs. Qed.

Lemma keeps_fatal msg : keeps (A := A) P (m_fatal msg).
Proof. by intros s Hs. Qed.

Lemma keeps_bind (c : M S A) (k : A -> M S B) :
  keeps P c -> (forall a, keeps P (k a)) -> keeps P (m_bind c k).
Proof.
  intros Hc Hk s Hs. specialize (Hc s Hs). unfold m_bind.
  destruct (c s); [by apply Hk|done|done].
Qed.

Lemma keeps_nofuel : keeps (A := A) P m_nofuel.
Proof. by intros s Hs. Qed.
End Keeps.

Lemma keeps_forM {S A} (P : S -> Prop) (f : A -> M S unit) (l : list A) :
  (forall x, keeps P (f x)) -> keeps P (forM_ l f).
Proof.
  intros Hf. induction l as [|x l IH]; [apply keeps_ret|]. by apply keeps_bind.
Qed.

(** Take a composite program apart for [keeps]; a step that is left is
    closed from the hint database [makesm]. *)
Ltac keeps_auto :=
  repeat first
    [ solve [eauto with makesm]
    | apply keeps_bind; [|intros ?]
    | apply keeps_forM; intros ?
    | apply keeps_ret
    | apply keeps_fatal
    | apply keeps_nofuel
    | progress case_match ].

(** A computation that never stops at a [log.Fatal]: it returns or
    runs out of fuel. *)
Definition no_exit {S A} (c : M S A) : Prop :=
  forall s, match c s with Fatal _ _ => False | _ => True end.

Lemma no_exit_ret {S A} (a : A) : no_exit (S := S) (m_ret a).
Proof. by intros s. Qed.

Lemma no_exit_nofuel {S A} : no_exit (S := S) (A := A) m_nofuel.
Proof. by intros s. Qed.

Lemma no_exit_total {S A} (c : M S A) : total c -> no_exit c.
Proof. intros H s. by destruct (H s) as (a & s' & ->). Qed.

Lemma no_exit_bind {S A B} (c : M S A) (k : A -> M S B) :
  no_exit c -> (forall a, no_exit (k a)) -> no_exit (m_bind c k).
Proof.
  intros Hc Hk s. specialize (Hc s). unfold m_bind. destruct (c s); [apply Hk|done|done].
Qed.

Lemma no_exit_forM {S A} (f : A -> M S unit) (l : list A) :
  (forall x, no_exit (f x)) -> no_exit (forM_ l f).
Proof. intros Hf. induction l as [|x l IH]; [apply no_exit_ret|]. by apply no_exit_bind. Qed.

(** Fuel monotonicity: a computation that did not run out of fuel gives
    the same outcome when its parts are replaced by parts that agree with
    them wherever those did not run out. *)
Section FuelMono.
Context {S : Type}.

Lemma m_bind_mono {A B} (c c' : M S A) (k k' : A -> M S B) s :
  (forall s, c s <> NoFuel -> c' s = c s) ->
  (forall a s, k a s <> NoFuel -> k' a s = k a s) ->
  m_bind c k s <> NoFuel -> m_bind c' k' s = m_bind c k s.
Proof.
  unfold m_bind. intros Hc Hk H. destruct (c s) eqn:E; [| |done];
    rewrite Hc by congruence; rewrite ?E; [by apply Hk|done].
Qed.

Lemma forM_mono {A} (f g : A -> M S unit) (l : list A) s :
  (forall x s, f x s <> NoFuel -> g x s = f x s) ->
  forM_ l f s <> NoFuel -> forM_ l g s = forM_ l f s.
Proof.
  intros Hfg. revert s. induction l as [|x l IH]; intros s; [done|].
  cbn. apply m_bind_mono; [by apply Hfg|]. intros _ s'. apply IH.
Qed.
End FuelMono.

(* ------------------------------------------------------------------ *)
(** ** Generic lemmas on lists *)

Lemma app_neq_tail {A} (p q1 q2 : list A) : q1 <> q2 -> p ++ q1 <> p ++ q2.
Proof. intros Hq H%app_inv_head. done. Qed.

Lemma app_nonempty_neq {A} (p q : list A) : q <> [] -> p <> p ++ q.
Proof. intros Hq H. apply Hq, (app_inv_head p). by rewrite app_nil_r. Qed.

Lemma snoc_neq {A} (q : list A) x : q ++ [x] <> q.
Proof.
  intros H. apply (f_equal (@List.length A)) in H.
  rewrite List.length_app in H. cbn in H. lia.
Qed.

Lemma list_snoc_cases {A} (l : list A) : l = [] \/ exists q x, l = q ++ [x].
Proof.
  destruct l as [|y l]; [by left|right].
  exists (removelast (y :: l)), (List.last (y :: l) y).
  by apply app_removelast_last.
Qed.

(** Keys without duplicates stay without duplicates through a partial
    map that is injective on keys. *)
Lemma NoDup_omap_fst {K V A B} (f : K * V -> option (A * B)) (l : list (K * V)) :
  NoDup l.*1 ->
  (forall kv1 kv2 y1 y2, f kv1 = Some y1 -> f kv2 = Some y2 -> y1.1 = y2.1 -> kv1.1 = kv2.1) ->
  NoDup (omap f l).*1.
Proof.
  intros Hnd Hinj. induction l as [|kv l IH]; [constructor|].
  cbn in Hnd. apply NoDup_cons in Hnd as [Hnin Hnd].
  cbn. destruct (f kv) as [y|] eqn:Ef; [|by apply IH].
  cbn. constructor; [|by apply IH].
  intros Hin. apply list_elem_of_fmap in Hin as (y' & Hy & Hin').
  apply list_elem_of_omap in Hin' as (kv' & Hkv' & Hf').
  apply Hnin. rewrite (Hinj kv kv' y y'); [|done|done|done].
  apply list_elem_of_fmap. eauto.
Qed.

Lemma prefix_snoc_inv {A} (l1 l2 : list A) x y :
  l1 ++ [x] `prefix_of` l2 ++ [y] -> l1 `prefix_of` l2.
Proof.
  intros [k Hk]. destruct (list_snoc_cases k) as [->|(k' & z & ->)].
  - rewrite app_nil_r in Hk. apply app_inj_tail in Hk as [-> _]. done.
  - rewrite !app_assoc in Hk. apply app_inj_tail in Hk as [-> _].
    exists ([x] ++ k'). by rewrite app_assoc.
Qed.

(** [k ++ y :: rel] is never a prefix of [k]. *)
Lemma not_prefix_app_cons {A} (k rel : list A) y : ~ (k ++ y :: rel) `prefix_of` k.
Proof.
  intros Hp%prefix_length. rewrite List.length_app in Hp. cbn in Hp. lia.
Qed.

Lemma prefix_app_cons_snoc {A} (k rel : list A) x y :
  (k ++ y :: rel) `prefix_of` (k ++ [x]) -> y = x /\ rel = [].
Proof.
  intros Hp%prefix_app_inv. apply prefix_cons_inv_2 in Hp as Hrel.
  apply prefix_cons_inv_1 in Hp. split; [done|].
  destruct rel; [done|]. apply prefix_length in Hrel. cbn in Hrel. lia.
Qed.

Lemma prefix_snoc_cases {A} (k l : list A) x :
  k `prefix_of` l ++ [x] -> k `prefix_of` l \/ k = l ++ [x].
Proof.
  intros [r Hr]. destruct (list_snoc_cases r) as [->|(r' & z & ->)].
  - right. by rewrite app_nil_r in Hr.
  - left. rewrite app_assoc in Hr. apply app_inj_tail in Hr as [-> _]. by exists r'.
Qed.

Lemma app_cons_snoc {A} (l : list A) x r : l ++ x :: r = (l ++ [x]) ++ r.
Proof. by rewrite <-app_assoc. Qed.

(** The first element of a list that satisfies a decidable property. *)
Lemma list_split_first {A} (P : A -> Prop) `{!forall x, Decision (P x)} (l : list A) :
  (exists x, x ∈ l /\ P x) ->
  exists pre a post, l = pre ++ a :: post /\ P a /\ forall b, b ∈ pre -> ~ P b.
Proof.
  induction l as [|y l IH]; intros (x & Hx & Hp); [inversion Hx|].
  destruct (decide (P y)) as [Hy|Hy]; [exists [], y, l; split_and!; [done|done|intros b Hb; inversion Hb]|].
  destruct IH as (pre & a & post & -> & Ha & Hpre).
  { exists x. split; [|done]. apply elem_of_cons in Hx as [->|]; [done|done]. }
  exists (y :: pre), a, post. split_and!; [done|done|].
  intros b [->|Hb]%elem_of_cons; [done|by apply Hpre].
Qed.

#[export] Hint Resolve snoc_neq not_prefix_app_cons : makesm.
#[export] Hint Resolve total_ret total_bind total_forM : makesm.

(* ------------------------------------------------------------------ *)
(** ** Generic lemmas on strings *)

Local Open Scope string_scope.

Lemma prefix_empty_l (s : string) : String.prefix "" s = true.
Proof. by destruct s. Qed.

Lemma contains_String pat c s :
  contains pat (String c s) = String.prefix pat (String c s) || contains pat s.
Proof. reflexivity. Qed.

Lemma contains_false_prefix pat c s :
  contains pat (String c s) = false ->
  String.prefix pat (String c s) = false /\ contains pat s = false.
Proof. cbn. by intros [? ?]%orb_false_iff. Qed.

Lemma replace_go_no_match old new s :
  old <> "" -> contains old s = false -> replace_go old new 0 s = s.
Proof.
  intros Hne. induction s as [|c s IH]; [done|].
  intros Hc. apply contains_false_prefix in Hc as [Hp Hc].
  cbn [replace_go]. rewrite Hp. by rewrite IH.
Qed.

(** A name without the pattern is left as it is. *)
Lemma replace_all_no_match old new s :
  old <> "" -> contains old s = false -> replace_all old new s = s.
Proof. apply replace_go_no_match. Qed.

Lemma replace_first_no_match old new s :
  old <> "" -> contains old s = false -> replace_first old new s = s.
Proof.
  intros Hne. induction s as [|c s IH].
  - destruct old; done.
  - intros Hc. apply contains_false_prefix in Hc as [Hp Hc].
    cbn [replace_first]. rewrite Hp. by rewrite IH.
Qed.

(** stdpp makes [String.append] opaque to [simpl]; its defining equation. *)
Lemma append_String c p t : String c p ++ t = String c (p ++ t).
Proof. reflexivity. Qed.

Lemma append_nonempty_neq (x s : string) : s <> "" -> x ++ s <> x.
Proof. intros Hs. induction x as [|c x IH]; [done|]. rewrite append_String. intros [= H]. by apply IH. Qed.

Lemma string_app_assoc (a b c : string) : (a ++ b) ++ c = a ++ b ++ c.
Proof. induction a as [|x a IH]; [done|]. by rewrite !append_String, IH. Qed.

Lemma prefix_sdrop p s : String.prefix p s = true -> p ++ sdrop (String.length p) s = s.
Proof.
  revert s. induction p as [|c p IH]; intros [|c' s]; cbn; try done.
  destruct (Ascii.ascii_dec c c') as [->|]; [|done]. intros H. cbn [sdrop String.length]. by rewrite append_String, IH.
Qed.

(** Replacing a pattern by itself changes nothing. *)
Lemma replace_first_same old s : replace_first old old s = s.
Proof.
  induction s as [|c s IH]; cbn [replace_first].
  - destruct (String.prefix old "") eqn:E; [by apply prefix_sdrop|done].
  - destruct (String.prefix old (String c s)) eqn:E; [by apply prefix_sdrop|by rewrite IH].
Qed.

(** The first occurrence of a one-character pattern is the one after a
    prefix that does not contain it. *)
Lemma prefix_char c c' t :
  String.prefix (String c "") (String c' t) = bool_decide (c = c').
Proof.
  cbn. destruct (Ascii.ascii_dec c c') as [->|Hne].
  - rewrite bool_decide_eq_true_2 by done. by destruct t.
  - by rewrite bool_decide_eq_false_2.
Qed.

Lemma replace_first_char c new b e :
  contains (String c "") b = false ->
  replace_first (String c "") new (b ++ String c e) = b ++ new ++ e.
Proof.
  induction b as [|c' b IH]; intros Hb.
  - change ("" ++ String c e) with (String c e). cbn [replace_first].
    rewrite prefix_char, bool_decide_eq_true_2 by done. done.
  - apply contains_false_prefix in Hb as [Hp Hb].
    rewrite prefix_char in Hp. apply bool_decide_eq_false in Hp.
    rewrite !append_String. cbn [replace_first].
    rewrite prefix_char, bool_decide_eq_false_2 by done. by rewrite IH.
Qed.

(** A string that starts with [p] is [p] followed by the rest. *)
Lemma string_prefix_app p s : String.prefix p s = true -> exists t, s = p ++ t.
Proof.
  revert s. induction p as [|a p IH]; intros s Hp; [by exists s|].
  destruct s as [|c s]; [done|]. cbn in Hp.
  destruct (Ascii.ascii_dec a c) as [->|]; [|done].
  destruct (IH s Hp) as [t ->]. by exists t.
Qed.

Lemma contains_app_r pat a t : contains pat (a ++ t) = false -> contains pat t = false.
Proof.
  induction a as [|c a IH]; [done|]. intros H. apply contains_false_prefix in H as [_ H]. auto.
Qed.

Lemma prefix_String a p c s :
  String.prefix (String a p) (String c s) = if Ascii.ascii_dec a c then String.prefix p s else false.
Proof. done. Qed.

Lemma append_empty_l t : "" ++ t = t.
Proof. reflexivity. Qed.

Lemma string_prefix_self p t : String.prefix p (p ++ t) = true.
Proof.
  induction p as [|a p IH]; [apply prefix_empty_l|].
  rewrite append_String, prefix_String. by destruct (Ascii.ascii_dec a a).
Qed.

Close Scope string_scope.

#[export] Hint Resolve replace_all_no_match replace_first_no_match : makesm.
