(* ===== verification/FileSystem.v ===== *)
(** * FileSystem: the part of Go's [os] package that makesm uses

    The file system is a finite map from paths (lists of components,
    [filepath.Join] being list append) to nodes, a directory or a
    regular file with its permission bits and bytes.  The world of a run
    adds the ordered list of observable events: log lines, errors
    printed by [fmt.Println] and external processes started.  Each
    primitive ([os.Stat], [os.Mkdir], [os.MkdirAll], [os.Create],
    [os.Chmod], [os.RemoveAll], [os.ReadDir]) is a function on the map
    returning the Go [error] as [option oserror]; the well-formedness
    invariant (every entry's parent is a directory) and the frame
    lemmas of the primitives are proved here. *)

From stdpp Require Import base list gmap strings sorting.
From Stdlib Require Import String.
From S2P Require Import Prelude.

Abbreviation path := (list string).

Inductive node : Type :=
  | NDir (mode : N)
  | NFile (mode : N) (data : string).

#[export] Instance node_eq_dec : EqDecision node.
Proof. solve_decision. Defined.

Definition is_dir (n : node) : bool :=
  match n with NDir _ => true | NFile _ _ => false end.

Abbreviation FS := (gmap path node).

(** The Go errors the primitives return, by the path they name. *)
Inductive oserror : Type :=
  | ENOENT (p : path)
  | EEXIST (p : path)
  | ENOTDIR (p : path)
  | EISDIR (p : path)
  | ENOTREG (p : path).   (* fmt.Errorf("%s is not a regular file") *)

#[export] Instance oserror_eq_dec : EqDecision oserror.
Proof. solve_decision. Defined.

(** Observable events, in the order the program produces them. *)
Inductive event : Type :=
  | ELog (msg : string)                  (* log.Print / log.Println *)
  | ENotExist (p : path)                  (* "*** %s does not exist!" *)
  | EPrintErr (e : oserror)              (* fmt.Println(err) *)
  | ERun (exe : path) (args : list path) (stdin : string).  (* exec.Command *)

#[export] Instance event_eq_dec : EqDecision event.
Proof. solve_decision. Defined.

Record world : Type := mkWorld {
  w_fs : FS;
  w_events : list event
}.

Definition mode_dir_default : N := 511.   (* 0777 *)
Definition mode_create : N := 438.        (* 0666, os.Create *)
Definition mode_exec : N := 493.          (* 0755 *)

(* ------------------------------------------------------------------ *)
(** ** Primitives on the map *)

(** The parent of a non-root path must be an existing directory. *)
Definition parent_check (fs : FS) (p : path) : option oserror :=
  match p with
  | [] => Some (ENOENT p)
  | _ :: _ =>
      match fs !! removelast p with
      | Some (NDir _) => None
      | Some (NFile _ _) => Some (ENOTDIR (removelast p))
      | None => Some (ENOENT (removelast p))
      end
  end.

(** [os.Mkdir]: fails if the path exists or its parent is not a
    directory (the umask is not modelled). *)
Definition fs_mkdir (p : path) (mode : N) (fs : FS) : oserror + FS :=
  match fs !! p with
  | Some _ => inl (EEXIST p)
  | None =>
      match parent_check fs p with
      | Some e => inl e
      | None => inr (<[p := NDir mode]> fs)
      end
  end.

(** [os.MkdirAll]: walk the components from the root; an existing
    directory is kept, an existing file is [ENOTDIR], a missing one is
    created. *)
Fixpoint mkdir_all_go (base : path) (rest : list string) (mode : N) (fs : FS)
  : oserror + FS :=
  match rest with
  | [] => inr fs
  | x :: rest' =>
      let q := base ++ [x] in
      match fs !! q with
      | Some (NDir _) => mkdir_all_go q rest' mode fs
      | Some (NFile _ _) => inl (ENOTDIR q)
      | None => mkdir_all_go q rest' mode (<[q := NDir mode]> fs)
      end
  end.

Definition fs_mkdir_all (p : path) (mode : N) (fs : FS) : oserror + FS :=
  mkdir_all_go [] p mode fs.

(** [os.Create]: truncate an existing file (its mode is kept), or create
    an empty one with mode 0666 in an existing directory. *)
Definition fs_create (p : path) (fs : FS) : oserror + FS :=
  match fs !! p with
  | Some (NDir _) => inl (EISDIR p)
  | Some (NFile m _) => inr (<[p := NFile m EmptyString]> fs)
  | None =>
      match parent_check fs p with
      | Some e => inl e
      | None => inr (<[p := NFile mode_create EmptyString]> fs)
      end
  end.

(** A write through a handle opened on [p] appends its bytes. *)
Definition fs_append (p : path) (s : string) (fs : FS) : FS :=
  match fs !! p with
  | Some (NFile m d) => <[p := NFile m (d ++ s)%string]> fs
  | _ => fs
  end.

(** [os.Chmod]: set the permission bits of an existing entry. *)
Definition fs_chmod (p : path) (mode : N) (fs : FS) : oserror + FS :=
  match fs !! p with
  | Some (NDir _) => inr (<[p := NDir mode]> fs)
  | Some (NFile _ d) => inr (<[p := NFile mode d]> fs)
  | None => inl (ENOENT p)
  end.

(** [os.RemoveAll]: delete the path and everything under it. *)
Definition fs_remove_all (p : path) (fs : FS) : FS :=
  filter (fun kv : path * node => ~ p `prefix_of` kv.1) fs.

(** The name of [k] when [k] is a direct child of [p]. *)
Fixpoint child_name (p k : path) : option string :=
  match p, k with
  | [], [x] => Some x
  | y :: p', z :: k' => if decide (y = z) then child_name p' k' else None
  | _, _ => None
  end.

Definition entry_le (a b : string * bool) : Prop := name_le a.1 b.1.
#[export] Instance entry_le_dec : RelDecision entry_le :=
  fun a b => name_le_dec a.1 b.1.

(** [os.ReadDir]: the entries of a directory, as (name, IsDir) pairs
    sorted by name. *)
Definition fs_read_dir (p : path) (fs : FS) : oserror + list (string * bool) :=
  match fs !! p with
  | None => inl (ENOENT p)
  | Some (NFile _ _) => inl (ENOTDIR p)
  | Some (NDir _) =>
      inr (merge_sort entry_le
             (omap (fun kv : path * node =>
                      match child_name p kv.1 with
                      | Some x => Some (x, is_dir kv.2)
                      | None => None
                      end) (map_to_list fs)))
  end.

(** [os.ReadFile] whose error is ignored: the bytes of a regular file,
    nothing otherwise. *)
Definition fs_read_or_empty (p : path) (fs : FS) : string :=
  match fs !! p with
  | Some (NFile _ d) => d
  | _ => EmptyString
  end.

(* ------------------------------------------------------------------ *)
(** ** The primitives in the program monad *)

Definition emit (e : event) : M world unit :=
  fun w => Ok tt (mkWorld (w_fs w) (w_events w ++ [e])).

Definition set_fs (fs : FS) (w : world) : world := mkWorld fs (w_events w).

Definition lift_fs (f : FS -> oserror + FS) : M world (option oserror) :=
  fun w =>
    match f (w_fs w) with
    | inl e => Ok (Some e) w
    | inr fs' => Ok None (set_fs fs' w)
    end.

Lemma emit_total e : total (emit e).
Proof. intros w. eexists _, _. reflexivity. Qed.

#[export] Hint Resolve emit_total : makesm.

Definition os_stat (p : path) : M world (option node) :=
  fun w => Ok (w_fs w !! p) w.

(** The error of [os.Stat(p)]: the lookup walks the components from the
    first one and stops at the first that is missing ([ENOENT]) or is a
    regular file with more components after it ([ENOTDIR], as [stat(2)]
    reports on Unix).  The empty path is [ENOENT]. *)
Fixpoint stat_walk (fs : FS) (p base : path) (rest : list string) : option oserror :=
  match rest with
  | [] => None
  | x :: rest' =>
      match fs !! (base ++ [x]) with
      | None => Some (ENOENT p)
      | Some (NFile _ _) => match rest' with [] => None | _ :: _ => Some (ENOTDIR p) end
      | Some (NDir _) => stat_walk fs p (base ++ [x]) rest'
      end
  end.

Definition stat_error (fs : FS) (p : path) : option oserror :=
  match p with [] => Some (ENOENT p) | _ :: _ => stat_walk fs p [] p end.

(** [os.Stat] seen through its error only. *)
Definition os_stat_error (p : path) : M world (option oserror) :=
  fun w => Ok (stat_error (w_fs w) p) w.

Definition os_mkdir (p : path) (mode : N) := lift_fs (fs_mkdir p mode).
Definition os_mkdir_all (p : path) (mode : N) := lift_fs (fs_mkdir_all p mode).
Definition os_create (p : path) := lift_fs (fs_create p).
Definition os_chmod (p : path) (mode : N) := lift_fs (fs_chmod p mode).

Definition os_append (p : path) (s : string) : M world unit :=
  fun w => Ok tt (set_fs (fs_append p s (w_fs w)) w).

Definition os_remove_all (p : path) : M world unit :=
  fun w => Ok tt (set_fs (fs_remove_all p (w_fs w)) w).

Definition os_read_dir (p : path) : M world (oserror + list (string * bool)) :=
  fun w => Ok (fs_read_dir p (w_fs w)) w.

Definition os_read_or_empty (p : path) : M world string :=
  fun w => Ok (fs_read_or_empty p (w_fs w)) w.

(* ------------------------------------------------------------------ *)
(** ** Well-formedness: the root exists and every parent is a directory *)

Record fs_wf (fs : FS) : Prop := {
  wf_root : exists m, fs !! [] = Some (NDir m);
  wf_parent : forall p x n, fs !! (p ++ [x]) = Some n -> exists m, fs !! p = Some (NDir m)
}.

Definition parent_dir (fs : FS) (p : path) : Prop :=
  exists q x m, p = q ++ [x] /\ fs !! q = Some (NDir m).

(** [p] and [q] are apart: neither lies under the other. *)
Definition apart (p q : path) : Prop := ~ p `prefix_of` q /\ ~ q `prefix_of` p.

Create HintDb fs_db discriminated.

Section WfLemmas.
Implicit Types (fs : FS) (p q : path).

Lemma parent_check_None fs p : parent_check fs p = None -> parent_dir fs p.
Proof.
  destruct p as [|y p']; [done|]. cbn -[removelast].
  destruct (fs !! removelast (y :: p')) as [[m|]|] eqn:E; [|done|done].
  intros _. exists (removelast (y :: p')), (List.last (y :: p') ""), m.
  split; [|done]. by apply app_removelast_last.
Qed.

Lemma parent_dir_nil fs : ~ parent_dir fs [].
Proof. intros (q & x & m & Hq & _). by destruct q. Qed.

(** A file or an absent path has no children. *)
Lemma wf_no_children fs p x :
  fs_wf fs -> (forall m, fs !! p <> Some (NDir m)) -> fs !! (p ++ [x]) = None.
Proof.
  intros Hwf Hp. destruct (fs !! (p ++ [x])) eqn:E; [|done].
  destruct (wf_parent _ Hwf _ _ _ E) as [m Hm]. by destruct (Hp m).
Qed.

(** The one insertion lemma all writes go through. *)
Lemma wf_insert fs p n :
  fs_wf fs -> parent_dir fs p ->
  (is_dir n = false -> forall x, fs !! (p ++ [x]) = None) ->
  fs_wf (<[p := n]> fs).
Proof.
  intros Hwf (q0 & x0 & m0 & -> & Hq0) Hleaf. split.
  - destruct (wf_root _ Hwf) as [m Hm]. exists m.
    rewrite lookup_insert_ne; [done|]. by destruct q0.
  - intros q x n' H. rewrite lookup_insert in H. case_decide as Heq.
    + apply app_inj_tail in Heq as [-> ->]. exists m0.
      rewrite lookup_insert_ne; [done|].
      apply snoc_neq.
    + destruct (wf_parent _ Hwf _ _ _ H) as [m Hm].
      rewrite lookup_insert. case_decide as Hq; [|by eauto].
      subst q. destruct n as [mode|mode d]; [by eauto|].
      rewrite (Hleaf eq_refl x) in H. done.
Qed.

Lemma fs_mkdir_wf fs p mode fs' :
  fs_wf fs -> fs_mkdir p mode fs = inr fs' -> fs_wf fs'.
Proof.
  unfold fs_mkdir. intros Hwf.
  destruct (fs !! p) eqn:Ep; [done|].
  destruct (parent_check fs p) eqn:Ec; [done|]. intros [= <-].
  apply wf_insert; [done|by apply parent_check_None|done].
Qed.

Lemma fs_create_wf fs p fs' :
  fs_wf fs -> fs_create p fs = inr fs' -> fs_wf fs'.
Proof.
  unfold fs_create. intros Hwf.
  destruct (fs !! p) as [[m|m d]|] eqn:Ep; [done| |].
  - intros [= <-]. destruct (list_snoc_cases p) as [->|(p' & y & ->)].
    + destruct (wf_root _ Hwf). congruence.
    + apply wf_insert; [done| |].
      * destruct (wf_parent _ Hwf _ _ _ Ep) as [m' ?]. by exists p', y, m'.
      * intros _ x. apply wf_no_children; [done|]. congruence.
  - destruct (parent_check fs p) eqn:Ec; [done|]. intros [= <-].
    apply wf_insert; [done|by apply parent_check_None|].
    intros _ x. apply wf_no_children; [done|]. congruence.
Qed.

Lemma fs_append_wf fs p s : fs_wf fs -> fs_wf (fs_append p s fs).
Proof.
  unfold fs_append. intros Hwf.
  destruct (fs !! p) as [[m|m d]|] eqn:Ep; [done| |done].
  destruct (list_snoc_cases p) as [->|(p' & y & ->)].
  - destruct (wf_root _ Hwf). congruence.
  - apply wf_insert; [done| |].
    + destruct (wf_parent _ Hwf _ _ _ Ep) as [m' ?]. by exists p', y, m'.
    + intros _ x. apply wf_no_children; [done|]. congruence.
Qed.

Lemma fs_chmod_wf fs p mode fs' :
  fs_wf fs -> fs_chmod p mode fs = inr fs' -> fs_wf fs'.
Proof.
  unfold fs_chmod. intros Hwf.
  destruct (fs !! p) as [[m|m d]|] eqn:Ep; intros; simplify_eq.
  - destruct (list_snoc_cases p) as [->|(p' & y & ->)].
    + split; [by rewrite lookup_insert_eq; eauto|].
      intros q x n H. rewrite lookup_insert_ne in H by by destruct q.
      destruct (wf_parent _ Hwf _ _ _ H) as [m' Hm'].
      rewrite lookup_insert. case_decide; subst; eauto.
    + apply wf_insert; [done| |done].
      destruct (wf_parent _ Hwf _ _ _ Ep) as [m' ?]. by exists p', y, m'.
  - destruct (list_snoc_cases p) as [->|(p' & y & ->)].
    + destruct (wf_root _ Hwf). congruence.
    + apply wf_insert; [done| |].
      * destruct (wf_parent _ Hwf _ _ _ Ep) as [m' ?]. by exists p', y, m'.
      * intros _ x. apply wf_no_children; [done|]. congruence.
Qed.

Lemma fs_remove_all_wf fs p :
  p <> [] -> fs_wf fs -> fs_wf (fs_remove_all p fs).
Proof.
  unfold fs_remove_all. intros Hp Hwf. split.
  - destruct (wf_root _ Hwf) as [m Hm]. exists m.
    apply map_lookup_filter_Some_2; [done|]. cbn.
    intros [k Hk]. by destruct p.
  - intros q x n H.
    apply map_lookup_filter_Some in H as [H Hnp]. cbn in Hnp.
    destruct (wf_parent _ Hwf _ _ _ H) as [m Hm]. exists m.
    apply map_lookup_filter_Some_2; [done|]. cbn.
    intros Hpq. apply Hnp. by apply prefix_app_r.
Qed.

Lemma mkdir_all_go_wf base rest mode fs fs' :
  fs_wf fs -> (exists m, fs !! base = Some (NDir m)) ->
  mkdir_all_go base rest mode fs = inr fs' -> fs_wf fs'.
Proof.
  revert base fs. induction rest as [|x rest IH]; intros base fs Hwf Hb; cbn.
  - by intros [= <-].
  - destruct (fs !! (base ++ [x])) as [[m|m d]|] eqn:E; [| done |].
    + apply IH; eauto.
    + apply IH.
      * apply wf_insert; [done| |done]. destruct Hb as [m Hm]. by exists base, x, m.
      * rewrite lookup_insert_eq. eauto.
Qed.

Lemma fs_mkdir_all_wf fs p mode fs' :
  fs_wf fs -> fs_mkdir_all p mode fs = inr fs' -> fs_wf fs'.
Proof. intros Hwf. apply mkdir_all_go_wf; [done|apply Hwf]. Qed.
End WfLemmas.

#[export] Hint Resolve fs_mkdir_wf fs_create_wf fs_append_wf fs_chmod_wf
  fs_remove_all_wf fs_mkdir_all_wf : fs_db.

(* ------------------------------------------------------------------ *)
(** ** Functional behaviour of [MkdirAll], [ReadDir] and [RemoveAll] *)

Section PrimitiveSpecs.
Implicit Types (fs : FS) (p q k : path).

Lemma mkdir_all_go_spec base rest mode fs fs' :
  (exists m, fs !! base = Some (NDir m)) ->
  mkdir_all_go base rest mode fs = inr fs' ->
  (exists m, fs' !! (base ++ rest) = Some (NDir m)) /\
  (forall k n, fs !! k = Some n -> fs' !! k = Some n) /\
  (forall k, fs' !! k <> fs !! k -> k `prefix_of` base ++ rest /\ fs' !! k = Some (NDir mode)).
Proof.
  revert base fs. induction rest as [|x rest IH]; intros base fs Hb; cbn.
  - intros [= <-]. rewrite app_nil_r. naive_solver.
  - destruct (fs !! (base ++ [x])) as [[m|m d]|] eqn:E; [| done |].
    + intros H. destruct (IH _ _ (ex_intro _ m E) H) as (H1 & H2 & H3).
      rewrite <-app_assoc in H1, H3. naive_solver.
    + intros H. destruct (IH (base ++ [x]) (<[base ++ [x] := NDir mode]> fs))
        as (H1 & H2 & H3); [rewrite lookup_insert_eq; eauto|done|].
      rewrite <-app_assoc in H1, H3. split; [done|split].
      * intros k n Hk. apply H2. rewrite lookup_insert_ne; [done|congruence].
      * intros k Hk. destruct (decide (k = base ++ [x])) as [->|Hne].
        -- split; [by apply prefix_app, prefix_cons, prefix_nil|].
           destruct (decide (fs' !! (base ++ [x]) = <[base ++ [x]:=NDir mode]> fs !! (base ++ [x])))
             as [Heq|Hneq]; [by rewrite Heq, lookup_insert_eq|by apply H3].
        -- apply H3. by rewrite lookup_insert_ne.
Qed.

(** [MkdirAll] succeeds, leaves a directory at [p], keeps every
    existing entry and creates only directories on the way to [p]. *)
Lemma fs_mkdir_all_spec p mode fs fs' :
  fs_wf fs -> fs_mkdir_all p mode fs = inr fs' ->
  (exists m, fs' !! p = Some (NDir m)) /\
  (forall k n, fs !! k = Some n -> fs' !! k = Some n) /\
  (forall k, fs' !! k <> fs !! k -> k `prefix_of` p /\ fs' !! k = Some (NDir mode)).
Proof. intros Hwf. apply mkdir_all_go_spec, Hwf. Qed.

Lemma mkdir_all_go_succeeds base rest mode fs :
  (forall k m d, k `prefix_of` base ++ rest -> fs !! k <> Some (NFile m d)) ->
  exists fs', mkdir_all_go base rest mode fs = inr fs'.
Proof.
  revert base fs. induction rest as [|x rest IH]; intros base fs Hnf; cbn; [eauto|].
  destruct (fs !! (base ++ [x])) as [[m|m d]|] eqn:E.
  - apply IH. intros k m' d'. rewrite <-app_assoc. apply Hnf.
  - exfalso. eapply Hnf; [|done]. by apply prefix_app, prefix_cons, prefix_nil.
  - apply IH. intros k m' d' Hk. rewrite lookup_insert.
    case_decide; [done|]. apply Hnf. by rewrite <-app_assoc in Hk.
Qed.

(** [MkdirAll] fails only on a file on the way. *)
Lemma fs_mkdir_all_succeeds p mode fs :
  (forall k m d, k `prefix_of` p -> fs !! k <> Some (NFile m d)) ->
  exists fs', fs_mkdir_all p mode fs = inr fs'.
Proof. intros H. exact (mkdir_all_go_succeeds [] p mode fs H). Qed.

Lemma child_name_spec p k x : child_name p k = Some x <-> k = p ++ [x].
Proof.
  revert k. induction p as [|y p IH]; intros [|z k]; cbn; try naive_solver.
  - destruct k; naive_solver.
  - case_decide; [subst; rewrite IH|]; naive_solver.
Qed.

(** The entries [ReadDir] lists are exactly the children of [p]. *)
Lemma fs_read_dir_elem p fs es x b :
  fs_read_dir p fs = inr es ->
  (x, b) ∈ es <-> exists n, fs !! (p ++ [x]) = Some n /\ b = is_dir n.
Proof.
  unfold fs_read_dir. destruct (fs !! p) as [[m|m d]|]; [|discriminate|discriminate].
  intros [= <-]. rewrite (merge_sort_Permutation _ _), list_elem_of_omap.
  split.
  - intros ([k n] & Hin & Hf). apply elem_of_map_to_list in Hin. cbn in Hf.
    destruct (child_name p k) as [y|] eqn:Ec; [|congruence]. simplify_eq.
    apply child_name_spec in Ec as ->. eauto.
  - intros (n & Hn & ->). exists (p ++ [x], n). split; [by apply elem_of_map_to_list|].
    cbn. by rewrite (proj2 (child_name_spec p (p ++ [x]) x) eq_refl).
Qed.

Lemma fs_read_dir_NoDup p fs es : fs_read_dir p fs = inr es -> NoDup es.*1.
Proof.
  unfold fs_read_dir. destruct (fs !! p) as [[m|m d]|]; [|discriminate|discriminate].
  intros [= <-]. rewrite (merge_sort_Permutation _ _).
  apply NoDup_omap_fst; [apply NoDup_fst_map_to_list|].
  intros [k1 n1] [k2 n2] y1 y2. cbn.
  destruct (child_name p k1) eqn:E1, (child_name p k2) eqn:E2; [|intros; congruence..].
  apply child_name_spec in E1, E2. naive_solver.
Qed.

Lemma fs_read_dir_ok p fs m :
  fs !! p = Some (NDir m) -> exists es, fs_read_dir p fs = inr es.
Proof. unfold fs_read_dir. intros ->. eauto. Qed.

Lemma fs_remove_all_lookup p fs k :
  fs_remove_all p fs !! k = if decide (p `prefix_of` k) then None else fs !! k.
Proof.
  unfold fs_remove_all. rewrite map_lookup_filter.
  destruct (fs !! k); cbn; case_decide; simplify_option_eq; naive_solver.
Qed.
End PrimitiveSpecs.

(* ------------------------------------------------------------------ *)
(** ** Where new directories appear

    The recursive walks take their fuel from the depth of the source's
    directories.  They end when no write makes a new directory below
    the source: every directory a step makes lies on the way to, or
    below, the step's destination. *)

(** Every directory of [fs'] was one of [fs] or is comparable with [p]. *)
Definition dirs_near (p : path) (fs fs' : FS) : Prop :=
  forall k m, fs' !! k = Some (NDir m) ->
    (exists m', fs !! k = Some (NDir m')) \/ k `prefix_of` p \/ p `prefix_of` k.

(** Every directory at [src ++ rel] has [length rel < d]. *)
Definition dir_bound (fs : FS) (src : path) (d : nat) : Prop :=
  forall rel m, fs !! (src ++ rel) = Some (NDir m) -> List.length rel < d.

Section DirsNear.
Implicit Types (fs : FS) (p q : path).

Lemma dirs_near_refl p fs : dirs_near p fs fs.
Proof. intros k m H. eauto. Qed.

Lemma dirs_near_trans p fs1 fs2 fs3 :
  dirs_near p fs1 fs2 -> dirs_near p fs2 fs3 -> dirs_near p fs1 fs3.
Proof. intros H12 H23 k m H. destruct (H23 k m H) as [[m' H2]|?]; [by apply (H12 k m')|auto]. Qed.

Lemma dirs_near_snoc p x fs fs' : dirs_near (p ++ [x]) fs fs' -> dirs_near p fs fs'.
Proof.
  intros H k m Hk. destruct (H k m Hk) as [Hm|[Hp|Hp]]; [auto| |].
  - destruct (prefix_snoc_cases k p x Hp) as [Hq| ->]; [auto|]. right; right. by apply prefix_app_r.
  - right; right. by apply prefix_app_l in Hp.
Qed.

(** A write that makes no directory. *)
Lemma dirs_near_no_dir p fs fs' :
  (forall k m, fs' !! k = Some (NDir m) -> fs !! k = Some (NDir m)) -> dirs_near p fs fs'.
Proof. intros H k m Hk. left. eauto. Qed.

Lemma dirs_near_insert_file p fs k n d :
  dirs_near p fs (<[k := NFile n d]> fs).
Proof.
  apply dirs_near_no_dir. intros k' m. rewrite lookup_insert.
  case_decide; [done|auto].
Qed.

Lemma dirs_near_create p q fs fs' : fs_create q fs = inr fs' -> dirs_near p fs fs'.
Proof.
  unfold fs_create. destruct (fs !! q) as [[]|]; [done| |destruct (parent_check fs q)];
    intros; simplify_eq; apply dirs_near_insert_file.
Qed.

Lemma dirs_near_append p q s fs : dirs_near p fs (fs_append q s fs).
Proof. unfold fs_append. destruct (fs !! q) as [[]|]; [apply dirs_near_refl|apply dirs_near_insert_file|apply dirs_near_refl]. Qed.

Lemma dirs_near_chmod p q mode fs fs' : fs_chmod q mode fs = inr fs' -> dirs_near p fs fs'.
Proof.
  unfold fs_chmod. destruct (fs !! q) as [[]|] eqn:E; intros; simplify_eq; [|apply dirs_near_insert_file].
  intros k m' Hk. rewrite lookup_insert in Hk. case_decide; subst; eauto.
Qed.

Lemma dirs_near_mkdir p mode fs fs' : fs_mkdir p mode fs = inr fs' -> dirs_near p fs fs'.
Proof.
  unfold fs_mkdir. destruct (fs !! p); [done|]. destruct (parent_check fs p); [done|].
  intros [= <-] k m Hk. rewrite lookup_insert in Hk. case_decide; subst; [auto|eauto].
Qed.

Lemma dirs_near_mkdir_all_go base rest mode fs fs' :
  mkdir_all_go base rest mode fs = inr fs' -> dirs_near (base ++ rest) fs fs'.
Proof.
  revert base fs. induction rest as [|x rest IH]; intros base fs; cbn.
  - intros [= <-]. apply dirs_near_refl.
  - rewrite (app_cons_snoc base x rest). destruct (fs !! (base ++ [x])) as [[]|]; [by apply IH|done|].
    intros H%IH. eapply dirs_near_trans; [|done].
    intros k m Hk. rewrite lookup_insert in Hk. case_decide; subst; [|eauto].
    right; left. by apply prefix_app_r.
Qed.

Lemma dirs_near_mkdir_all p mode fs fs' : fs_mkdir_all p mode fs = inr fs' -> dirs_near p fs fs'.
Proof. apply dirs_near_mkdir_all_go. Qed.

(** A source apart from [p] keeps its directory depth. *)
Lemma dir_bound_near p src d fs fs' :
  dirs_near p fs fs' -> apart src p -> dir_bound fs src d -> dir_bound fs' src d.
Proof.
  intros Hn [Hsp Hps] Hb rel m Hk. destruct (Hn _ _ Hk) as [[m' Hm]|[Hp|Hp]]; [by eapply Hb| |].
  - destruct Hsp. by apply prefix_app_l in Hp.
  - assert (Hs : src `prefix_of` src ++ rel) by by exists rel.
    destruct (prefix_weak_total _ _ _ Hp Hs) as [Hq|Hq]; [done|]. by destruct Hsp.
Qed.
End DirsNear.

#[export] Hint Resolve dirs_near_refl dirs_near_create dirs_near_append dirs_near_chmod
  dirs_near_mkdir dirs_near_mkdir_all dirs_near_insert_file : fs_db.

Lemma apart_snoc p q x y : apart p q -> apart (p ++ [x]) (q ++ [y]).
Proof.
  intros [Hpq Hqp]. split; intros H%prefix_snoc_inv; [by apply Hpq|by apply Hqp].
Qed.

Lemma apart_siblings p x y : x <> y -> apart (p ++ [x]) (p ++ [y]).
Proof.
  intros Hxy. split; intros H; apply prefix_length_eq in H;
    rewrite ?length_app; cbn; try lia; apply app_inj_tail in H; naive_solver.
Qed.

Lemma apart_sym p q : apart p q -> apart q p.
Proof. by intros [? ?]. Qed.

(** Every proper ancestor of an entry of a well-formed map is a directory. *)
Lemma wf_ancestor_dir (fs : FS) k rel n :
  fs_wf fs -> rel <> [] -> fs !! (k ++ rel) = Some n -> exists m, fs !! k = Some (NDir m).
Proof.
  intros Hwf. revert n. induction rel as [|z rel IH] using rev_ind; [done|].
  intros n _ Hk. rewrite app_assoc in Hk.
  destruct (wf_parent _ Hwf _ _ _ Hk) as [m Hm].
  destruct (decide (rel = [])) as [->|Hne]; [rewrite app_nil_r in Hm; eauto|].
  exact (IH _ Hne Hm).
Qed.

(** A path of a well-formed map is never a file when something lies below it. *)
Lemma wf_prefix_not_file (fs : FS) k p n m d :
  fs_wf fs -> fs !! p = Some n -> k `prefix_of` p -> k <> p -> fs !! k <> Some (NFile m d).
Proof.
  intros Hwf Hp [rel ->] Hne.
  destruct (wf_ancestor_dir fs k rel n) as [m' Hm']; [done| |done|congruence].
  intros ->. by rewrite app_nil_r in Hne.
Qed.

Lemma parent_dir_check (fs : FS) p : parent_dir fs p -> parent_check fs p = None.
Proof.
  intros (q & x & m & -> & Hq). unfold parent_check.
  destruct (q ++ [x]) as [|y l] eqn:E; [by destruct q|].
  rewrite <-E, removelast_last, Hq. done.
Qed.

Lemma fs_create_fresh (fs : FS) p :
  fs !! p = None -> parent_dir fs p -> fs_create p fs = inr (<[p := NFile mode_create EmptyString]> fs).
Proof. intros Hp Hd. unfold fs_create. by rewrite Hp, parent_dir_check. Qed.

#[export] Hint Resolve apart_snoc apart_sym parent_dir_check : fs_db.

(** Nothing lies under both of two apart paths. *)
Lemma apart_under p q r1 r2 : apart p q -> p ++ r1 <> q ++ r2.
Proof.
  intros [Hpq Hqp] H.
  destruct (prefix_weak_total p q (p ++ r1)) as [?|?]; [by exists r1|by rewrite H; exists r2|done|done].
Qed.

(** The ancestors of a directory of a well-formed map are directories. *)
Lemma wf_dir_ancestors (fs : FS) p m k :
  fs_wf fs -> fs !! p = Some (NDir m) -> k `prefix_of` p -> exists mk, fs !! k = Some (NDir mk).
Proof.
  intros Hwf Hp [rel ->]. destruct (decide (rel = [])) as [->|Hne].
  - rewrite app_nil_r in Hp. eauto.
  - by eapply wf_ancestor_dir.
Qed.

(** Nothing lies below a file or an absent path. *)
Lemma wf_leaf_below (fs : FS) p y rel :
  fs_wf fs -> (forall m, fs !! p <> Some (NDir m)) -> fs !! (p ++ y :: rel) = None.
Proof.
  intros Hwf Hp. destruct (fs !! (p ++ y :: rel)) as [n|] eqn:E; [|done].
  destruct (wf_ancestor_dir fs p (y :: rel) n) as [m Hm]; [done|done|done|].
  by destruct (Hp m).
Qed.

(* ------------------------------------------------------------------ *)
(** ** Executable checks of the preconditions, with their soundness *)

#[export] Instance apart_dec p q : Decision (apart p q).
Proof. unfold apart. apply _. Defined.

Definition is_dir_at (fs : FS) (p : path) : bool :=
  match fs !! p with Some (NDir _) => true | _ => false end.

Definition fs_wfb (fs : FS) : bool :=
  is_dir_at fs [] &&
  forallb (fun kv : path * node =>
             match kv.1 with [] => true | _ :: _ => is_dir_at fs (removelast kv.1) end)
          (map_to_list fs).

Lemma is_dir_at_spec fs p : is_dir_at fs p = true -> exists m, fs !! p = Some (NDir m).
Proof. unfold is_dir_at. destruct (fs !! p) as [[]|]; naive_solver. Qed.

Lemma fs_wfb_sound fs : fs_wfb fs = true -> fs_wf fs.
Proof.
  unfold fs_wfb. intros [Hr Hall]%andb_true_iff. split; [by apply is_dir_at_spec|].
  intros p x n Hn. rewrite forallb_forall in Hall.
  apply elem_of_map_to_list, list_elem_of_In, Hall in Hn. cbn in Hn.
  destruct (p ++ [x]) as [|y l] eqn:E; [by destruct p|].
  rewrite <-E, removelast_last in Hn. by apply is_dir_at_spec.
Qed.

(** Nothing strictly below [p]. *)
Definition nothing_below (fs : FS) (p : path) : bool :=
  forallb (fun kv : path * node => negb (bool_decide (p `prefix_of` kv.1 /\ kv.1 <> p)))
          (map_to_list fs).

Lemma nothing_below_sound fs p : nothing_below fs p = true -> forall x rel, fs !! (p ++ x :: rel) = None.
Proof.
  unfold nothing_below. rewrite forallb_forall. intros Hall x rel.
  destruct (fs !! (p ++ x :: rel)) as [n|] eqn:E; [exfalso|done].
  apply elem_of_map_to_list, list_elem_of_In, Hall in E. cbn in E.
  apply negb_true_iff, bool_decide_eq_false in E. apply E. split.
  - by exists (x :: rel).
  - intros Heq. apply (not_prefix_app_cons p rel x). by rewrite Heq.
Qed.

(** No file on the way to [p], [p] included. *)
Definition nofile_on (fs : FS) (p : path) : bool :=
  forallb (fun i => match fs !! take i p with Some (NFile _ _) => false | _ => true end)
          (seq 0 (S (List.length p))).

Lemma nofile_on_sound fs p :
  nofile_on fs p = true -> forall k mk dk, k `prefix_of` p -> fs !! k <> Some (NFile mk dk).
Proof.
  unfold nofile_on. rewrite forallb_forall. intros Hall k mk dk [r ->] Hk.
  specialize (Hall (List.length k)). rewrite take_app_length, Hk in Hall.
  assert (List.length k < S (List.length (k ++ r))) by (rewrite List.length_app; lia).
  enough (false = true) by done. apply Hall, in_seq. lia.
Qed.

(** ** Frames of the writes: every other path keeps its entry *)

Lemma fs_create_frame p fs fs' k : fs_create p fs = inr fs' -> k <> p -> fs' !! k = fs !! k.
Proof.
  unfold fs_create. intros H Hk.
  destruct (fs !! p) as [[|]|]; [done| |destruct (parent_check fs p); [done|]];
    injection H as <-; (rewrite lookup_insert_ne; [done|by intros ->]).
Qed.

Lemma fs_append_frame p s fs k : k <> p -> fs_append p s fs !! k = fs !! k.
Proof.
  intros Hk. unfold fs_append.
  destruct (fs !! p) as [[|]|]; [done| |done]. rewrite lookup_insert_ne; [done|by intros ->].
Qed.

Lemma fs_append_file p s fs m d :
  fs !! p = Some (NFile m d) -> fs_append p s fs = <[p := NFile m (d ++ s)%string]> fs.
Proof. intros Hp. unfold fs_append. by rewrite Hp. Qed.

Lemma parent_check_snoc fs p x :
  parent_check fs (p ++ [x]) =
    match fs !! p with
    | Some (NDir _) => None
    | Some (NFile _ _) => Some (ENOTDIR p)
    | None => Some (ENOENT p)
    end.
Proof.
  unfold parent_check. destruct (p ++ [x]) as [|y l] eqn:E; [by destruct p|].
  by rewrite <-E, removelast_last.
Qed.
