(* ===== verification/Copier.v ===== *)
(** * Copier: the file and tree copying routines of makesm.go

    [binexe], [copyFile], [copyExec], [copyFolderTree], [copyMarkdown],
    [copyHelp], [makeFolder] and [establishFolder], each in the program
    monad over the world of [FileSystem].  The two recursive walks take
    a fuel argument; [tree_fuel] (one more than the depth of the source
    tree) is proved enough, and more fuel gives the same result.  The
    theorems: the behaviour of [copyFile] on each branch, that a tree
    copy into a fresh destination mirrors the source exactly, the mode
    [copyExec] leaves on each platform, and the renaming done by
    [copyMarkdown] (folders of the destination included), [copied_fs]
    (the effect of [copyFile] as a function), and that the tree walk
    ends whenever its destination is apart from its source and never
    returns, whatever the fuel, when the destination is a new folder
    inside it ([walk_frame] is the part of the file system a walk may
    change; the walk never calls [log.Fatal]). *)

From stdpp Require Import base list gmap strings sorting.
From Stdlib Require Import String.
From S2P Require Import Prelude FileSystem.

(** [runtime.GOOS] *)
Inductive GOOS : Type := windows | linux | darwin | other_os (name : string).

#[export] Instance GOOS_eq_dec : EqDecision GOOS.
Proof. solve_decision. Defined.

Definition goos_name (g : GOOS) : string :=
  match g with
  | windows => "windows" | linux => "linux" | darwin => "darwin"
  | other_os s => s
  end.

(** [exename + ".exe"]: the suffix goes onto the last component. *)
Fixpoint add_suffix (p : path) (sfx : string) : path :=
  match p with
  | [] => [sfx]
  | [x] => [(x ++ sfx)%string]
  | x :: p' => x :: add_suffix p' sfx
  end.

(** A path as a log line shows it. *)
Definition show_path (p : path) : string := String.concat "/" p.

Definition node_mode (n : node) : N :=
  match n with NDir m => m | NFile m _ => m end.

Section Copier.
Context (goos : GOOS).

Definition binexe (exename : path) : path :=
  if decide (goos = windows) then add_suffix exename ".exe" else exename.

(** [copyFile]: stat, refuse a non-regular file, open, create (which
    truncates), then [io.Copy] reads the source after the truncation. *)
Definition copyFile (src dst : path) : M world (N * option oserror) :=
  sourceFileStat <- os_stat src ;;
  match sourceFileStat with
  | None => m_ret (0%N, Some (ENOENT src))
  | Some (NDir _) => m_ret (0%N, Some (ENOTREG src))
  | Some (NFile _ _) =>
      err <- os_create dst ;;
      match err with
      | Some e => m_ret (0%N, Some e)
      | None =>
          data <- os_read_or_empty src ;;
          os_append dst data ;;
          m_ret (N.of_nat (String.length data), None)
      end
  end.

(** [copyExec]: both names get the platform suffix, but [os.Chmod]
    is applied to the unsuffixed [dst]; both errors are dropped. *)
Definition copyExec (src dst : path) : M world unit :=
  let xsrc := binexe src in
  let xdst := binexe dst in
  _ <- copyFile xsrc xdst ;;
  _ <- os_chmod dst mode_exec ;;
  m_ret tt.

(** [fmt.Println(err)] when [err != nil]. *)
Definition print_err (err : option oserror) : M world unit :=
  match err with
  | Some e => emit (EPrintErr e)
  | None => m_ret tt
  end.

(** [copyFolderTree]: errors of single entries are printed and the
    walk goes on; the function returns [nil] once [ReadDir] worked. *)
Fixpoint copyFolderTree (fuel : nat) (src dst : path) : M world (option oserror) :=
  match fuel with
  | O => m_nofuel
  | S fuel' =>
      srcinfo <- os_stat src ;;
      match srcinfo with
      | None => m_ret (Some (ENOENT src))
      | Some n =>
          err <- os_mkdir_all dst (node_mode n) ;;
          match err with
          | Some e => m_ret (Some e)
          | None =>
              fds <- os_read_dir src ;;
              match fds with
              | inl e => m_ret (Some e)
              | inr fds =>
                  forM_ fds (fun fd =>
                    let srcfp := src ++ [fd.1] in
                    let dstfp := dst ++ [fd.1] in
                    if fd.2 then
                      err <- copyFolderTree fuel' srcfp dstfp ;;
                      print_err err
                    else
                      r <- copyFile srcfp dstfp ;;
                      print_err r.2) ;;
                  m_ret None
              end
          end
      end
  end.

(** [establishFolder] / [makeFolder]: [os.Mkdir(folder, 0777)], and
    [log.Fatal] when it fails. *)
Definition establishFolder (folder : path) : M world bool :=
  err <- os_mkdir folder mode_dir_default ;;
  m_ret (match err with None => true | Some _ => false end).

Definition makeFolder (folder : path) : M world unit :=
  ok <- establishFolder folder ;;
  if ok then m_ret tt
  else m_fatal ("*** can't establish folder " ++ show_path folder)%string.

(** [copyMarkdown]: every [.md] in the whole destination path (the
    string [strings.Replace] works on) becomes [.hlp]; a separator never
    occurs in [.md], so this is the replacement in every component. *)
Definition copyMarkdown (src dst : path) : M world unit :=
  let dstname := map (replace_all ".md" ".hlp") dst in
  _ <- copyFile src dstname ;;
  m_ret tt.

(** [copyHelp(srcpath, dstpath, folder)]: like the tree copy, but the
    destination folder is made with [makeFolder] (fatal if it exists)
    and names matching [\.md] go through [copyMarkdown]. *)
Fixpoint copyHelp (fuel : nat) (srcpath dstpath : path) (folder : string)
  : M world (option oserror) :=
  match fuel with
  | O => m_nofuel
  | S fuel' =>
      let src := srcpath ++ [folder] in
      let dst := dstpath ++ [folder] in
      makeFolder dst ;;
      fds <- os_read_dir src ;;
      match fds with
      | inl e => m_ret (Some e)
      | inr fds =>
          forM_ fds (fun fd =>
            let srcfp := src ++ [fd.1] in
            let dstfp := dst ++ [fd.1] in
            if fd.2 then
              err <- copyHelp fuel' src dst fd.1 ;;
              print_err err
            else if contains ".md" fd.1 then
              copyMarkdown srcfp dstfp
            else
              r <- copyFile srcfp dstfp ;;
              print_err r.2) ;;
          m_ret None
      end
  end.
End Copier.

(** The fuel of a walk of [src]: one more than the longest path under
    it.  Computed from the file system at the time of the call. *)
Definition tree_depth (fs : FS) (src : path) : nat :=
  map_fold (fun k _ acc =>
              if decide (src `prefix_of` k) then Nat.max acc (List.length k - List.length src)
              else acc) 0 fs.

Definition tree_fuel (fs : FS) (src : path) : nat := S (tree_depth fs src).

(* ------------------------------------------------------------------ *)
(** ** [copyFile] *)

Ltac unfold_os :=
  unfold os_stat, os_create, os_mkdir, os_mkdir_all, os_chmod, lift_fs,
    os_read_or_empty, os_append, os_read_dir, emit, set_fs in *.

Section CopyFileSpec.
Implicit Types (w : world) (src dst : path).

(** The mode [os.Create] leaves on [dst]: an existing file keeps its
    own, a new one gets 0666. *)
Definition created_mode (fs : FS) (dst : path) : N :=
  match fs !! dst with Some (NFile m _) => m | _ => mode_create end.

Lemma copyFile_unfold src dst w :
  copyFile src dst w =
  match w_fs w !! src with
  | None => Ok (0%N, Some (ENOENT src)) w
  | Some (NDir _) => Ok (0%N, Some (ENOTREG src)) w
  | Some (NFile _ _) =>
      match fs_create dst (w_fs w) with
      | inl e => Ok (0%N, Some e) w
      | inr fs1 =>
          Ok (N.of_nat (String.length (fs_read_or_empty src fs1)), None)
             (mkWorld (fs_append dst (fs_read_or_empty src fs1) fs1) (w_events w))
      end
  end.
Proof.
  unfold copyFile. unfold_os. msimpl.
  destruct (w_fs w !! src) as [[]|]; [done| |done].
  by destruct (fs_create dst (w_fs w)).
Qed.

Lemma fs_create_ok fs dst :
  (forall md, fs !! dst <> Some (NDir md)) ->
  (is_Some (fs !! dst) \/ parent_dir fs dst) ->
  fs_create dst fs = inr (<[dst := NFile (created_mode fs dst) EmptyString]> fs).
Proof.
  intros Hnd Hex. unfold fs_create, created_mode.
  destruct (fs !! dst) as [[md|m0 d0]|] eqn:E; [by destruct (Hnd md)|done|].
  destruct Hex as [[? ?]|Hp]; [done|]. by rewrite parent_dir_check.
Qed.
End CopyFileSpec.

Lemma copyFile_total src dst w : exists r w', copyFile src dst w = Ok r w'.
Proof.
  rewrite copyFile_unfold.
  destruct (w_fs w !! src) as [[|]|]; [eauto| |eauto].
  destruct (fs_create dst (w_fs w)); eauto.
Qed.

(** The state after a successful copy. *)
Lemma copyFile_result_fs (fs : FS) src dst cm d :
  src <> dst ->
  (exists m, fs !! src = Some (NFile m d)) ->
  fs_append dst (fs_read_or_empty src (<[dst := NFile cm EmptyString]> fs))
            (<[dst := NFile cm EmptyString]> fs) = <[dst := NFile cm d]> fs.
Proof.
  intros Hne [m Hsrc]. unfold fs_read_or_empty, fs_append.
  rewrite (lookup_insert_ne _ dst src) by naive_solver.
  rewrite Hsrc, lookup_insert_eq, insert_insert_eq. done.
Qed.

(** A copy whose [os.Create] leaves an empty file with mode [cm]. *)
Lemma copyFile_created src dst w m d cm :
  w_fs w !! src = Some (NFile m d) -> src <> dst ->
  fs_create dst (w_fs w) = inr (<[dst := NFile cm EmptyString]> (w_fs w)) ->
  copyFile src dst w =
    Ok (N.of_nat (String.length d), None) (mkWorld (<[dst := NFile cm d]> (w_fs w)) (w_events w)).
Proof.
  intros Hsrc Hne Hc. rewrite copyFile_unfold, Hsrc, Hc.
  rewrite (copyFile_result_fs _ _ _ _ d) by eauto.
  unfold fs_read_or_empty. rewrite (lookup_insert_ne _ dst src), Hsrc by naive_solver. done.
Qed.

Lemma copyFile_missing src dst w :
  w_fs w !! src = None -> copyFile src dst w = Ok (0%N, Some (ENOENT src)) w.
Proof. intros H. by rewrite copyFile_unfold, H. Qed.

Lemma copyFile_notreg src dst w m :
  w_fs w !! src = Some (NDir m) -> copyFile src dst w = Ok (0%N, Some (ENOTREG src)) w.
Proof. intros H. by rewrite copyFile_unfold, H. Qed.

(** C9. [copyFile] copies byte for byte: when [src] is a regular file
    holding [d], [dst] is another path that is not a directory and can be
    created, the call returns [len(d)] and no error, and the only change
    is that [dst] now holds exactly [d]. *)
Theorem copyFile_copies src dst w m d :
  w_fs w !! src = Some (NFile m d) -> src <> dst ->
  (forall md, w_fs w !! dst <> Some (NDir md)) ->
  (is_Some (w_fs w !! dst) \/ parent_dir (w_fs w) dst) ->
  copyFile src dst w =
    Ok (N.of_nat (String.length d), None)
       (mkWorld (<[dst := NFile (created_mode (w_fs w) dst) d]> (w_fs w)) (w_events w)).
Proof.
  intros Hsrc Hne Hnd Hex. apply (copyFile_created _ _ _ m); [done|done|by apply fs_create_ok].
Qed.

(** C10. The error branches of [copyFile]: a missing source, a source
    that is not a regular file and a destination that is a directory each
    give their error, and a failed copy changes nothing. *)
Theorem copyFile_errors src dst w :
  (w_fs w !! src = None -> copyFile src dst w = Ok (0%N, Some (ENOENT src)) w) /\
  (forall m, w_fs w !! src = Some (NDir m) -> copyFile src dst w = Ok (0%N, Some (ENOTREG src)) w) /\
  (forall m d md, w_fs w !! src = Some (NFile m d) -> w_fs w !! dst = Some (NDir md) ->
     copyFile src dst w = Ok (0%N, Some (EISDIR dst)) w) /\
  (forall n e w', copyFile src dst w = Ok (n, Some e) w' -> w' = w /\ n = 0%N).
Proof.
  split; [apply copyFile_missing|]. split; [intros m; apply copyFile_notreg|].
  rewrite !copyFile_unfold. unfold fs_create. split; [by intros ??? -> ->|].
  intros n e w'. destruct (w_fs w !! src) as [[|]|]; try naive_solver.
  destruct (w_fs w !! dst) as [[|]|]; [naive_solver|done|].
  destruct (parent_check _ _); naive_solver.
Qed.

Lemma copyFile_wf src dst w r w' :
  fs_wf (w_fs w) -> copyFile src dst w = Ok r w' -> fs_wf (w_fs w').
Proof.
  rewrite copyFile_unfold. intros Hwf.
  destruct (w_fs w !! src) as [[|]|]; try (intros; by simplify_eq).
  destruct (fs_create dst (w_fs w)) eqn:Ec; intros; simplify_eq; [done|].
  cbn. apply fs_append_wf. by eapply fs_create_wf.
Qed.

Lemma copyFile_events src dst w r w' :
  copyFile src dst w = Ok r w' -> w_events w' = w_events w.
Proof.
  rewrite copyFile_unfold.
  destruct (w_fs w !! src) as [[|]|]; try (intros; by simplify_eq).
  destruct (fs_create dst (w_fs w)); intros; by simplify_eq.
Qed.

(** A fresh destination in an existing directory gets mode 0666. *)
Lemma copyFile_fresh src dst w m d :
  w_fs w !! src = Some (NFile m d) -> src <> dst ->
  w_fs w !! dst = None -> parent_dir (w_fs w) dst ->
  copyFile src dst w =
    Ok (N.of_nat (String.length d), None)
       (mkWorld (<[dst := NFile mode_create d]> (w_fs w)) (w_events w)).
Proof.
  intros Hsrc Hne Hdst Hp. apply (copyFile_created _ _ _ m); [done|done|].
  unfold fs_create. by rewrite Hdst, parent_dir_check.
Qed.

(** A copy changes at most its destination. *)
Lemma copyFile_frame src dst w r w' k :
  copyFile src dst w = Ok r w' -> k <> dst -> w_fs w' !! k = w_fs w !! k.
Proof.
  rewrite copyFile_unfold. intros Hrun Hk.
  destruct (w_fs w !! src) as [[|]|]; try by simplify_eq.
  destruct (fs_create dst (w_fs w)) as [|fs1] eqn:Ec; simplify_eq; [done|].
  cbn. rewrite fs_append_frame by done. by apply (fs_create_frame dst).
Qed.

#[export] Hint Resolve copyFile_wf copyFile_events : fs_db.

(** The file system after [copyFile src dst], as a function: the source's
    bytes land at [dst] when the source is a regular file and [os.Create]
    succeeds, and nothing changes otherwise. *)
Definition copied_fs (fs : FS) (src dst : path) : FS :=
  match fs !! src, fs_create dst fs with
  | Some (NFile _ d), inr _ => <[dst := NFile (created_mode fs dst) d]> fs
  | _, _ => fs
  end.

Lemma fs_create_inr fs dst fs1 :
  fs_create dst fs = inr fs1 -> fs1 = <[dst := NFile (created_mode fs dst) EmptyString]> fs.
Proof.
  unfold fs_create, created_mode.
  destruct (fs !! dst) as [[]|]; [done|congruence|]. destruct (parent_check fs dst); congruence.
Qed.

(** [copyFile] never stops the run, and its effect on the file system
    is [copied_fs]. *)
Lemma copyFile_fs src dst w :
  src <> dst -> exists r, copyFile src dst w = Ok r (mkWorld (copied_fs (w_fs w) src dst) (w_events w)).
Proof.
  intros Hne. rewrite copyFile_unfold. unfold copied_fs.
  destruct (w_fs w !! src) as [[m|m d]|] eqn:Hsrc; try (destruct w; by eexists).
  destruct (fs_create dst (w_fs w)) as [e|fs1] eqn:Ec; [destruct w; by eexists|].
  apply fs_create_inr in Ec as ->. rewrite (copyFile_result_fs _ _ _ _ d); eauto.
Qed.

Lemma copied_fs_skip fs src dst :
  (forall m d, fs !! src <> Some (NFile m d)) -> copied_fs fs src dst = fs.
Proof. intros H. unfold copied_fs. destruct (fs !! src) as [[|m d]|]; [done| |done]. by destruct (H m d). Qed.

(* ------------------------------------------------------------------ *)
(** ** [copyFolderTree] into a fresh destination mirrors the source *)

(** What a copied entry becomes: a directory keeps its mode (MkdirAll is
    given the source's mode), a file gets the bytes and mode 0666. *)
Definition copy_node (n : node) : node :=
  match n with NDir m => NDir m | NFile _ d => NFile mode_create d end.

(** One iteration of the loop of [copyFolderTree (S n)]. *)
Definition copyFolderTree_entry (n : nat) (src dst : path) (fd : string * bool)
  : M world unit :=
  if fd.2 then
    err <- copyFolderTree n (src ++ [fd.1]) (dst ++ [fd.1]) ;;
    print_err err
  else
    r <- copyFile (src ++ [fd.1]) (dst ++ [fd.1]) ;;
    print_err r.2.

Lemma copyFolderTree_S n src dst w :
  copyFolderTree (S n) src dst w =
  match w_fs w !! src with
  | None => Ok (Some (ENOENT src)) w
  | Some nd =>
      match fs_mkdir_all dst (node_mode nd) (w_fs w) with
      | inl e => Ok (Some e) w
      | inr fs1 =>
          match fs_read_dir src fs1 with
          | inl e => Ok (Some e) (set_fs fs1 w)
          | inr es => m_bind (forM_ es (copyFolderTree_entry n src dst))
                        (fun _ => m_ret None) (set_fs fs1 w)
          end
      end
  end.
Proof.
  cbn [copyFolderTree]. unfold_os. unfold m_bind at 1. cbn.
  destruct (w_fs w !! src) as [nd|]; [|done].
  unfold m_bind at 1. destruct (fs_mkdir_all dst (node_mode nd) (w_fs w)); [done|].
  unfold m_bind at 1. cbn. by destruct (fs_read_dir src _).
Qed.

(** The precondition: [src] a directory whose tree has depth at most
    [d], [dst] apart from it, with no file on the way to [dst] and
    nothing below [dst]. *)
Record tree_pre (fs : FS) (src dst : path) (m : N) (d : nat) : Prop := {
  tp_wf : fs_wf fs;
  tp_apart : apart src dst;
  tp_src : fs !! src = Some (NDir m);
  tp_nofile : forall k mk dk, k `prefix_of` dst -> fs !! k <> Some (NFile mk dk);
  tp_fresh : forall x rel, fs !! (dst ++ x :: rel) = None;
  tp_depth : forall rel n, fs !! (src ++ rel) = Some n -> List.length rel <= d
}.

(** The postcondition: [dst] is a directory (the one that was there, or
    a new one with the source's mode), everything below it is the copy
    of what is below [src], and every other existing entry is as it was. *)
Record tree_post (fs fs' : FS) (src dst : path) (m : N) : Prop := {
  tq_wf : fs_wf fs';
  tq_dst : fs' !! dst = Some (default (NDir m) (fs !! dst));
  tq_mirror : forall x rel, fs' !! (dst ++ x :: rel) = copy_node <$> fs !! (src ++ x :: rel);
  tq_frame : forall k, ~ dst `prefix_of` k -> (~ k `prefix_of` dst \/ is_Some (fs !! k)) ->
               fs' !! k = fs !! k
}.

(** The loop invariant after the entries [done]. *)
Record loop_inv (fs1 : FS) (ev : list event) (src dst : path)
       (done : list (string * bool)) (w : world) : Prop := {
  li_events : w_events w = ev;
  li_wf : fs_wf (w_fs w);
  li_frame : forall k, (forall x rel, k <> dst ++ x :: rel) -> w_fs w !! k = fs1 !! k;
  li_done : forall x rel, x ∈ done.*1 ->
              w_fs w !! (dst ++ x :: rel) = copy_node <$> fs1 !! (src ++ x :: rel);
  li_todo : forall x rel, x ∉ done.*1 -> w_fs w !! (dst ++ x :: rel) = None
}.

Lemma tree_mkdir fs src dst m d :
  tree_pre fs src dst m d ->
  exists fs1, fs_mkdir_all dst m fs = inr fs1 /\ fs_wf fs1 /\
    fs1 !! dst = Some (default (NDir m) (fs !! dst)) /\
    (forall k, ~ k `prefix_of` dst \/ is_Some (fs !! k) -> fs1 !! k = fs !! k).
Proof.
  intros Hpre. destruct (fs_mkdir_all_succeeds dst m fs) as [fs1 Hmk];
    [intros k mk dk Hk; by apply (tp_nofile _ _ _ _ _ Hpre)|].
  destruct (fs_mkdir_all_spec dst m fs fs1) as (Hd & Hkeep & Hchg); [apply Hpre|done|].
  exists fs1. split; [done|split; [by eapply fs_mkdir_all_wf; [apply Hpre|]|split]].
  - destruct (fs !! dst) as [n|] eqn:E; cbn; [by apply Hkeep|].
    destruct Hd as [md Hd]. destruct (Hchg dst) as [_ ->]; [by rewrite Hd, E|done].
  - intros k Hk. destruct (decide (fs1 !! k = fs !! k)) as [|Hne]; [done|].
    destruct (Hchg k Hne) as [Hp Hk1]. destruct Hk as [Hk|[n Hn]]; [done|].
    by rewrite (Hkeep _ _ Hn), Hn in Hne.
Qed.

Section TreeLoop.
Context (fs1 : FS) (ev : list event) (src dst : path) (md : N).
Hypothesis Hwf1 : fs_wf fs1.
Hypothesis Hapart : apart src dst.
Hypothesis Hdst1 : fs1 !! dst = Some (NDir md).

(** An iteration that only touches the subtree of entry [x], and
    leaves the copy of [x] there, extends the invariant. *)
Lemma loop_inv_extend done x b w w' :
  loop_inv fs1 ev src dst done w -> x ∉ done.*1 ->
  w_events w' = ev -> fs_wf (w_fs w') ->
  (forall k, (forall rel, k <> dst ++ x :: rel) -> w_fs w' !! k = w_fs w !! k) ->
  (forall rel, w_fs w' !! (dst ++ x :: rel) = copy_node <$> fs1 !! (src ++ x :: rel)) ->
  loop_inv fs1 ev src dst (done ++ [(x, b)]) w'.
Proof.
  intros Hinv Hx Hev Hwf Hother Hx'.
  assert (Hne : forall y rel, y <> x -> w_fs w' !! (dst ++ y :: rel) = w_fs w !! (dst ++ y :: rel)).
  { intros y rel Hy. apply Hother. intros rel' Heq. apply app_inv_head in Heq. congruence. }
  split; [done|done| | |].
  - intros k Hk. rewrite Hother by naive_solver. by apply (li_frame _ _ _ _ _ _ Hinv).
  - intros y rel Hy. rewrite fmap_app in Hy; cbn in Hy; rewrite elem_of_app, list_elem_of_singleton in Hy.
    destruct (decide (y = x)) as [->|Hyx]; [done|].
    rewrite Hne by done. apply (li_done _ _ _ _ _ _ Hinv). naive_solver.
  - intros y rel Hy. rewrite fmap_app in Hy; cbn in Hy; rewrite elem_of_app, list_elem_of_singleton in Hy.
    rewrite Hne by naive_solver. apply (li_todo _ _ _ _ _ _ Hinv). naive_solver.
Qed.

(** Under [src]: what the loop reads is what [fs1] holds. *)
Lemma loop_inv_src done w rel :
  loop_inv fs1 ev src dst done w -> w_fs w !! (src ++ rel) = fs1 !! (src ++ rel).
Proof.
  intros Hinv. apply (li_frame _ _ _ _ _ _ Hinv). intros x rel'. by apply apart_under.
Qed.

(** On the way to [dst]: directories, as in [fs1]. *)
Lemma loop_inv_dst_ancestor done w k :
  loop_inv fs1 ev src dst done w -> k `prefix_of` dst ->
  exists mk, w_fs w !! k = Some (NDir mk).
Proof.
  intros Hinv Hk. rewrite (li_frame _ _ _ _ _ _ Hinv).
  - by eapply wf_dir_ancestors.
  - intros x rel ->. by apply (not_prefix_app_cons dst rel x).
Qed.

(** A file entry: [copyFile] into the fresh [dst/x]. *)
Lemma tree_step_file n done x w mf df :
  loop_inv fs1 ev src dst done w -> x ∉ done.*1 ->
  fs1 !! (src ++ [x]) = Some (NFile mf df) ->
  exists w', copyFolderTree_entry n src dst (x, false) w = Ok tt w' /\
             loop_inv fs1 ev src dst (done ++ [(x, false)]) w'.
Proof.
  intros Hinv Hx Hsrc. unfold copyFolderTree_entry. cbn [fst snd]. unfold m_bind.
  rewrite (copyFile_fresh _ _ _ mf df).
  2: { by rewrite (loop_inv_src done w [x] Hinv). }
  2: { intros Heq. by apply (apart_under src dst [x] [x]). }
  2: { by apply (li_todo _ _ _ _ _ _ Hinv x []). }
  2: { destruct (loop_inv_dst_ancestor done w dst Hinv) as [m' Hm']; [done|].
       by exists dst, x, m'. }
  unfold m_bind, print_err, m_ret. cbn. eexists; split; [done|].
  apply (loop_inv_extend _ _ _ w); [done|done|by apply Hinv| | |].
  - cbn. apply wf_insert; [apply Hinv| |].
    + destruct (loop_inv_dst_ancestor done w dst Hinv) as [m' Hm']; [done|]. by exists dst, x, m'.
    + intros _ y. rewrite <-app_assoc. by apply (li_todo _ _ _ _ _ _ Hinv).
  - intros k Hk. cbn. rewrite lookup_insert_ne; [done|]. intros <-. by apply (Hk []).
  - intros [|z rel]; cbn.
    + by rewrite lookup_insert_eq, Hsrc.
    + rewrite lookup_insert_ne by (intros Heq; apply app_inv_head in Heq; congruence).
      rewrite (li_todo _ _ _ _ _ _ Hinv) by done.
      replace (src ++ x :: z :: rel) with ((src ++ [x]) ++ z :: rel) by by rewrite <-app_assoc.
      rewrite wf_leaf_below; [done|done|]. rewrite Hsrc. naive_solver.
Qed.
(** A directory entry: the recursive call, under the induction
    hypothesis for the smaller fuel. *)
Lemma tree_step_dir n d done x w mx :
  (forall src' dst' m' d' w', tree_pre (w_fs w') src' dst' m' d' -> d' < n ->
     exists fs'', copyFolderTree n src' dst' w' = Ok None (mkWorld fs'' (w_events w')) /\
                  tree_post (w_fs w') fs'' src' dst' m') ->
  (forall rel nd, fs1 !! (src ++ rel) = Some nd -> List.length rel <= d) -> d <= n ->
  loop_inv fs1 ev src dst done w -> x ∉ done.*1 ->
  fs1 !! (src ++ [x]) = Some (NDir mx) ->
  exists w', copyFolderTree_entry n src dst (x, true) w = Ok tt w' /\
             loop_inv fs1 ev src dst (done ++ [(x, true)]) w'.
Proof.
  intros IH Hdepth Hdn Hinv Hx Hsrc.
  destruct (IH (src ++ [x]) (dst ++ [x]) mx (d - 1) w) as (fs'' & Hrun & Hpost).
  { split.
    - apply Hinv.
    - by apply apart_snoc.
    - by rewrite (loop_inv_src done w [x] Hinv).
    - intros k mk dk [Hk | ->]%prefix_snoc_cases.
      + by destruct (loop_inv_dst_ancestor done w k Hinv Hk) as [m' ->].
      + by rewrite (li_todo _ _ _ _ _ _ Hinv x []).
    - intros y rel. rewrite <-app_assoc. by apply (li_todo _ _ _ _ _ _ Hinv).
    - intros rel nd. rewrite <-app_assoc, (loop_inv_src done w _ Hinv).
      intros Hn%Hdepth. cbn in Hn. lia. }
  { pose proof (Hdepth [x] (NDir mx) Hsrc). cbn in *. lia. }
  unfold copyFolderTree_entry. cbn [fst snd]. unfold m_bind. rewrite Hrun.
  cbn. eexists; split; [done|].
  apply (loop_inv_extend _ _ _ w); [done|done|cbn; by apply Hinv|apply Hpost| |].
  - intros k Hk. apply (tq_frame _ _ _ _ _ Hpost).
    + intros [r ->]. apply (Hk r). by rewrite <-app_assoc.
    + destruct (decide (k `prefix_of` dst ++ [x])) as [[Hk' | ->]%prefix_snoc_cases|]; [|by destruct (Hk [])|by left].
      right. by destruct (loop_inv_dst_ancestor done w k Hinv Hk') as [m' ->].
  - intros [|z rel].
    + cbn. by rewrite (tq_dst _ _ _ _ _ Hpost), (li_todo _ _ _ _ _ _ Hinv x []), Hsrc.
    + pose proof (tq_mirror _ _ _ _ _ Hpost z rel) as Hm. rewrite <-!app_assoc in Hm.
      cbn in Hm |- *. by rewrite Hm, (loop_inv_src done w _ Hinv).
Qed.
End TreeLoop.

Lemma tree_src_kept (fs fs1 : FS) src dst rel :
  apart src dst ->
  (forall k, ~ k `prefix_of` dst \/ is_Some (fs !! k) -> fs1 !! k = fs !! k) ->
  fs1 !! (src ++ rel) = fs !! (src ++ rel).
Proof.
  intros Hap Hkeep. apply Hkeep. left. intros Hp%prefix_app_l. by apply (proj1 Hap).
Qed.

Lemma NoDup_fst_middle (done rest : list (string * bool)) x b :
  NoDup (done ++ (x, b) :: rest).*1 -> x ∉ done.*1.
Proof.
  rewrite fmap_app. cbn. intros (_ & Hnd & _)%NoDup_app Hx.
  apply (Hnd x Hx). by left.
Qed.

(** Tree copy into a fresh destination: when [src] is a directory
    whose tree has depth below the fuel, [dst] is apart from [src] with
    no file on the way and nothing below it, [copyFolderTree] returns
    [nil], prints nothing, and leaves below [dst] exactly the copy of
    what is below [src] (directories with their mode, files with their
    bytes), [dst] itself a directory, and every other existing entry as
    it was. *)
Lemma copyFolderTree_mirror fuel src dst m d w :
  tree_pre (w_fs w) src dst m d -> d < fuel ->
  exists fs', copyFolderTree fuel src dst w = Ok None (mkWorld fs' (w_events w)) /\
              tree_post (w_fs w) fs' src dst m.
Proof.
  revert src dst m d w. induction fuel as [|n IH]; intros src dst m d w Hpre Hd; [lia|].
  rewrite copyFolderTree_S, (tp_src _ _ _ _ _ Hpre). cbn [node_mode].
  destruct (tree_mkdir _ _ _ _ _ Hpre) as (fs1 & -> & Hwf1 & Hdst1 & Hkeep).
  pose proof (tp_apart _ _ _ _ _ Hpre) as Hap.
  assert (Hsrc1 : fs1 !! src = Some (NDir m)).
  { rewrite <-(app_nil_r src), (tree_src_kept (w_fs w) fs1 src dst); [|done|done].
    rewrite app_nil_r. apply Hpre. }
  destruct (fs_read_dir_ok src fs1 m Hsrc1) as [es Hes]. rewrite Hes.
  assert (exists md, fs1 !! dst = Some (NDir md)) as [md Hmd].
  { rewrite Hdst1. destruct (w_fs w !! dst) as [[md|mk dk]|] eqn:E; cbn; [eauto| |eauto].
    exfalso. by apply (tp_nofile _ _ _ _ _ Hpre dst mk dk). }
  destruct (forM_ok (loop_inv fs1 (w_events w) src dst) (copyFolderTree_entry n src dst) es)
    with (s := set_fs fs1 w) as (w' & Hloop & Hinv).
  - intros done [x b] rest w1 Hes' Hinv1.
    pose proof (NoDup_fst_middle done rest x b) as Hx.
    rewrite <-Hes' in Hx. specialize (Hx (fs_read_dir_NoDup _ _ _ Hes)).
    destruct (proj1 (fs_read_dir_elem src fs1 es x b Hes)) as ([mx|mf df] & Hn & ->);
      [rewrite Hes'; apply elem_of_app; right; by left| |].
    + eapply (tree_step_dir fs1 _ src dst md Hwf1 Hap Hmd n d); [exact IH| |lia|done|done|done].
      intros rel nd. rewrite (tree_src_kept (w_fs w) fs1 src dst); [|done|done]. apply Hpre.
    + by eapply (tree_step_file fs1 _ src dst md Hwf1 Hap Hmd).
  - split; cbn; [done|done|done|intros ? ? Hin; inversion Hin|].
    intros y rel _. rewrite Hkeep; [apply Hpre|left; apply not_prefix_app_cons].
  - exists (w_fs w'). unfold m_bind. rewrite Hloop.
    pose proof (li_events _ _ _ _ _ _ Hinv) as Hev.
    destruct w' as [fs' ev']. cbn in Hev |- *. subst ev'.
    split; [done|]. split.
    + apply Hinv.
    + cbn. rewrite (li_frame _ _ _ _ _ _ Hinv); [done|].
      intros x rel Heq. apply (not_prefix_app_cons dst rel x). by rewrite <-Heq.
    + intros x rel. destruct (decide (x ∈ es.*1)) as [Hin|Hnin].
      * cbn. rewrite (li_done _ _ _ _ _ _ Hinv) by done.
        by rewrite (tree_src_kept (w_fs w) fs1 src dst).
      * cbn. rewrite (li_todo _ _ _ _ _ _ Hinv) by done.
        destruct (w_fs w !! (src ++ x :: rel)) as [nd|] eqn:E; [exfalso|done].
        rewrite <-(tree_src_kept (w_fs w) fs1 src dst) in E by done.
        apply Hnin. destruct (fs1 !! (src ++ [x])) as [nx|] eqn:Ex.
        -- apply list_elem_of_fmap. exists (x, is_dir nx). split; [done|].
           by apply (fs_read_dir_elem src fs1 es x (is_dir nx) Hes); eauto.
        -- destruct rel as [|z rel]; [congruence|].
           rewrite (app_cons_snoc src x (z :: rel)) in E.
           rewrite (wf_leaf_below fs1 (src ++ [x]) z rel) in E; [done|done|].
           intros mm. by rewrite Ex.
    + intros k Hk1 Hk2. cbn. rewrite (li_frame _ _ _ _ _ _ Hinv); [by apply Hkeep|].
      intros x rel ->. apply Hk1. by exists (x :: rel).
Qed.

(** [tree_depth] bounds every path under [src]. *)
Lemma tree_depth_bound (fs : FS) src rel n :
  fs !! (src ++ rel) = Some n -> List.length rel <= tree_depth fs src.
Proof.
  unfold tree_depth. revert rel n.
  apply (map_fold_weak_ind (fun r m => forall rel n, m !! (src ++ rel) = Some n -> List.length rel <= r)).
  - intros rel n. by rewrite lookup_empty.
  - intros k v m r Hk IH rel n. rewrite lookup_insert. case_decide as Heq.
    + intros _. rewrite decide_True by (subst; by exists rel).
      subst. rewrite List.length_app. lia.
    + intros Hn%IH. case_decide; lia.
Qed.

(** The precondition of a walk with the depth of the source tree. *)
Lemma tree_pre_depth (fs : FS) src dst m :
  fs_wf fs -> apart src dst -> fs !! src = Some (NDir m) ->
  (forall k mk dk, k `prefix_of` dst -> fs !! k <> Some (NFile mk dk)) ->
  (forall x rel, fs !! (dst ++ x :: rel) = None) ->
  tree_pre fs src dst m (tree_depth fs src).
Proof. intros. split; try done. apply tree_depth_bound. Qed.

(** C8. The fuel [tree_fuel] is enough: when the source is a directory
    and the destination is apart and fresh, [copyFolderTree] with
    [tree_fuel] returns [nil] and mirrors the source; it never runs out. *)
Theorem copyFolderTree_terminates src dst m w :
  fs_wf (w_fs w) -> apart src dst -> w_fs w !! src = Some (NDir m) ->
  (forall k mk dk, k `prefix_of` dst -> w_fs w !! k <> Some (NFile mk dk)) ->
  (forall x rel, w_fs w !! (dst ++ x :: rel) = None) ->
  exists fs', copyFolderTree (tree_fuel (w_fs w) src) src dst w = Ok None (mkWorld fs' (w_events w)) /\
              tree_post (w_fs w) fs' src dst m.
Proof.
  intros Hwf Hap Hsrc Hnf Hfr. apply (copyFolderTree_mirror _ _ _ _ (tree_depth (w_fs w) src)).
  - by apply tree_pre_depth.
  - unfold tree_fuel. lia.
Qed.

(** More fuel changes nothing: a run of [copyFolderTree] that did
    not run out of fuel gives the same outcome with any larger fuel. *)
Theorem copyFolderTree_fuel_mono n k src dst w :
  n <= k -> copyFolderTree n src dst w <> NoFuel ->
  copyFolderTree k src dst w = copyFolderTree n src dst w.
Proof.
  revert k src dst w. induction n as [|n IH]; intros k src dst w Hk Hrun; [done|].
  destruct k as [|k]; [lia|].
  rewrite copyFolderTree_S in Hrun. rewrite (copyFolderTree_S k), (copyFolderTree_S n).
  destruct (w_fs w !! src) as [nd|]; [|done].
  destruct (fs_mkdir_all dst (node_mode nd) (w_fs w)) as [|fs1]; [done|].
  destruct (fs_read_dir src fs1) as [|es]; [done|].
  apply m_bind_mono; [|done|done]. intros s. apply forM_mono.
  intros [x []] s' Hs'; unfold copyFolderTree_entry in *; cbn [fst snd] in *; [|done].
  apply m_bind_mono; [|done|done]. intros s''. apply IH. lia.
Qed.

(* ------------------------------------------------------------------ *)
(** ** The walk ends whenever the destination is apart from the source *)

Lemma copyFile_dirs_near p src dst w r w' :
  copyFile src dst w = Ok r w' -> dirs_near p (w_fs w) (w_fs w').
Proof.
  rewrite copyFile_unfold. destruct (w_fs w !! src) as [[]|]; intros; simplify_eq; [apply dirs_near_refl| |apply dirs_near_refl].
  destruct (fs_create dst (w_fs w)) as [|fs1] eqn:Ec; simplify_eq; [apply dirs_near_refl|].
  eapply dirs_near_trans; [by eapply dirs_near_create|apply dirs_near_append].
Qed.

Lemma copyFile_ends_near p src dst w0 :
  ends_in (fun w => dirs_near p (w_fs w0) (w_fs w)) (copyFile src dst)
          (fun _ w => dirs_near p (w_fs w0) (w_fs w)).
Proof.
  apply ends_in_total. intros w Hw. destruct (copyFile_total src dst w) as (r & w' & H).
  exists r, w'. split; [done|]. eapply dirs_near_trans; [done|]. by eapply copyFile_dirs_near.
Qed.

(** Printing an error keeps every property of the file system. *)
Lemma print_err_ends (P : FS -> Prop) e :
  ends_in (fun w => P (w_fs w)) (print_err e) (fun _ w => P (w_fs w)).
Proof. intros w Hw. by destruct e. Qed.

(** The walk ends on every source whose directories lie less than
    [fuel] deep, whatever is at the destination, as long as it is apart
    from the source; the only new directories lie on the way to, or
    below, the destination. *)
Lemma copyFolderTree_ends fuel src dst w0 :
  apart src dst -> 0 < fuel -> dir_bound (w_fs w0) src fuel ->
  ends_in (eq w0) (copyFolderTree fuel src dst) (fun _ w => dirs_near dst (w_fs w0) (w_fs w)).
Proof.
  revert src dst w0. induction fuel as [|n IH]; intros src dst w0 Hap Hpos Hb; [lia|].
  intros w ->. rewrite copyFolderTree_S.
  destruct (w_fs w !! src) as [nd|]; [|apply dirs_near_refl].
  destruct (fs_mkdir_all dst (node_mode nd) (w_fs w)) as [|fs1] eqn:Emk; [apply dirs_near_refl|].
  pose proof (dirs_near_mkdir_all _ _ _ _ Emk) as Hn1.
  destruct (fs_read_dir src fs1) as [|es] eqn:Erd; [done|].
  refine (ends_in_bind (fun w' => dirs_near dst (w_fs w) (w_fs w')) (fun _ w' => dirs_near dst (w_fs w) (w_fs w'))
            _ _ _ _ _ (set_fs fs1 w) Hn1); [|intros; by apply ends_in_ret].
  apply ends_in_forM. intros [x []] Hx; unfold copyFolderTree_entry; cbn [fst snd].
  - apply ends_in_at. intros w1 Hw1.
    assert (Hb1 : dir_bound (w_fs w1) src (S n)) by by apply (dir_bound_near dst src (S n) (w_fs w)).
    apply (fs_read_dir_elem _ _ _ _ _ Erd) in Hx as ([m|] & Hm & Hd); [|done].
    assert (Hmb : dir_bound fs1 src (S n)) by by apply (dir_bound_near dst src (S n) (w_fs w)).
    pose proof (Hmb [x] m Hm) as Hn. cbn in Hn.
    apply (ends_in_bind _ (fun _ w' => dirs_near (dst ++ [x]) (w_fs w1) (w_fs w'))).
    + apply IH; [by apply apart_snoc|lia|]. intros rel m' Hrel.
      rewrite <-app_assoc in Hrel. apply Hb1 in Hrel. cbn in Hrel. lia.
    + intros e. eapply ends_in_conseq; [apply (print_err_ends (fun fs => dirs_near (dst ++ [x]) (w_fs w1) fs))|done|].
      intros u w' Hw'. eapply dirs_near_trans; [exact Hw1|]. by apply dirs_near_snoc in Hw'.
  - apply (ends_in_bind _ (fun _ w' => dirs_near dst (w_fs w) (w_fs w'))); [apply copyFile_ends_near|].
    intros r. apply print_err_ends.
Qed.

Lemma tree_fuel_dir_bound fs src : dir_bound fs src (tree_fuel fs src).
Proof. intros rel m H%tree_depth_bound. unfold tree_fuel. lia. Qed.

(* ------------------------------------------------------------------ *)
(** ** Loops that copy a list of files into one directory *)

(** What a copy of a source leaves at the destination: the bytes of a
    regular file with mode 0666, nothing otherwise. *)
Definition file_copy (o : option node) : option node :=
  match o with Some (NFile _ d) => Some (NFile mode_create d) | _ => None end.

Section CopyEach.
Context {A : Type} (Sf : A -> path) (dir : path) (nm : A -> string)
        (on_err : A -> M world unit).

(** The loop body of [copySMFiles] and [copyImageSet]. *)
Definition copy_body (a : A) : M world unit :=
  r <- copyFile (Sf a) (dir ++ [nm a]) ;;
  match r.2 with Some _ => on_err a | None => m_ret tt end.

Context (w0 : world) (md : N) (l : list A).
Hypothesis Hwf : fs_wf (w_fs w0).
Hypothesis Hdir : w_fs w0 !! dir = Some (NDir md).
Hypothesis Hnd : NoDup (nm <$> l).
Hypothesis Happ : forall a b, a ∈ l -> b ∈ l -> Sf a <> dir ++ [nm b].
Hypothesis Hfresh : forall a, a ∈ l -> w_fs w0 !! (dir ++ [nm a]) = None.

Record each_inv (done : list A) (w : world) : Prop := {
  ei_wf : fs_wf (w_fs w);
  ei_done : forall a, a ∈ done -> w_fs w !! (dir ++ [nm a]) = file_copy (w_fs w0 !! Sf a);
  ei_todo : forall a, a ∈ l -> nm a ∉ nm <$> done -> w_fs w !! (dir ++ [nm a]) = None;
  ei_frame : forall k, (forall a, a ∈ done -> k <> dir ++ [nm a]) -> w_fs w !! k = w_fs w0 !! k
}.

Lemma each_inv_nil : each_inv [] w0.
Proof.
  split; [done|intros a Ha; inversion Ha|intros a Ha _; by apply Hfresh|done].
Qed.

Lemma copy_each_step done a rest w :
  l = done ++ a :: rest -> each_inv done w ->
  (file_copy (w_fs w0 !! Sf a) = None -> forall w1, exists ev, on_err a w1 = Ok tt (mkWorld (w_fs w1) ev)) ->
  exists w', copy_body a w = Ok tt w' /\ each_inv (done ++ [a]) w'.
Proof.
  intros Hl Hinv Herr.
  assert (Ha : a ∈ l) by (rewrite Hl; apply elem_of_app; right; by left).
  assert (Hna : nm a ∉ nm <$> done).
  { rewrite Hl, fmap_app in Hnd. cbn in Hnd. apply NoDup_app in Hnd as (_ & Hd & _).
    intros Hin. apply (Hd _ Hin). by left. }
  assert (Hsrc : w_fs w !! Sf a = w_fs w0 !! Sf a).
  { apply (ei_frame _ _ Hinv). intros b Hb. apply Happ; [done|]. rewrite Hl. set_solver. }
  assert (Hdirw : w_fs w !! dir = Some (NDir md)).
  { rewrite (ei_frame _ _ Hinv); [done|]. intros b _ Heq. symmetry in Heq. by apply snoc_neq in Heq. }
  assert (Hdst : w_fs w !! (dir ++ [nm a]) = None) by (by apply (ei_todo _ _ Hinv)).
  assert (Hext : forall b, b ∈ done ++ [a] -> (b ∈ done /\ nm b <> nm a) \/ b = a).
  { intros b. rewrite elem_of_app, list_elem_of_singleton. intros [Hb|]; [left|by right].
    split; [done|]. intros Heq. apply Hna. rewrite <-Heq. by apply list_elem_of_fmap_2. }
  unfold copy_body, m_bind.
  destruct (w_fs w0 !! Sf a) as [[ms|mf d]|] eqn:Es.
  - rewrite (copyFile_notreg _ _ w ms) by by rewrite Hsrc.
    destruct (Herr eq_refl w) as [ev Hev]. cbn. rewrite Hev. eexists; split; [done|].
    split; cbn; [apply Hinv| | |].
    + intros b [[Hb _]| ->]%Hext; [by apply (ei_done _ _ Hinv)|by rewrite Es].
    + intros b Hb Hnb. rewrite fmap_app, elem_of_app in Hnb. apply (ei_todo _ _ Hinv); naive_solver.
    + intros k Hk. apply (ei_frame _ _ Hinv). intros b Hb. apply Hk. set_solver.
  - rewrite (copyFile_fresh _ _ _ mf d); [|by rewrite Hsrc|by apply Happ|done|by exists dir, (nm a), md].
    cbn. eexists; split; [done|]. split; cbn.
    + apply wf_insert; [apply Hinv|by exists dir, (nm a), md|].
      intros _ x. apply wf_leaf_below; [apply Hinv|]. by rewrite Hdst.
    + intros b [[Hb Hne]| ->]%Hext.
      * rewrite lookup_insert_ne by (intros Heq; apply app_inj_tail in Heq; naive_solver).
        by apply (ei_done _ _ Hinv).
      * by rewrite lookup_insert_eq, Es.
    + intros b Hb Hnb. rewrite fmap_app, elem_of_app in Hnb.
      rewrite lookup_insert_ne by (intros Heq; apply app_inj_tail in Heq; set_solver).
      apply (ei_todo _ _ Hinv); naive_solver.
    + intros k Hk. rewrite lookup_insert_ne by (intros Heq; apply (Hk a); [set_solver|by rewrite Heq]).
      apply (ei_frame _ _ Hinv). intros b Hb. apply Hk. set_solver.
  - rewrite copyFile_missing by by rewrite Hsrc.
    destruct (Herr eq_refl w) as [ev Hev]. cbn. rewrite Hev. eexists; split; [done|].
    split; cbn; [apply Hinv| | |].
    + intros b [[Hb _]| ->]%Hext; [by apply (ei_done _ _ Hinv)|by rewrite Es].
    + intros b Hb Hnb. rewrite fmap_app, elem_of_app in Hnb. apply (ei_todo _ _ Hinv); naive_solver.
    + intros k Hk. apply (ei_frame _ _ Hinv). intros b Hb. apply Hk. set_solver.
Qed.
(** The whole loop: each destination holds the copy of its source. *)
Lemma copy_each_ok :
  (forall a, a ∈ l -> file_copy (w_fs w0 !! Sf a) = None ->
     forall w1, exists ev, on_err a w1 = Ok tt (mkWorld (w_fs w1) ev)) ->
  exists w', forM_ l copy_body w0 = Ok tt w' /\ each_inv l w'.
Proof.
  intros Herr. apply forM_ok; [|apply each_inv_nil].
  intros done a rest w Hl Hinv. apply (copy_each_step done a rest); [done|done|].
  apply Herr. rewrite Hl. set_solver.
Qed.

(** The first source that is not a regular file stops a loop whose
    error handler is fatal. *)
Lemma copy_each_fatal pre a post msg :
  l = pre ++ a :: post ->
  (forall b, b ∈ pre -> file_copy (w_fs w0 !! Sf b) <> None) ->
  file_copy (w_fs w0 !! Sf a) = None ->
  (forall w1, on_err a w1 = Fatal msg w1) ->
  exists w', forM_ l copy_body w0 = Fatal msg w'.
Proof.
  intros Hl Hpre Ha Hfat. rewrite Hl, forM_app.
  destruct (forM_ok (fun done w => each_inv done w) copy_body pre) with (s := w0)
    as (w1 & Hrun & Hinv); [|apply each_inv_nil|].
  { intros done b rest w Hp Hinv. apply (copy_each_step done b (rest ++ a :: post)).
    - by rewrite Hl, Hp, <-app_assoc.
    - done.
    - intros Hb. exfalso. apply (Hpre b); [rewrite Hp; set_solver|done]. }
  exists (match copyFile (Sf a) (dir ++ [nm a]) w1 with Ok _ w2 => w2 | _ => w1 end).
  unfold m_bind. rewrite Hrun. cbn. unfold copy_body, m_bind.
  assert (Hsrc : w_fs w1 !! Sf a = w_fs w0 !! Sf a).
  { apply (ei_frame _ _ Hinv). intros b Hb. apply Happ; rewrite Hl; set_solver. }
  rewrite copyFile_unfold, Hsrc.
  destruct (w_fs w0 !! Sf a) as [[|]|]; [by rewrite Hfat|done|by rewrite Hfat].
Qed.
End CopyEach.

(** [copyFile] always returns (its failures are values, never exits). *)

Lemma copy_body_total {A} (Sf : A -> path) dir nm on_err :
  (forall a, total (on_err a)) -> forall a, total (copy_body Sf dir nm on_err a).
Proof.
  intros Herr a w. unfold copy_body, m_bind.
  destruct (copyFile_total (Sf a) (dir ++ [nm a]) w) as ([n [e|]] & w1 & ->); cbn;
    [apply Herr|by eexists _, _].
Qed.

#[export] Hint Resolve copy_body_total : makesm.

Lemma add_suffix_app (p q : path) sfx : q <> [] -> add_suffix (p ++ q) sfx = p ++ add_suffix q sfx.
Proof.
  intros Hq. induction p as [|x p IH]; [done|]. cbn [app]. rewrite <-IH.
  destruct (p ++ q) eqn:E; [by destruct p, q|done].
Qed.

(* ------------------------------------------------------------------ *)
(** ** Examples: the theorems at a concrete file system *)

(** A root, a file [a], and a tree [src] with a file and a subfolder. *)
Definition ex_copy_fs : FS :=
  list_to_map [([], NDir 493); (["a"], NFile 420 "hi"); (["src"], NDir 493);
               (["src"; "f"], NFile 420 "x"); (["src"; "d"], NDir 448);
               (["src"; "d"; "g"], NFile 384 "y")].

Definition ex_copy_w : world := mkWorld ex_copy_fs [].

Lemma copyFile_copies_witness :
  copyFile ["a"] ["b"] ex_copy_w =
    Ok (N.of_nat (String.length "hi"), None)
       (mkWorld (<[["b"] := NFile (created_mode (w_fs ex_copy_w) ["b"]) "hi"]> (w_fs ex_copy_w))
                (w_events ex_copy_w)).
Proof.
  apply (copyFile_copies _ _ _ 420).
  - vm_compute. reflexivity.
  - decide_vm.
  - intros md. vm_compute. discriminate.
  - right. exists [], "b", 493%N. split; [reflexivity|vm_compute; reflexivity].
Defined.



Lemma copyFolderTree_terminates_witness :
  exists fs', copyFolderTree (tree_fuel (w_fs ex_copy_w) ["src"]) ["src"] ["dst"] ex_copy_w =
                Ok None (mkWorld fs' (w_events ex_copy_w)) /\
              tree_post (w_fs ex_copy_w) fs' ["src"] ["dst"] 493.
Proof.
  apply copyFolderTree_terminates.
  - apply fs_wfb_sound. vm_compute. reflexivity.
  - decide_vm.
  - vm_compute. reflexivity.
  - apply nofile_on_sound. vm_compute. reflexivity.
  - apply nothing_below_sound. vm_compute. reflexivity.
Defined.

(** C29. The tree walk terminates whenever the destination is apart
    from the source, whatever already lies at the destination: with the
    fuel [tree_fuel] it returns or exits, and never runs out. *)
Theorem copyFolderTree_ends_apart src dst w :
  apart src dst -> copyFolderTree (tree_fuel (w_fs w) src) src dst w <> NoFuel.
Proof.
  intros Hap. apply (ends_in_nofuel (eq w) (fun _ _ => True)); [|done].
  eapply ends_in_conseq; [apply copyFolderTree_ends|done|done].
  - done.
  - unfold tree_fuel. lia.
  - apply tree_fuel_dir_bound.
Qed.

(** The destination [b] exists, and its [d] is a file where the source
    has a folder. *)
Definition ex_clash_fs : FS :=
  <[["b"] := NDir 493]> (<[["b"; "d"] := NFile 420 "old"]> ex_copy_fs).

Lemma copyFolderTree_ends_apart_witness :
  apart ["src"] ["b"] /\ copyFolderTree (tree_fuel ex_clash_fs ["src"]) ["src"] ["b"] (mkWorld ex_clash_fs []) <> NoFuel.
Proof.
  assert (H : apart ["src"] ["b"]) by decide_vm.
  split; [exact H|]. exact (copyFolderTree_ends_apart ["src"] ["b"] (mkWorld ex_clash_fs []) H).
Defined.

(* ------------------------------------------------------------------ *)
(** ** A walk into its own source never returns *)

(** What a run of the walk into [p] keeps: well-formedness, every entry
    that is neither on the way to [p] nor below it, and every directory
    (it may get a new mode, it never goes away). *)
Definition walk_frame (p : path) (w w' : world) : Prop :=
  fs_wf (w_fs w) ->
  fs_wf (w_fs w') /\
  (forall k, ~ k `prefix_of` p -> ~ p `prefix_of` k -> w_fs w' !! k = w_fs w !! k) /\
  (forall k m, w_fs w !! k = Some (NDir m) -> exists m', w_fs w' !! k = Some (NDir m')).

#[export] Instance walk_frame_preorder p : PreOrder (walk_frame p).
Proof.
  split.
  - intros w Hw. split; [done|split; [done|eauto]].
  - intros a b c Hab Hbc Ha. destruct (Hab Ha) as (Hb & Fab & Pab).
    destruct (Hbc Hb) as (Hc & Fbc & Pbc). split; [done|split].
    + intros k H1 H2. by rewrite Fbc, Fab.
    + intros k m Hk. destruct (Pab k m Hk) as [m' ?]. eauto.
Qed.

Lemma walk_frame_same_fs p w w' : w_fs w' = w_fs w -> walk_frame p w w'.
Proof. intros E Hw. rewrite E. split; [done|split; [done|eauto]]. Qed.

Lemma walk_frame_snoc p y w w' : walk_frame (p ++ [y]) w w' -> walk_frame p w w'.
Proof.
  intros H Hw. destruct (H Hw) as (? & F & P). split; [done|split; [|done]].
  intros k H1 H2. apply F.
  - intros Hk. destruct (prefix_snoc_cases k p y Hk) as [?| ->]; [done|]. apply H2. by apply prefix_app_r.
  - intros Hk. apply H1. by apply prefix_app_l in Hk.
Qed.

Lemma mkdir_all_walk_frame p mode w fs1 :
  fs_mkdir_all p mode (w_fs w) = inr fs1 -> walk_frame p w (set_fs fs1 w).
Proof.
  intros E Hw. cbn [w_fs set_fs]. destruct (fs_mkdir_all_spec p mode _ _ Hw E) as (_ & Hkeep & Hch).
  split; [by eapply fs_mkdir_all_wf|split].
  - intros k H1 H2. destruct (decide (fs1 !! k = w_fs w !! k)) as [|Hne]; [done|].
    exfalso. apply H1. apply (Hch k Hne).
  - intros k m Hk. eauto.
Qed.

Lemma copyFile_walk_frame src dst w r w' : copyFile src dst w = Ok r w' -> walk_frame dst w w'.
Proof.
  intros H Hw. split; [by eapply copyFile_wf|split].
  - intros k H1 _. apply (copyFile_frame _ _ _ _ _ _ H). intros ->. by apply H1.
  - intros k m Hk. exists m. destruct (decide (k = dst)) as [->|Hne]; [|by rewrite (copyFile_frame _ _ _ _ _ _ H)].
    rewrite copyFile_unfold in H. unfold fs_create in H. rewrite Hk in H.
    destruct (w_fs w !! src) as [[]|]; by simplify_eq.
Qed.

Lemma print_err_total e : total (print_err e).
Proof. intros w. destruct e; cbn; unfold emit, m_ret; eauto. Qed.

Lemma print_err_fs e w w' : print_err e w = Ok tt w' -> w_fs w' = w_fs w.
Proof. destruct e; cbn; unfold emit, m_ret; intros H; simplify_eq; reflexivity. Qed.

Lemma copyFolderTree_walk_frame fuel src dst w r w' :
  copyFolderTree fuel src dst w = Ok r w' -> walk_frame dst w w'.
Proof.
  revert src dst w r w'. induction fuel as [|n IH]; intros src dst w r w' H; [done|].
  rewrite copyFolderTree_S in H.
  destruct (w_fs w !! src) as [nd|]; [|simplify_eq; reflexivity].
  destruct (fs_mkdir_all dst (node_mode nd) (w_fs w)) as [|fs1] eqn:Emk; [simplify_eq; reflexivity|].
  transitivity (set_fs fs1 w); [by apply (mkdir_all_walk_frame _ _ _ _ Emk)|].
  destruct (fs_read_dir src fs1); [simplify_eq; reflexivity|].
  apply m_bind_Ok_inv in H as ([] & w2 & Hloop & Hret). unfold m_ret in Hret. simplify_eq.
  eapply (forM_preorder (walk_frame dst)); [|exact Hloop].
  intros [y []] s1 s2 _ Hy; unfold copyFolderTree_entry in Hy; cbn [fst snd] in Hy;
    apply m_bind_Ok_inv in Hy as (e & s3 & H1 & H2);
    (transitivity s3; [|apply walk_frame_same_fs; by eapply print_err_fs]);
    apply (walk_frame_snoc _ y).
  - by eapply IH.
  - by eapply copyFile_walk_frame.
Qed.

(** [copyFolderTree] never calls [log.Fatal]. *)
Lemma copyFolderTree_no_exit fuel src dst : no_exit (copyFolderTree fuel src dst).
Proof.
  revert src dst. induction fuel as [|n IH]; intros src dst; [apply no_exit_nofuel|].
  intros w. rewrite copyFolderTree_S.
  destruct (w_fs w !! src) as [nd|]; [|done].
  destruct (fs_mkdir_all dst (node_mode nd) (w_fs w)); [done|].
  destruct (fs_read_dir src _) as [|es]; [done|].
  enough (Hn : no_exit (m_bind (forM_ es (copyFolderTree_entry n src dst))
                               (fun _ => m_ret (S:=world) (@None oserror)))) by apply Hn.
  eapply no_exit_bind; [|intros; apply no_exit_ret].
  apply no_exit_forM. intros [y []]; unfold copyFolderTree_entry; cbn [fst snd];
    (eapply no_exit_bind; [|intros e; apply no_exit_total; apply print_err_total]).
  - apply IH.
  - apply no_exit_total. intros s. apply copyFile_total.
Qed.


Lemma copyFolderTree_entry_no_exit n src dst fd : no_exit (copyFolderTree_entry n src dst fd).
Proof.
  destruct fd as [y []]; unfold copyFolderTree_entry; cbn [fst snd];
    (eapply no_exit_bind; [|intros e; apply no_exit_total; apply print_err_total]).
  - apply copyFolderTree_no_exit.
  - apply no_exit_total. intros s. apply copyFile_total.
Qed.

Lemma copyFolderTree_entry_walk_frame n src dst fd w w' :
  copyFolderTree_entry n src dst fd w = Ok tt w' -> walk_frame (dst ++ [fd.1]) w w'.
Proof.
  destruct fd as [y []]; unfold copyFolderTree_entry; cbn [fst snd]; intros H;
    apply m_bind_Ok_inv in H as (e & s3 & H1 & H2);
    (transitivity s3; [|apply walk_frame_same_fs; by eapply print_err_fs]).
  - by eapply copyFolderTree_walk_frame.
  - by eapply copyFile_walk_frame.
Qed.

(** The state in which [copyFolderTree] is called again one level deeper:
    the destination [dst] is a folder and [dst ++ [x]] does not exist. *)
Definition into_source_pre (dst : path) (x : string) (w : world) : Prop :=
  fs_wf (w_fs w) /\ (exists m, w_fs w !! dst = Some (NDir m)) /\ w_fs w !! (dst ++ [x]) = None.

(** The siblings of [x] that the loop copies before it reaches [x] keep
    [into_source_pre]: each of them writes only under its own name. *)
Lemma into_source_pre_siblings n src dst x pre w w' :
  x ∉ pre.*1 -> into_source_pre dst x w ->
  forM_ pre (copyFolderTree_entry n src dst) w = Ok tt w' -> into_source_pre dst x w'.
Proof.
  intros Hx. apply forM_inv. intros [y b] s1 s2 Hy (Hwf & [m Hd] & Hk) Hs.
  assert (Hne : x <> y) by (intros ->; apply Hx; by apply (list_elem_of_fmap_2 fst) in Hy).
  destruct (copyFolderTree_entry_walk_frame _ _ _ _ _ _ Hs Hwf) as (Hwf' & Hkeep & Hdirs).
  destruct (apart_siblings dst x y Hne) as [H1 H2].
  split; [done|split; [eauto|]]. by rewrite Hkeep.
Qed.

(** The first level of a copy into [src ++ [x]]: the destination is
    created, [x] is among the entries of [src], and the entries before it
    are its siblings. *)
Lemma into_source_step src x w m :
  fs_wf (w_fs w) -> w_fs w !! src = Some (NDir m) -> w_fs w !! (src ++ [x]) = None ->
  exists fs1 pre post,
    fs_mkdir_all (src ++ [x]) m (w_fs w) = inr fs1 /\
    fs_read_dir src fs1 = inr (pre ++ (x, true) :: post) /\
    x ∉ pre.*1 /\ into_source_pre (src ++ [x]) x (set_fs fs1 w).
Proof.
  intros Hwf Hs Hx.
  destruct (fs_mkdir_all_succeeds (src ++ [x]) m (w_fs w)) as [fs1 Emk].
  { intros k mk dk Hk. destruct (prefix_snoc_cases k src x Hk) as [Hp| ->]; [|by rewrite Hx].
    destruct (wf_dir_ancestors _ _ _ _ Hwf Hs Hp) as [mk' ->]. done. }
  destruct (fs_mkdir_all_spec _ _ _ _ Hwf Emk) as ([md Hd] & Hkeep & Hch).
  destruct (fs_read_dir_ok src fs1 m (Hkeep _ _ Hs)) as [es Ees].
  assert (Hin : (x, true) ∈ es) by (apply (fs_read_dir_elem _ _ _ _ _ Ees); eauto).
  apply list_elem_of_split in Hin as (pre & post & ->).
  exists fs1, pre, post. split; [done|split; [done|split]].
  - apply fs_read_dir_NoDup in Ees. rewrite fmap_app in Ees. cbn in Ees.
    apply NoDup_app in Ees as (_ & Hdis & _). intros Hx'. by apply (Hdis x Hx'); left.
  - split; [by eapply fs_mkdir_all_wf|split; [eauto|]]. cbn [w_fs set_fs].
    destruct (decide (fs1 !! ((src ++ [x]) ++ [x]) = w_fs w !! ((src ++ [x]) ++ [x]))) as [->|Hne].
    + apply wf_no_children; [done|]. by rewrite Hx.
    + destruct (Hch _ Hne) as [Hp _]. apply prefix_length in Hp.
      rewrite !length_app in Hp. cbn in Hp. lia.
Qed.

(** C31. A copy of a folder into a new sub-folder of itself never returns:
    [copyFolderTree] reads the entries of [src] after it has created
    [src/x], meets [x] among them and copies [src/x] into [src/x/x], and so
    on, one level deeper with every call, whatever the fuel. The model has
    no limit on the length of a path; on a real system the descent stops
    only at the operating system's limit. *)
Theorem copyFolderTree_into_source fuel src x w m :
  fs_wf (w_fs w) -> w_fs w !! src = Some (NDir m) -> w_fs w !! (src ++ [x]) = None ->
  copyFolderTree fuel src (src ++ [x]) w = NoFuel.
Proof.
  revert src w m. induction fuel as [|n IH]; intros src w m Hwf Hs Hx; [done|].
  destruct (into_source_step src x w m Hwf Hs Hx) as (fs1 & pre & post & Emk & Erd & Hpre & Hinv).
  rewrite copyFolderTree_S, Hs. cbn [node_mode]. rewrite Emk, Erd.
  apply m_bind_nofuel. rewrite forM_app. unfold m_bind at 1.
  pose proof (no_exit_forM _ pre (copyFolderTree_entry_no_exit n src (src ++ [x])) (set_fs fs1 w)) as Hne.
  destruct (forM_ pre _ (set_fs fs1 w)) as [[] w2| |] eqn:Eloop; [|done|done].
  destruct (into_source_pre_siblings _ _ _ _ _ _ _ Hpre Hinv Eloop) as (Hwf2 & [m2 Hd2] & Hk2).
  cbn [forM_]. apply m_bind_nofuel. unfold copyFolderTree_entry; cbn [fst snd].
  apply m_bind_nofuel. by apply (IH _ _ m2).
Qed.

(** The copy of [src] into [src/copy] on the example tree. *)
Lemma copyFolderTree_into_source_witness :
  copyFolderTree 9 ["src"] (["src"] ++ ["copy"]) ex_copy_w = NoFuel.
Proof.
  apply (copyFolderTree_into_source 9 ["src"] "copy" ex_copy_w 493).
  - apply fs_wfb_sound. vm_compute. reflexivity.
  - vm_compute. reflexivity.
  - vm_compute. reflexivity.
Defined.

Lemma add_suffix_ne (p : path) sfx : p <> [] -> sfx <> EmptyString -> add_suffix p sfx <> p.
Proof.
  intros Hp Hs. induction p as [|x [|y p] IH]; [done| |].
  - cbn. intros [= H]. by apply (append_nonempty_neq x sfx).
  - change (add_suffix (x :: y :: p) sfx) with (x :: add_suffix (y :: p) sfx).
    intros [= H]. by apply IH.
Qed.

(* ------------------------------------------------------------------ *)
(** ** [copyExec] and [copyMarkdown] *)

(** C11. The mode of a copied executable: on a fresh destination,
    [copyExec] leaves the copy at the suffixed name with mode 0755, except
    on Windows, where [os.Chmod] is applied to the unsuffixed name (which
    does not exist) and the [.exe] keeps the 0666 of [os.Create]. *)
Theorem copyExec_mode goos src dst w m d :
  w_fs w !! binexe goos src = Some (NFile m d) -> binexe goos src <> binexe goos dst ->
  w_fs w !! binexe goos dst = None -> parent_dir (w_fs w) (binexe goos dst) ->
  (goos = windows -> w_fs w !! dst = None) -> dst <> [] ->
  copyExec goos src dst w =
    Ok tt (mkWorld (<[binexe goos dst := NFile (if decide (goos = windows) then mode_create else mode_exec) d]>
                      (w_fs w)) (w_events w)).
Proof.
  intros Hsrc Hne Hdst Hp Hwin Hnn. unfold copyExec.
  rewrite (m_bind_ok _ _ _ _ _ (copyFile_fresh _ _ _ m d Hsrc Hne Hdst Hp)).
  unfold os_chmod, lift_fs, m_bind, m_ret. cbn [w_fs w_events]. unfold fs_chmod.
  unfold binexe in *. destruct (decide (goos = windows)) as [Hw|Hw].
  - rewrite lookup_insert_ne; [by rewrite Hwin|]. by apply add_suffix_ne.
  - rewrite lookup_insert_eq. cbn. by rewrite insert_insert_eq.
Qed.

Lemma map_replace_all_id (dir : path) old new :
  old <> EmptyString -> Forall (fun c => contains old c = false) dir -> map (replace_all old new) dir = dir.
Proof.
  intros Hold Hdir. induction Hdir as [|c dir Hc _ IH]; [done|].
  cbn. by rewrite replace_all_no_match, IH.
Qed.

(** The Markdown transcoder: when no folder on the destination
    path contains [.md], [copyMarkdown] copies the bytes of [src] to the
    destination name with every [.md] replaced by [.hlp]. *)
Theorem copyMarkdown_copies src dir name w m d :
  Forall (fun c => contains ".md" c = false) dir ->
  w_fs w !! src = Some (NFile m d) -> src <> dir ++ [replace_all ".md" ".hlp" name] ->
  w_fs w !! (dir ++ [replace_all ".md" ".hlp" name]) = None ->
  parent_dir (w_fs w) (dir ++ [replace_all ".md" ".hlp" name]) ->
  copyMarkdown src (dir ++ [name]) w =
    Ok tt (mkWorld (<[dir ++ [replace_all ".md" ".hlp" name] := NFile mode_create d]> (w_fs w)) (w_events w)).
Proof.
  intros Hdir Hsrc Hne Hdst Hp. unfold copyMarkdown.
  rewrite map_app, map_replace_all_id by done. cbn [map].
  by rewrite (m_bind_ok _ _ _ _ _ (copyFile_fresh _ _ _ m d Hsrc Hne Hdst Hp)).
Qed.

(** C12. [copyMarkdown] rewrites [.md] in every component of the
    destination, folders included: when the installation folder [dir]
    exists but its renamed path (some folder name of it contains [.md])
    does not, the help file is not copied at all, the error is dropped,
    and the world is unchanged. *)
Theorem copyMarkdown_renames_folders src dir name w m :
  fs_wf (w_fs w) -> w_fs w !! dir = Some (NDir m) ->
  w_fs w !! map (replace_all ".md" ".hlp") dir = None ->
  copyMarkdown src (dir ++ [name]) w = Ok tt w.
Proof.
  intros Hwf Hd Hr. unfold copyMarkdown. rewrite map_app. cbn [map]. unfold m_bind.
  rewrite copyFile_unfold. destruct (w_fs w !! src) as [[]|]; [done| |done].
  unfold fs_create. rewrite wf_no_children; [|done|by intros ?; rewrite Hr].
  by rewrite parent_check_snoc, Hr.
Qed.

(** The help source [h/a.md] copied into an installation under a folder
    named [x.md]: the replacement also renames that folder, so the copy
    goes to [x.hlp/help/a.hlp], which does not exist. *)
Definition ex_md_fs : FS :=
  list_to_map [([], NDir 493); (["h"], NDir 493); (["h"; "a.md"], NFile 420 "# A");
               (["x.md"], NDir 511); (["x.md"; "help"], NDir 511)].

Lemma copyMarkdown_renames_folders_witness :
  copyMarkdown ["h"; "a.md"] (["x.md"; "help"] ++ ["a.md"]) (mkWorld ex_md_fs []) = Ok tt (mkWorld ex_md_fs []).
Proof.
  apply (copyMarkdown_renames_folders _ _ _ _ 511).
  - apply fs_wfb_sound. vm_compute. reflexivity.
  - vm_compute. reflexivity.
  - vm_compute. reflexivity.
Defined.

Definition ex_exe_fs : FS := list_to_map [([], NDir 493); (["r.exe"], NFile 420 "MZ")].

Lemma copyExec_mode_witness :
  copyExec windows ["r"] ["t"] (mkWorld ex_exe_fs []) =
    Ok tt (mkWorld (<[binexe windows ["t"] := NFile (if decide (windows = windows) then mode_create else mode_exec) "MZ"]>
                      ex_exe_fs) []).
Proof.
  apply (copyExec_mode windows ["r"] ["t"] (mkWorld ex_exe_fs []) 420).
  - vm_compute. reflexivity.
  - decide_vm.
  - vm_compute. reflexivity.
  - exists [], "t.exe", 493%N. split; [reflexivity|vm_compute; reflexivity].
  - intros _. vm_compute. reflexivity.
  - discriminate.
Defined.

Definition ex_help_fs : FS :=
  list_to_map [([], NDir 493); (["h"], NDir 493); (["h"; "a.md"], NFile 420 "# A");
               (["x"], NDir 511); (["x"; "help"], NDir 511)].

Lemma copyMarkdown_copies_witness :
  copyMarkdown ["h"; "a.md"] (["x"; "help"] ++ ["a.md"]) (mkWorld ex_help_fs []) =
    Ok tt (mkWorld (<[["x"; "help"] ++ [replace_all ".md" ".hlp" "a.md"] := NFile mode_create "# A"]> ex_help_fs) []).
Proof.
  apply (copyMarkdown_copies ["h"; "a.md"] ["x"; "help"] "a.md" (mkWorld ex_help_fs []) 420 "# A").
  - decide_vm.
  - vm_compute. reflexivity.
  - decide_vm.
  - vm_compute. reflexivity.
  - exists ["x"; "help"], "a.hlp", 511%N. split; [vm_compute; reflexivity|vm_compute; reflexivity].
Defined.

(* ------------------------------------------------------------------ *)
(** ** Facts on [copyExec] used by the assembler *)

Lemma binexe_app goos (p q : path) : q <> [] -> binexe goos (p ++ q) = p ++ binexe goos q.
Proof. intros Hq. unfold binexe. case_decide; [by apply add_suffix_app|done]. Qed.

Lemma copyExec_total goos src dst w : exists w', copyExec goos src dst w = Ok tt w'.
Proof.
  unfold copyExec. destruct (copyFile_total (binexe goos src) (binexe goos dst) w) as (r & w1 & H).
  rewrite (m_bind_ok _ _ _ _ _ H). unfold os_chmod, lift_fs, m_bind.
  destruct (fs_chmod dst mode_exec (w_fs w1)); eauto.
Qed.

(** [copyExec] changes at most the suffixed and the unsuffixed name. *)
Lemma copyExec_frame goos src dst w w' k :
  copyExec goos src dst w = Ok tt w' -> k <> binexe goos dst -> k <> dst -> w_fs w' !! k = w_fs w !! k.
Proof.
  unfold copyExec. intros (r & w1 & H1 & H)%m_bind_Ok_inv Hk1 Hk2.
  rewrite <-(copyFile_frame _ _ _ _ _ k H1) by done.
  unfold os_chmod, lift_fs, m_bind, m_ret in H.
  destruct (fs_chmod dst mode_exec (w_fs w1)) as [|fs2] eqn:E; simplify_eq; [done|].
  cbn. unfold fs_chmod in E. destruct (w_fs w1 !! dst) as [[]|]; simplify_eq;
    (rewrite lookup_insert_ne; [done|by intros ->]).
Qed.

(** A copied executable lands at its suffixed name with the source's
    bytes (its mode depends on the platform). *)
Lemma copyExec_lands goos src dst w w' m d :
  w_fs w !! binexe goos src = Some (NFile m d) -> binexe goos src <> binexe goos dst ->
  w_fs w !! binexe goos dst = None -> parent_dir (w_fs w) (binexe goos dst) ->
  copyExec goos src dst w = Ok tt w' -> exists mode, w_fs w' !! binexe goos dst = Some (NFile mode d).
Proof.
  intros Hsrc Hne Hdst Hp. unfold copyExec.
  rewrite (m_bind_ok _ _ _ _ _ (copyFile_fresh _ _ _ m d Hsrc Hne Hdst Hp)).
  unfold os_chmod, lift_fs, m_bind, m_ret. cbn [w_fs].
  destruct (fs_chmod dst mode_exec _) as [|fs2] eqn:E; intros H; simplify_eq.
  - exists mode_create. cbn [w_fs set_fs]. apply lookup_insert_eq.
  - unfold fs_chmod in E. cbn [w_fs set_fs].
    destruct (decide (binexe goos dst = dst)) as [Heq|Hne'].
    + rewrite Heq, lookup_insert_eq in E. simplify_eq.
      exists mode_exec. cbn [w_fs set_fs]. by rewrite Heq, lookup_insert_eq.
    + rewrite lookup_insert_ne in E by done.
      destruct (w_fs w !! dst) as [[]|]; simplify_eq; exists mode_create; cbn [w_fs set_fs];
        (rewrite lookup_insert_ne; [apply lookup_insert_eq|done]).
Qed.

(* ------------------------------------------------------------------ *)
(** ** [makeFolder] *)

Lemma makeFolder_unfold p w :
  makeFolder p w =
    match fs_mkdir p mode_dir_default (w_fs w) with
    | inl _ => Fatal ("*** can't establish folder " ++ show_path p)%string w
    | inr fs' => Ok tt (set_fs fs' w)
    end.
Proof.
  unfold makeFolder, establishFolder. unfold_os. msimpl.
  by destruct (fs_mkdir p mode_dir_default (w_fs w)).
Qed.

(** A folder made by [makeFolder] is the only new directory. *)
Lemma makeFolder_dirs_near p w w' : makeFolder p w = Ok tt w' -> dirs_near p (w_fs w) (w_fs w').
Proof.
  rewrite makeFolder_unfold. destruct (fs_mkdir p mode_dir_default (w_fs w)) eqn:E; [done|].
  intros [= <-]. by eapply dirs_near_mkdir.
Qed.

(** [os.Mkdir] refuses an existing path: [makeFolder] stops the run
    and nothing has changed. *)
Lemma makeFolder_exists p w :
  is_Some (w_fs w !! p) -> makeFolder p w = Fatal ("*** can't establish folder " ++ show_path p)%string w.
Proof. intros [n Hn]. rewrite makeFolder_unfold. unfold fs_mkdir. by rewrite Hn. Qed.

Lemma makeFolder_new p w :
  w_fs w !! p = None -> parent_dir (w_fs w) p ->
  makeFolder p w = Ok tt (set_fs (<[p := NDir mode_dir_default]> (w_fs w)) w).
Proof.
  intros Hp Hpar. rewrite makeFolder_unfold. unfold fs_mkdir.
  by rewrite Hp, parent_dir_check.
Qed.
