(* ===== verification/Help.v ===== *)
(** * Help: the help tree, [copyHelp] through [copyMarkdown]

    [generateHelp] copies the help source tree [sm3/help] into
    [target/sm/help] with [copyHelp]: every folder is made with
    [makeFolder] (fatal if it exists, mode 0777), every file whose name
    matches [\.md] goes through [copyMarkdown], which replaces each
    [.md] of the destination path by [.hlp], and every other file
    through [copyFile].  This file proves the walk correct: when no
    folder name on the way contains [.md] and the renaming does not
    make two sibling names equal, the walk with [tree_fuel] returns,
    prints nothing, and puts every entry of the source tree at its
    renamed place with its bytes.  Without those conditions the walk
    still ends when the destination is apart from the source
    ([copyHelp_ends]); two pages renamed to one name overwrite each
    other ([copyHelp_name_clash]).  The renaming leaves no [.md] and is
    undone on every name without [.hlp] ([help_name_roundtrip]). *)

From stdpp Require Import base list gmap strings sorting.
From Stdlib Require Import String Ascii.
From S2P Require Import Prelude FileSystem Copier.

(** The name a help file gets. *)
Definition help_name (x : string) : string := replace_all ".md" ".hlp" x.

(** What a help entry becomes: folders are made by [os.Mkdir] with
    0777, files by [os.Create] with 0666. *)
Definition help_node (n : node) : node :=
  match n with NDir _ => NDir mode_dir_default | NFile _ d => NFile mode_create d end.

Definition no_md (c : string) : Prop := contains ".md" c = false.

(** One iteration of the loop of [copyHelp (S n)]. *)
Definition help_entry (n : nat) (src dst : path) (fd : string * bool) : M world unit :=
  if fd.2 then
    err <- copyHelp n src dst fd.1 ;;
    print_err err
  else if contains ".md" fd.1 then
    copyMarkdown (src ++ [fd.1]) (dst ++ [fd.1])
  else
    r <- copyFile (src ++ [fd.1]) (dst ++ [fd.1]) ;;
    print_err r.2.

Lemma copyHelp_S n sp dp f w :
  copyHelp (S n) sp dp f w =
    match makeFolder (dp ++ [f]) w with
    | Ok _ w1 =>
        match fs_read_dir (sp ++ [f]) (w_fs w1) with
        | inl e => Ok (Some e) w1
        | inr es => m_bind (forM_ es (help_entry n (sp ++ [f]) (dp ++ [f]))) (fun _ => m_ret None) w1
        end
    | Fatal msg w1 => Fatal msg w1
    | NoFuel => NoFuel
    end.
Proof.
  cbn [copyHelp]. unfold m_bind at 1. destruct (makeFolder (dp ++ [f]) w); [|done|done].
  unfold m_bind at 1, os_read_dir. by destruct (fs_read_dir _ _).
Qed.

(** The precondition of a walk from [src] to [dst]. *)
Record help_pre (fs : FS) (src dst : path) (d : nat) : Prop := {
  hp_wf : fs_wf fs;
  hp_apart : apart src dst;
  hp_src : exists m, fs !! src = Some (NDir m);
  hp_dst : fs !! dst = None;
  hp_parent : parent_dir fs dst;
  hp_dst_md : Forall no_md dst;
  hp_dirs_md : forall rel x m, fs !! (src ++ rel ++ [x]) = Some (NDir m) -> no_md x;
  hp_inj : forall rel x y nx ny, fs !! (src ++ rel ++ [x]) = Some nx -> fs !! (src ++ rel ++ [y]) = Some ny ->
             help_name x = help_name y -> x = y;
  hp_depth : forall rel n, fs !! (src ++ rel) = Some n -> List.length rel <= d
}.

(** The postcondition: every entry of the source tree is at its renamed
    place, and nothing outside [dst] changed. *)
Record help_post (fs fs' : FS) (src dst : path) : Prop := {
  hq_wf : fs_wf fs';
  hq_mirror : forall rel n, fs !! (src ++ rel) = Some n ->
                fs' !! (dst ++ map help_name rel) = Some (help_node n);
  hq_frame : forall k, ~ dst `prefix_of` k -> fs' !! k = fs !! k
}.

(** The loop invariant after the entries [done]; [fs1] is the state
    after [makeFolder dst]. *)
Record help_inv (fs1 : FS) (ev : list event) (src dst : path)
       (done : list (string * bool)) (w : world) : Prop := {
  hi_events : w_events w = ev;
  hi_wf : fs_wf (w_fs w);
  hi_frame : forall k, (forall x rel, k <> dst ++ x :: rel) -> w_fs w !! k = fs1 !! k;
  hi_done : forall x rel n, x ∈ done.*1 -> fs1 !! (src ++ x :: rel) = Some n ->
              w_fs w !! (dst ++ help_name x :: map help_name rel) = Some (help_node n);
  hi_todo : forall x rel, x ∉ done.*1 -> is_Some (fs1 !! (src ++ [x])) ->
              w_fs w !! (dst ++ help_name x :: rel) = None
}.

(** An entry of [fs] below [src ++ [y]] makes [y] an entry of [src]. *)
Lemma entry_of_below (fs : FS) src y rel n :
  fs_wf fs -> fs !! (src ++ y :: rel) = Some n -> is_Some (fs !! (src ++ [y])).
Proof.
  intros Hwf Hn. destruct rel as [|z rel]; [by eexists|].
  rewrite app_cons_snoc in Hn. destruct (wf_ancestor_dir fs (src ++ [y]) (z :: rel) n) as [m Hm];
    [done|done|done|]. by eexists.
Qed.

Lemma help_name_no_md x : no_md x -> help_name x = x.
Proof. apply replace_all_no_match. discriminate. Qed.

Section HelpLoop.
Context (fs1 : FS) (ev : list event) (src dst : path).
Hypothesis Hwf1 : fs_wf fs1.
Hypothesis Hap : apart src dst.
Hypothesis Hdst1 : fs1 !! dst = Some (NDir mode_dir_default).
Hypothesis Hmd : Forall no_md dst.
Hypothesis Hdirs : forall rel x m, fs1 !! (src ++ rel ++ [x]) = Some (NDir m) -> no_md x.
Hypothesis Hinj : forall rel x y nx ny, fs1 !! (src ++ rel ++ [x]) = Some nx ->
  fs1 !! (src ++ rel ++ [y]) = Some ny -> help_name x = help_name y -> x = y.

(** An iteration that only touches the renamed subtree of [x], and
    leaves the image of [x] there, extends the invariant. *)
Lemma help_inv_extend done x b w w' :
  help_inv fs1 ev src dst done w -> x ∉ done.*1 -> is_Some (fs1 !! (src ++ [x])) ->
  w_events w' = ev -> fs_wf (w_fs w') ->
  (forall k, (forall rel, k <> dst ++ help_name x :: rel) -> w_fs w' !! k = w_fs w !! k) ->
  (forall rel n, fs1 !! (src ++ x :: rel) = Some n ->
     w_fs w' !! (dst ++ help_name x :: map help_name rel) = Some (help_node n)) ->
  help_inv fs1 ev src dst (done ++ [(x, b)]) w'.
Proof.
  intros Hinv Hx [nx Hnx] Hev Hwf Hother Hnew.
  assert (Hne : forall y rel, is_Some (fs1 !! (src ++ [y])) -> y <> x ->
            w_fs w' !! (dst ++ help_name y :: rel) = w_fs w !! (dst ++ help_name y :: rel)).
  { intros y rel [ny Hny] Hy. apply Hother. intros rel' Heq%app_inv_head. injection Heq as Heq _.
    apply Hy. by apply (Hinj [] y x ny nx). }
  split; [done|done| | |].
  - intros k Hk. rewrite Hother by naive_solver. by apply (hi_frame _ _ _ _ _ _ Hinv).
  - intros y rel n Hy Hn. rewrite fmap_app in Hy; cbn in Hy; rewrite elem_of_app, list_elem_of_singleton in Hy.
    destruct (decide (y = x)) as [->|Hyx]; [by apply Hnew|].
    rewrite Hne; [|by eapply entry_of_below|done].
    apply (hi_done _ _ _ _ _ _ Hinv); [naive_solver|done].
  - intros y rel Hy Hsy. rewrite fmap_app in Hy; cbn in Hy; rewrite elem_of_app, list_elem_of_singleton in Hy.
    rewrite Hne by naive_solver. apply (hi_todo _ _ _ _ _ _ Hinv); naive_solver.
Qed.

(** Under [src]: what the loop reads is what [fs1] holds. *)
Lemma help_inv_src done w rel :
  help_inv fs1 ev src dst done w -> w_fs w !! (src ++ rel) = fs1 !! (src ++ rel).
Proof. intros Hinv. apply (hi_frame _ _ _ _ _ _ Hinv). intros x rel'. by apply apart_under. Qed.

Lemma help_inv_dst done w :
  help_inv fs1 ev src dst done w -> w_fs w !! dst = Some (NDir mode_dir_default).
Proof.
  intros Hinv. rewrite (hi_frame _ _ _ _ _ _ Hinv); [done|].
  intros x rel Heq. apply (not_prefix_app_cons dst rel x). by rewrite <-Heq.
Qed.
(** A file entry: its bytes go to the renamed name in [dst]. *)
Lemma help_step_file n done x w mf df :
  help_inv fs1 ev src dst done w -> x ∉ done.*1 ->
  fs1 !! (src ++ [x]) = Some (NFile mf df) ->
  exists w', help_entry n src dst (x, false) w = Ok tt w' /\
             help_inv fs1 ev src dst (done ++ [(x, false)]) w'.
Proof.
  intros Hinv Hx Hsrc.
  assert (Hp : parent_dir (w_fs w) (dst ++ [help_name x])).
  { exists dst, (help_name x), mode_dir_default. split; [done|]. by eapply help_inv_dst. }
  assert (Hfresh : w_fs w !! (dst ++ [help_name x]) = None).
  { apply (hi_todo _ _ _ _ _ _ Hinv); [done|by eexists]. }
  assert (Hcopy : copyFile (src ++ [x]) (dst ++ [help_name x]) w =
            Ok (N.of_nat (String.length df), None)
               (mkWorld (<[dst ++ [help_name x] := NFile mode_create df]> (w_fs w)) (w_events w))).
  { apply (copyFile_fresh _ _ _ mf); [|by apply apart_under|done|done].
    by rewrite (help_inv_src done w [x] Hinv). }
  assert (Hentry : help_entry n src dst (x, false) w =
            Ok tt (mkWorld (<[dst ++ [help_name x] := NFile mode_create df]> (w_fs w)) (w_events w))).
  { unfold help_entry. cbn [fst snd]. destruct (contains ".md" x) eqn:Ex.
    - unfold copyMarkdown. rewrite map_app, map_replace_all_id by done. cbn [map].
      change (replace_all ".md" ".hlp" x) with (help_name x).
      by rewrite (m_bind_ok _ _ _ _ _ Hcopy).
    - rewrite help_name_no_md in Hcopy |- * by done. by rewrite (m_bind_ok _ _ _ _ _ Hcopy). }
  rewrite Hentry. eexists. split; [done|].
  apply (help_inv_extend _ _ _ w); [done|done|by eexists|apply Hinv| | |].
  - cbn. apply wf_insert; [apply Hinv|done|]. intros _ y. rewrite <-app_assoc.
    apply (hi_todo _ _ _ _ _ _ Hinv); [done|by eexists].
  - intros k Hk. cbn. rewrite lookup_insert_ne; [done|]. intros <-. by apply (Hk []).
  - intros [|z rel] nd; cbn [map].
    + rewrite Hsrc. intros [= <-]. cbn. by rewrite lookup_insert_eq.
    + rewrite app_cons_snoc, wf_leaf_below; [done|done|]. by rewrite Hsrc.
Qed.

(** A folder entry: the recursive call, under the induction hypothesis
    for the smaller fuel. *)
Lemma help_step_dir n d done x w mx :
  (forall sp dp f d' w', help_pre (w_fs w') (sp ++ [f]) (dp ++ [f]) d' -> d' < n ->
     exists fs'', copyHelp n sp dp f w' = Ok None (mkWorld fs'' (w_events w')) /\
                  help_post (w_fs w') fs'' (sp ++ [f]) (dp ++ [f])) ->
  (forall rel nd, fs1 !! (src ++ rel) = Some nd -> List.length rel <= d) -> d <= n ->
  help_inv fs1 ev src dst done w -> x ∉ done.*1 ->
  fs1 !! (src ++ [x]) = Some (NDir mx) ->
  exists w', help_entry n src dst (x, true) w = Ok tt w' /\
             help_inv fs1 ev src dst (done ++ [(x, true)]) w'.
Proof.
  intros IH Hdepth Hdn Hinv Hx Hsrc.
  assert (Hxmd : help_name x = x) by (apply help_name_no_md, (Hdirs [] x mx), Hsrc).
  assert (Hsrc' : forall rel, w_fs w !! ((src ++ [x]) ++ rel) = fs1 !! (src ++ x :: rel)).
  { intros rel. by rewrite <-app_assoc, (help_inv_src done w _ Hinv). }
  destruct (IH src dst x (d - 1) w) as (fs'' & Hrun & Hpost).
  { split.
    - apply Hinv.
    - by apply apart_snoc.
    - exists mx. by rewrite (help_inv_src done w [x] Hinv).
    - rewrite <-Hxmd. apply (hi_todo _ _ _ _ _ _ Hinv); [done|by eexists].
    - exists dst, x, mode_dir_default. split; [done|]. by eapply help_inv_dst.
    - apply Forall_app. split; [done|]. apply Forall_singleton. by apply (Hdirs [] x mx).
    - intros rel y m. rewrite Hsrc'. apply (Hdirs (x :: rel)).
    - intros rel y z ny nz. rewrite !Hsrc'. apply (Hinj (x :: rel)).
    - intros rel nd. rewrite Hsrc'. intros Hn%Hdepth. cbn in Hn. lia. }
  { pose proof (Hdepth [x] (NDir mx) Hsrc). cbn in *. lia. }
  unfold help_entry. cbn [fst snd]. unfold m_bind. rewrite Hrun.
  cbn. eexists; split; [done|].
  apply (help_inv_extend _ _ _ w); [done|done|by eexists|cbn; by apply Hinv|apply Hpost| |].
  - intros k Hk. apply (hq_frame _ _ _ _ Hpost). intros [r ->]. apply (Hk r).
    by rewrite Hxmd, <-app_assoc.
  - intros rel nd Hn. rewrite <-Hsrc' in Hn. pose proof (hq_mirror _ _ _ _ Hpost rel nd Hn) as Hm.
    rewrite <-app_assoc in Hm. cbn [w_fs]. by rewrite Hxmd.
Qed.
End HelpLoop.

(** The side conditions of the steps, from the precondition of the
    walk and [Hk1] (the source side is untouched by [makeFolder]). *)
Ltac help_side :=
  match goal with
  | Hk1 : forall rel, _ !! (_ ++ rel) = _ !! (_ ++ rel), Hdirs : forall rel x m, _ -> no_md x |-
      forall rel x m, _ -> no_md x =>
      let rel := fresh in let y := fresh in let my := fresh in
      intros rel y my; rewrite Hk1; apply Hdirs
  | Hk1 : forall rel, _ !! (_ ++ rel) = _ !! (_ ++ rel), Hinj : forall rel x y nx ny, _ -> _ -> _ -> x = y |-
      forall rel x y nx ny, _ -> _ -> _ -> x = y =>
      let rel := fresh in let y := fresh in let z := fresh in let ny := fresh in let nz := fresh in
      intros rel y z ny nz; rewrite !Hk1; apply Hinj
  | Hk1 : forall rel, _ !! (_ ++ rel) = _ !! (_ ++ rel), Hdepth : forall rel n, _ -> List.length rel <= _ |-
      forall rel nd, _ -> List.length rel <= _ =>
      let rel := fresh in let nd := fresh in
      intros rel nd; rewrite Hk1; apply Hdepth
  end.

(** The walk with enough fuel: [copyHelp] returns [nil], prints
    nothing, and leaves the image of the source tree below [dst]. *)
Lemma copyHelp_mirror fuel sp dp f d w :
  help_pre (w_fs w) (sp ++ [f]) (dp ++ [f]) d -> d < fuel ->
  exists fs', copyHelp fuel sp dp f w = Ok None (mkWorld fs' (w_events w)) /\
              help_post (w_fs w) fs' (sp ++ [f]) (dp ++ [f]).
Proof.
  revert sp dp f d w. induction fuel as [|n IH]; intros sp dp f d w Hpre Hd; [lia|].
  destruct Hpre as [Hwf Hap [m Hsrc] Hdst Hpar Hmd Hdirs Hinj Hdepth].
  set (src := sp ++ [f]) in *. set (dst := dp ++ [f]) in *.
  rewrite copyHelp_S. fold src dst. rewrite makeFolder_new by done. cbn [set_fs w_fs].
  set (fs1 := <[dst := NDir mode_dir_default]> (w_fs w)).
  assert (Hk1 : forall rel, fs1 !! (src ++ rel) = w_fs w !! (src ++ rel)).
  { intros rel. unfold fs1. rewrite lookup_insert_ne; [done|]. intros Heq.
    apply (apart_under src dst rel []); [done|]. by rewrite app_nil_r, Heq. }
  assert (Hwf1 : fs_wf fs1) by (by apply wf_insert).
  assert (Hsrc1 : fs1 !! src = Some (NDir m)) by (by rewrite <-(app_nil_r src), Hk1, app_nil_r).
  assert (Hdst1 : fs1 !! dst = Some (NDir mode_dir_default)) by apply lookup_insert_eq.
  destruct (fs_read_dir_ok src fs1 m Hsrc1) as [es Hes]. rewrite Hes.
  destruct (forM_ok (help_inv fs1 (w_events w) src dst) (help_entry n src dst) es)
    with (s := set_fs fs1 w) as (w' & Hloop & Hinv).
  - intros done [x b] rest w1 Hes' Hinv1.
    pose proof (NoDup_fst_middle done rest x b) as Hx.
    rewrite <-Hes' in Hx. specialize (Hx (fs_read_dir_NoDup _ _ _ Hes)).
    destruct (proj1 (fs_read_dir_elem src fs1 es x b Hes)) as ([mx|mf df] & Hn & ->);
      [rewrite Hes'; apply elem_of_app; right; by left| |].
    + eapply help_step_dir with (fs1 := fs1) (src := src) (dst := dst) (n := n) (d := d);
        try done; try lia; try exact IH; help_side.
    + eapply help_step_file with (fs1 := fs1) (src := src) (dst := dst); try done; help_side.
  - split; cbn; [done|done|done|intros ? ? ? Hin; inversion Hin|].
    intros y rel _ _. unfold fs1. rewrite lookup_insert_ne.
    + apply wf_leaf_below; [done|]. by rewrite Hdst.
    + intros Heq. apply (not_prefix_app_cons dst rel (help_name y)). by rewrite <-Heq.
  - exists (w_fs w'). unfold m_bind. rewrite Hloop.
    pose proof (hi_events _ _ _ _ _ _ Hinv) as Hev.
    destruct w' as [fs' ev']. cbn in Hev |- *. subst ev'. split; [done|]. split.
    + apply Hinv.
    + intros [|x rel] nd Hn.
      * rewrite app_nil_r, Hsrc in Hn. injection Hn as <-. cbn [map]. rewrite app_nil_r.
        by apply (help_inv_dst fs1 _ src dst) in Hinv.
      * cbn [map]. rewrite <-Hk1 in Hn. apply (hi_done _ _ _ _ _ _ Hinv); [|done].
        destruct (entry_of_below fs1 src x rel nd Hwf1 Hn) as [nx Hnx].
        apply list_elem_of_fmap. exists (x, is_dir nx). split; [done|].
        by apply (fs_read_dir_elem src fs1 es x (is_dir nx) Hes); eauto.
    + intros k Hk. cbn. rewrite (hi_frame _ _ _ _ _ _ Hinv).
      * unfold fs1. rewrite lookup_insert_ne; [done|]. intros ->. by apply Hk.
      * intros x rel ->. apply Hk. by exists (x :: rel).
Qed.

(** The help walk ends on every source whose directories lie less
    than [fuel] deep, as long as the destination is apart from it: it
    returns or stops at [makeFolder]'s [log.Fatal]; the only new
    directories lie on the way to, or below, the destination. *)
Lemma copyHelp_ends fuel sp dp f w0 :
  apart (sp ++ [f]) (dp ++ [f]) -> 0 < fuel -> dir_bound (w_fs w0) (sp ++ [f]) fuel ->
  ends_in (eq w0) (copyHelp fuel sp dp f) (fun _ w => dirs_near (dp ++ [f]) (w_fs w0) (w_fs w)).
Proof.
  revert sp dp f w0. induction fuel as [|n IH]; intros sp dp f w0 Hap Hpos Hb; [lia|].
  intros w ->. rewrite copyHelp_S.
  destruct (makeFolder (dp ++ [f]) w) as [[] w1| |] eqn:Emf; [|done|by rewrite makeFolder_unfold in Emf; destruct fs_mkdir].
  pose proof (makeFolder_dirs_near _ _ _ Emf) as Hn1.
  destruct (fs_read_dir (sp ++ [f]) (w_fs w1)) as [|es] eqn:Erd; [done|].
  refine (ends_in_bind (fun w' => dirs_near (dp ++ [f]) (w_fs w) (w_fs w'))
            (fun _ w' => dirs_near (dp ++ [f]) (w_fs w) (w_fs w')) _ _ _ _ _ w1 Hn1);
    [|intros; by apply ends_in_ret].
  apply ends_in_forM. intros [x []] Hx; unfold help_entry; cbn [fst snd].
  - apply ends_in_at. intros w2 Hw2.
    assert (Hb2 : dir_bound (w_fs w2) (sp ++ [f]) (S n))
      by by apply (dir_bound_near (dp ++ [f]) (sp ++ [f]) (S n) (w_fs w)).
    assert (Hb1 : dir_bound (w_fs w1) (sp ++ [f]) (S n))
      by by apply (dir_bound_near (dp ++ [f]) (sp ++ [f]) (S n) (w_fs w)).
    apply (fs_read_dir_elem _ _ _ _ _ Erd) in Hx as ([m|] & Hm & Hd); [|done].
    pose proof (Hb1 [x] m Hm) as Hn. cbn in Hn.
    apply (ends_in_bind _ (fun _ w' => dirs_near ((dp ++ [f]) ++ [x]) (w_fs w2) (w_fs w'))).
    + apply IH; [by apply apart_snoc|lia|]. intros rel m' Hrel.
      rewrite <-app_assoc in Hrel. apply Hb2 in Hrel. cbn in Hrel. lia.
    + intros e. eapply ends_in_conseq; [apply (print_err_ends (fun fs => dirs_near ((dp ++ [f]) ++ [x]) (w_fs w2) fs))|done|].
      intros u w' Hw'. eapply dirs_near_trans; [exact Hw2|]. by apply dirs_near_snoc in Hw'.
  - case_match.
    + unfold copyMarkdown. apply (ends_in_bind _ (fun _ w' => dirs_near (dp ++ [f]) (w_fs w) (w_fs w')));
        [apply copyFile_ends_near|]. intros r. by apply ends_in_ret.
    + apply (ends_in_bind _ (fun _ w' => dirs_near (dp ++ [f]) (w_fs w) (w_fs w'))); [apply copyFile_ends_near|].
      intros r. apply print_err_ends.
Qed.

(** C24. The help walk terminates and is right: with [tree_fuel], when
    the source is a directory, the destination is new in an existing
    folder and apart from the source, no folder name on the way
    contains [.md], and renaming keeps sibling names apart, [copyHelp]
    returns [nil], prints nothing, puts every source entry at its place
    with each [.md] of its name turned into [.hlp] (files with their
    bytes and mode 0666, folders with 0777), and changes nothing outside
    the destination. *)
Theorem copyHelp_terminates sp dp f w :
  help_pre (w_fs w) (sp ++ [f]) (dp ++ [f]) (tree_depth (w_fs w) (sp ++ [f])) ->
  exists fs', copyHelp (tree_fuel (w_fs w) (sp ++ [f])) sp dp f w = Ok None (mkWorld fs' (w_events w)) /\
              help_post (w_fs w) fs' (sp ++ [f]) (dp ++ [f]).
Proof. intros Hpre. apply (copyHelp_mirror _ _ _ _ _ _ Hpre). unfold tree_fuel. lia. Qed.

(** ** Executable checks of the conditions on names *)

(** No folder strictly below [src] has [.md] in its name. *)
Definition dirs_no_md (fs : FS) (src : path) : bool :=
  forallb (fun kv : path * node =>
             match kv.2 with
             | NDir _ => negb (bool_decide (src `prefix_of` kv.1 /\ kv.1 <> src)) ||
                         negb (contains ".md" (List.last kv.1 EmptyString))
             | NFile _ _ => true
             end) (map_to_list fs).

Lemma dirs_no_md_sound fs src :
  dirs_no_md fs src = true -> forall rel x m, fs !! (src ++ rel ++ [x]) = Some (NDir m) -> no_md x.
Proof.
  unfold dirs_no_md. rewrite forallb_forall. intros Hall rel x m Hn.
  apply elem_of_map_to_list, list_elem_of_In, Hall in Hn. cbn in Hn.
  apply orb_true_iff in Hn as [Hn|Hn].
  - apply negb_true_iff, bool_decide_eq_false in Hn. exfalso. apply Hn. split.
    + by exists (rel ++ [x]).
    + intros Heq. apply (app_nonempty_neq src (rel ++ [x])); [by destruct rel|done].
  - apply negb_true_iff in Hn. unfold no_md. by rewrite app_assoc, List.last_last in Hn.
Qed.

(** Renaming keeps the names of siblings apart. *)
Definition siblings_apart (fs : FS) : bool :=
  forallb (fun kv1 : path * node =>
    forallb (fun kv2 : path * node =>
      negb (bool_decide (kv1.1 <> [] /\ kv2.1 <> [] /\ removelast kv1.1 = removelast kv2.1 /\
                         help_name (List.last kv1.1 EmptyString) = help_name (List.last kv2.1 EmptyString)))
      || bool_decide (kv1.1 = kv2.1)) (map_to_list fs)) (map_to_list fs).

Lemma siblings_apart_sound fs src :
  siblings_apart fs = true -> forall rel x y nx ny, fs !! (src ++ rel ++ [x]) = Some nx ->
  fs !! (src ++ rel ++ [y]) = Some ny -> help_name x = help_name y -> x = y.
Proof.
  unfold siblings_apart. rewrite forallb_forall. intros Hall rel x y nx ny Hx Hy Hxy.
  apply elem_of_map_to_list, list_elem_of_In, Hall in Hx. rewrite forallb_forall in Hx.
  apply elem_of_map_to_list, list_elem_of_In, Hx in Hy. cbn in Hy.
  rewrite !app_assoc, !removelast_last, !List.last_last in Hy.
  apply orb_true_iff in Hy as [Hy|Hy].
  - apply negb_true_iff, bool_decide_eq_false in Hy. exfalso. apply Hy.
    split_and!; [by destruct (src ++ rel)|by destruct (src ++ rel)|done|done].
  - apply bool_decide_eq_true in Hy. by apply app_inj_tail in Hy as [_ ->].
Qed.

(** A help source with a Markdown page, an image and a subfolder. *)
Definition ex_help_tree : FS :=
  list_to_map [([], NDir 493); (["src"], NDir 493); (["src"; "help"], NDir 493);
               (["src"; "help"; "guide.md"], NFile 420 "# Guide");
               (["src"; "help"; "pic.png"], NFile 420 "PNG");
               (["src"; "help"; "sub"], NDir 493); (["src"; "help"; "sub"; "more.md"], NFile 420 "# More");
               (["out"], NDir 511)].

Lemma copyHelp_terminates_witness :
  exists fs', copyHelp (tree_fuel ex_help_tree (["src"] ++ ["help"])) ["src"] ["out"] "help"
                (mkWorld ex_help_tree []) = Ok None (mkWorld fs' []) /\
              help_post ex_help_tree fs' (["src"] ++ ["help"]) (["out"] ++ ["help"]).
Proof.
  apply (copyHelp_terminates ["src"] ["out"] "help" (mkWorld ex_help_tree [])).
  split.
  - apply fs_wfb_sound. vm_compute. reflexivity.
  - decide_vm.
  - exists 493%N. vm_compute. reflexivity.
  - vm_compute. reflexivity.
  - exists ["out"], "help", 511%N. split; [reflexivity|vm_compute; reflexivity].
  - decide_vm.
  - apply dirs_no_md_sound. vm_compute. reflexivity.
  - apply siblings_apart_sound. vm_compute. reflexivity.
  - intros rel n. apply tree_depth_bound.
Defined.

(** Two sibling pages whose renamed names meet. *)
Definition ex_clash_tree : FS :=
  <[["src"; "help"; "guide.hlp"] := NFile 420 "old help"]> ex_help_tree.

(** Two help pages, one name: [guide.hlp] is copied first (entries
    come in name order), then [guide.md] is renamed onto it and
    overwrites it; the installation keeps one [guide.hlp] with the bytes
    of [guide.md]. *)
Example copyHelp_name_clash :
  match copyHelp (tree_fuel ex_clash_tree (["src"] ++ ["help"])) ["src"] ["out"] "help"
          (mkWorld ex_clash_tree []) with
  | Ok None w' => w_fs w' !! ["out"; "help"; "guide.hlp"] = Some (NFile mode_create "# Guide")
  | _ => False
  end.
Proof. vm_compute. reflexivity. Qed.

(* ------------------------------------------------------------------ *)
(** ** The renaming loses nothing on names without [.hlp] *)

Local Open Scope string_scope.

(** Renaming back: every [.hlp] to [.md]. *)
Definition unhelp_name (x : string) : string := replace_all ".hlp" ".md" x.

Lemma help_name_md t : help_name (".md" ++ t) = ".hlp" ++ help_name t.
Proof.
  pose proof (string_prefix_self ".md" t) as H. unfold help_name, replace_all.
  rewrite !append_String in H |- *. cbn [replace_go]. by rewrite H.
Qed.

Lemma help_name_other c s :
  String.prefix ".md" (String c s) = false -> help_name (String c s) = String c (help_name s).
Proof. intros H. unfold help_name, replace_all. cbn [replace_go]. by rewrite H. Qed.

Lemma unhelp_hlp t : unhelp_name (".hlp" ++ t) = ".md" ++ unhelp_name t.
Proof.
  pose proof (string_prefix_self ".hlp" t) as H. unfold unhelp_name, replace_all.
  rewrite !append_String in H |- *. cbn [replace_go]. by rewrite H.
Qed.

Lemma unhelp_other c s :
  String.prefix ".hlp" (String c s) = false -> unhelp_name (String c s) = String c (unhelp_name s).
Proof. intros H. unfold unhelp_name, replace_all. cbn [replace_go]. by rewrite H. Qed.

(** The renaming keeps every prefix without a dot: it only rewrites
    text that starts with one. *)
Lemma help_name_prefix p : contains "." p = false ->
  forall s, String.prefix p (help_name s) = String.prefix p s.
Proof.
  induction p as [|a p IH]; intros Hp s; [by rewrite !prefix_empty_l|].
  apply contains_false_prefix in Hp as [Ha Hp]. rewrite prefix_String in Ha.
  destruct s as [|c s]; [done|].
  destruct (String.prefix ".md" (String c s)) eqn:E.
  - destruct (string_prefix_app _ _ E) as [t Ht]. rewrite Ht, help_name_md.
    rewrite !append_String, !prefix_String.
    destruct (Ascii.ascii_dec a "."%char) as [->|]; [exfalso|done].
    revert Ha. destruct (Ascii.ascii_dec "."%char "."%char); [by rewrite prefix_empty_l|done].
  - rewrite help_name_other, !prefix_String by done.
    destruct (Ascii.ascii_dec a c); [by apply IH|done].
Qed.

(** The renaming leaves no [.md] behind: [.hlp] does not contain one
    and cannot complete one with the text around it. *)
Lemma help_name_no_md_left x : contains ".md" (help_name x) = false.
Proof.
  cut (forall n x, String.length x <= n -> contains ".md" (help_name x) = false); [eauto|].
  induction n as [|n IH]; intros [|c s] Hlen; cbn [String.length] in Hlen; try lia; [done|done|].
  destruct (String.prefix ".md" (String c s)) eqn:E.
  - destruct (string_prefix_app _ _ E) as [t Ht].
    assert (Hl : String.length t <= n)
      by (apply (f_equal String.length) in Ht; rewrite !append_String, append_empty_l in Ht; cbn in Ht; lia).
    rewrite Ht, help_name_md, !append_String, append_empty_l, !contains_String, IH by done.
    generalize (help_name t). intros u. reflexivity.
  - rewrite help_name_other, contains_String, IH, orb_false_r by (done || lia).
    rewrite prefix_String in E |- *. destruct (Ascii.ascii_dec "."%char c); [|done].
    by rewrite help_name_prefix by reflexivity.
Qed.

Lemma help_name_roundtrip_go x : contains ".hlp" x = false -> unhelp_name (help_name x) = x.
Proof.
  cut (forall n x, String.length x <= n -> contains ".hlp" x = false -> unhelp_name (help_name x) = x);
    [eauto|].
  induction n as [|n IH]; intros [|c s] Hlen Hc; cbn [String.length] in Hlen; try lia; [done|done|].
  destruct (String.prefix ".md" (String c s)) eqn:E.
  - destruct (string_prefix_app _ _ E) as [t Ht].
    assert (Hl : String.length t <= n)
      by (apply (f_equal String.length) in Ht; rewrite !append_String, append_empty_l in Ht; cbn in Ht; lia).
    rewrite Ht in Hc |- *. rewrite help_name_md, unhelp_hlp, IH; [done|done|by apply contains_app_r in Hc].
  - apply contains_false_prefix in Hc as [Hc1 Hc2].
    rewrite help_name_other by done.
    rewrite unhelp_other by (rewrite prefix_String in Hc1 |- *; by rewrite help_name_prefix by reflexivity).
    rewrite IH; [done|lia|done].
Qed.

(** C32. The help renaming of line 425 replaces every [.md]: no [.md]
    is left in [help_name x], and on every name that does not contain
    [.hlp], turning each [.hlp] of [help_name x] back into [.md] gives [x]
    again; so two such names never meet under the renaming, and a clash
    needs a source name with [.hlp] in it. *)
Theorem help_name_roundtrip x :
  contains ".hlp" x = false -> unhelp_name (help_name x) = x /\ contains ".md" (help_name x) = false.
Proof. intros H. split; [by apply help_name_roundtrip_go|apply help_name_no_md_left]. Qed.

Lemma help_name_roundtrip_witness :
  contains ".hlp" "a.md.md" = false /\
  unhelp_name (help_name "a.md.md") = "a.md.md" /\ contains ".md" (help_name "a.md.md") = false.
Proof. split; [reflexivity|]. apply help_name_roundtrip. reflexivity. Defined.

Close Scope string_scope.
