(* ===== verification/Selector.v ===== *)
(** * Selector: configuration, manifests and the content it selects

    The flags of makesm.go become the [Config] record, read once and
    passed to every operation (the Go globals [*srcFolder], [*db2Use],
    ...).  The manifests [mySMFILES], [myLANGFILES], [myIMAGES],
    [rblrIMAGES] are constant lists.  [copySMFiles], [copyImageSet] and
    [copyImages] copy the selected files; the theorems say which source
    each destination comes from, that application files are best-effort
    while images are mandatory, and which image sets a configuration
    selects. *)

From stdpp Require Import base list gmap strings sorting.
From Stdlib Require Import String Ascii.
From S2P Require Import Prelude FileSystem Copier.

Local Open Scope string_scope.

(** The command-line flags, after [flag.Parse]. *)
Record Config : Type := mkConfig {
  srcFolder : path;       (* -sm3 *)
  runsmFolder : path;     (* -runsm *)
  ebcfetchFolder : path;  (* -ebcfetch *)
  smpatchFolder : path;   (* -smpatch *)
  phpFolder : path;       (* -php *)
  targetFolder : path;    (* -target *)
  db2Use : string;        (* -db: v, r or l *)
  rblr : bool;            (* -rblr *)
  lang2use : string;      (* -lang *)
  overwriteok : bool;     (* -ok *)
  nodebug : bool          (* -nodebug *)
}.

Definition mySMFLAVOUR := "v3.4".
Definition utilsFolder := "utils".
Definition sqlite3 := "sqlite3".
Definition caddy := "caddy".
Definition phpcgi := "php-cgi".
Definition ebcfetch := "ebcfetch".
Definition smpatch := "smpatch".
Definition helpFolder := "help".

Definition mySMFILES : list string := [
  "about.php"; "admin.php"; "bonuses.php";
  "certedit.php"; "certificate.css"; "certificate.php"; "claims.php"; "claimslog.php";
  "claimsphp.js"; "cohorts.php"; "combos.php"; "common.php"; "ereviews.php";
  "entrants.php"; "exportxls.php"; "emails.php"; "fastodos.php"; "fastodosphp.js";
  "favicon.ico"; "importxls.php"; "index.php"; "legs.js"; "legs.php";
  "Parsedown.php"; "picklist.php"; "reports.php"; "readyset.php"; "reset.php";
  "LICENSE"; "reboot.css"; "recalc.js"; "recalc.php"; "restbonuses.php"; "scorex.php";
  "setup.php"; "score.css"; "score.js"; "score.php"; "scorecard.php"; "scoring.php"; "sm.php";
  "showhelp.php";
  "speeding.php"; "teams.php"; "utils.php"; "timep.php"; "cats.php";
  "classes.php"].

Definition myLANGFILES : list string := ["custom.js"; "customvars.php"].

Definition myIMAGES : list string := [
  "ibauk.png"; "ibauk90.png";
  "alertalert.png"; "alertbike.png"; "alertface.png"; "alertdaylight.png";
  "alertnight.png"; "alertreceipt.png"; "alertrestricted.png"; "alertteam.png"].

Definition rblrIMAGES : list string := [
  "ss1000.jpg"; "smallpoppy.png"; "rblr.png"; "poppy.png";
  "rblrhead.png"; "bb1500.jpg"; "bbg1500.png";
  "route500AC.jpg"; "route500CW.jpg"].

Section Selector.
Context (cfg : Config).

(** [smFolder = filepath.Join( *targetFolder, "sm")], assigned in
    [main] before any use. *)
Definition smFolder : path := targetFolder cfg ++ ["sm"].

(** The language token of [copySMFiles]: ["."] for English,
    ["-<code>."] otherwise. *)
Definition lang_token : string :=
  if String.eqb (lang2use cfg) "en" then "." else "-" ++ lang2use cfg ++ ".".

(** [strings.Replace(s, ".", lng, 1)]: the source name of a
    language file. *)
Definition lang_source (s : string) : string := replace_first "." lang_token s.

(** [copySMFiles]: every application file and every language file;
    a failure is logged and the loop goes on. *)
Definition copySMFiles : M world unit :=
  emit (ELog "Copying main SM application") ;;
  forM_ mySMFILES (fun s =>
    r <- copyFile (srcFolder cfg ++ [s]) (smFolder ++ [s]) ;;
    match r.2 with
    | Some _ => emit (ELog ("*** can't copy " ++ s))
    | None => m_ret tt
    end) ;;
  forM_ myLANGFILES (fun s =>
    r <- copyFile (srcFolder cfg ++ [lang_source s]) (smFolder ++ [s]) ;;
    match r.2 with
    | Some _ => emit (ELog ("*** can't copy " ++ s ++ lang_token))
    | None => m_ret tt
    end).

(** [copyImageSet]: any failure is fatal. *)
Definition copyImageSet (set : list string) : M world unit :=
  forM_ set (fun img =>
    r <- copyFile (srcFolder cfg ++ ["images"; img]) (smFolder ++ ["images"; img]) ;;
    match r.2 with
    | Some _ => m_fatal ("*** can't copy image " ++ img)
    | None => m_ret tt
    end).

(** [copyImages]: the RBLR set when [-rblr] or [-db r]. *)
Definition copyImages : M world unit :=
  emit (ELog "Copying images") ;;
  copyImageSet myIMAGES ;;
  if rblr cfg || String.eqb (db2Use cfg) "r" then copyImageSet rblrIMAGES
  else m_ret tt.
End Selector.

Local Close Scope string_scope.

(* ------------------------------------------------------------------ *)
(** ** Language files *)

(** C17. The language files read the neutral source for English and the
    [-<code>] source otherwise: [custom.js] comes from [custom-de.js]
    for [-lang de]. *)
Theorem lang_files_sources cfg :
  map (lang_source cfg) myLANGFILES =
    if String.eqb (lang2use cfg) "en" then myLANGFILES
    else ["custom-" ++ lang2use cfg ++ ".js"; "customvars-" ++ lang2use cfg ++ ".php"]%string.
Proof.
  unfold lang_source, lang_token. destruct (String.eqb _ "en").
  - cbn [map myLANGFILES]. by rewrite !replace_first_same.
  - cbn [map myLANGFILES].
    change "custom.js" with ("custom" ++ String "."%char "js")%string.
    change "customvars.php" with ("customvars" ++ String "."%char "php")%string.
    rewrite !replace_first_char by reflexivity.
    rewrite !string_app_assoc. reflexivity.
Qed.

(* ------------------------------------------------------------------ *)
(** ** Application files: best effort *)

Section SMFiles.
Context (cfg : Config).
Let src := srcFolder cfg.
Let sm := smFolder cfg.

Lemma copySMFiles_unfold :
  copySMFiles cfg =
  (emit (ELog "Copying main SM application") ;;
   forM_ mySMFILES (copy_body (fun s => src ++ [s]) sm (fun s => s)
                              (fun s => emit (ELog ("*** can't copy " ++ s)%string))) ;;
   forM_ myLANGFILES (copy_body (fun s => src ++ [lang_source cfg s]) sm (fun s => s)
                                (fun s => emit (ELog ("*** can't copy " ++ s ++ lang_token cfg)%string)))).
Proof. reflexivity. Qed.

Lemma emit_keeps_fs e w : exists ev, emit e w = Ok tt (mkWorld (w_fs w) ev).
Proof. eexists. reflexivity. Qed.

(** C16. [copySMFiles] never stops the run: whatever the source tree
    holds, it returns (each failed copy is only logged). *)
Theorem copySMFiles_never_fatal w : exists w', copySMFiles cfg w = Ok tt w'.
Proof.
  assert (Ht : total (copySMFiles cfg)) by (rewrite copySMFiles_unfold; eauto 10 with makesm).
  destruct (Ht w) as ([] & w' & ?). eauto.
Qed.

Lemma manifests_disjoint : forall s, s ∈ myLANGFILES -> s ∉ mySMFILES.
Proof.
  apply Forall_forall.
  decide_vm.
Qed.

(** C15. With the application folder a fresh directory apart from the
    source tree, [copySMFiles] leaves in it a copy of every application
    file that exists as a regular file in the source, and for each
    language file a copy of its language-specific source; a missing
    source leaves no file. *)
Theorem copySMFiles_copies w md :
  fs_wf (w_fs w) -> w_fs w !! sm = Some (NDir md) ->
  (forall x rel, w_fs w !! (sm ++ x :: rel) = None) -> apart src sm ->
  exists w', copySMFiles cfg w = Ok tt w' /\
    (forall s, s ∈ mySMFILES -> w_fs w' !! (sm ++ [s]) = file_copy (w_fs w !! (src ++ [s]))) /\
    (forall s, s ∈ myLANGFILES ->
       w_fs w' !! (sm ++ [s]) = file_copy (w_fs w !! (src ++ [lang_source cfg s]))).
Proof.
  intros Hwf Hsm Hfr Hap. rewrite copySMFiles_unfold.
  set (w1 := mkWorld (w_fs w) (w_events w ++ [ELog "Copying main SM application"])).
  rewrite (m_bind_ok _ _ w tt w1) by reflexivity. cbv beta.
  destruct (copy_each_ok (fun s => src ++ [s]) sm (fun s => s)
              (fun s => emit (ELog ("*** can't copy " ++ s)%string)) w1 md mySMFILES)
    as (w2 & Hrun2 & Hinv2); try done.
  { rewrite list_fmap_id. decide_vm. }
  { intros a b _ _. by apply apart_under. }
  { intros a _ _ w0. apply emit_keeps_fs. }
  destruct (copy_each_ok (fun s => src ++ [lang_source cfg s]) sm (fun s => s)
              (fun s => emit (ELog ("*** can't copy " ++ s ++ lang_token cfg)%string)) w2 md myLANGFILES)
    as (w3 & Hrun3 & Hinv3).
  { apply Hinv2. }
  { rewrite (ei_frame _ _ _ _ _ _ _ Hinv2); [done|]. intros a _ Heq. by apply (snoc_neq sm (a)). }
  { rewrite list_fmap_id. decide_vm. }
  { intros a b _ _. by apply apart_under. }
  { intros a Ha. rewrite (ei_frame _ _ _ _ _ _ _ Hinv2); [by apply Hfr|].
    intros b Hb Heq. apply app_inv_head in Heq. injection Heq as <-. by apply (manifests_disjoint a Ha). }
  { intros a _ _ w0. apply emit_keeps_fs. }
  rewrite (m_bind_ok _ _ _ _ _ Hrun2). eexists; split; [exact Hrun3|split].
  - intros s Hs. rewrite (ei_frame _ _ _ _ _ _ _ Hinv3).
    + by apply (ei_done _ _ _ _ _ _ _ Hinv2).
    + intros b Hb Heq. apply app_inv_head in Heq. injection Heq as ->. by apply (manifests_disjoint b Hb).
  - intros s Hs. rewrite (ei_done _ _ _ _ _ _ _ Hinv3) by done.
    rewrite (ei_frame _ _ _ _ _ _ _ Hinv2); [done|]. intros b _. by apply apart_under.
Qed.
End SMFiles.

(* ------------------------------------------------------------------ *)
(** ** Images: mandatory *)

Section Images.
Context (cfg : Config).
Let src := srcFolder cfg.
Let img_dir := smFolder cfg ++ ["images"].

Definition image_body : string -> M world unit :=
  copy_body (fun img => src ++ ["images"; img]) img_dir (fun img => img)
            (fun img => m_fatal ("*** can't copy image " ++ img)%string).

Lemma copyImageSet_unfold set w : copyImageSet cfg set w = forM_ set image_body w.
Proof.
  apply forM_ext. intros img s. unfold image_body, copy_body, img_dir.
  by rewrite <-app_assoc.
Qed.

Context (w : world) (md : N).
Hypothesis Hwf : fs_wf (w_fs w).
Hypothesis Hdir : w_fs w !! img_dir = Some (NDir md).
Hypothesis Hap : apart src (smFolder cfg).

Lemma image_apart (set : list string) : forall a b, a ∈ set -> b ∈ set -> src ++ ["images"; a] <> img_dir ++ [b].
Proof. intros a b _ _. unfold img_dir. rewrite <-app_assoc. by apply apart_under. Qed.

(** When every image of the set is a regular file of the source
    tree, [copyImageSet] returns and the images folder holds a copy of
    each, and nothing else changes. *)
Lemma copyImageSet_copies (set : list string) :
  NoDup set -> (forall img, img ∈ set -> w_fs w !! (img_dir ++ [img]) = None) ->
  (forall img, img ∈ set -> exists m d, w_fs w !! (src ++ ["images"; img]) = Some (NFile m d)) ->
  exists w', copyImageSet cfg set w = Ok tt w' /\ fs_wf (w_fs w') /\
    (forall img, img ∈ set -> w_fs w' !! (img_dir ++ [img]) = file_copy (w_fs w !! (src ++ ["images"; img]))) /\
    (forall k, (forall img, img ∈ set -> k <> img_dir ++ [img]) -> w_fs w' !! k = w_fs w !! k).
Proof.
  intros Hnd Hfresh Hall. rewrite copyImageSet_unfold.
  destruct (copy_each_ok (fun img => src ++ ["images"; img]) img_dir (fun img => img)
              (fun img => m_fatal ("*** can't copy image " ++ img)%string) w md set)
    as (w' & Hrun & Hinv).
  { done. }
  { done. }
  { by rewrite list_fmap_id. }
  { apply image_apart. }
  { done. }
  { intros a Ha Hn. exfalso. destruct (Hall a Ha) as (m & d & Hs). by rewrite Hs in Hn. }
  exists w'. split; [done|]. split; [apply Hinv|]. split; [apply Hinv|apply Hinv].
Qed.

(** C14. An image that is missing, or is not a regular file, stops the
    whole run: [copyImageSet] ends in [log.Fatal]. *)
Theorem copyImageSet_fatal (set : list string) :
  NoDup set -> (forall img, img ∈ set -> w_fs w !! (img_dir ++ [img]) = None) ->
  (exists img, img ∈ set /\ file_copy (w_fs w !! (src ++ ["images"; img])) = None) ->
  exists msg w', copyImageSet cfg set w = Fatal msg w'.
Proof.
  intros Hnd Hfresh Hmiss. rewrite copyImageSet_unfold.
  destruct (list_split_first (fun img => file_copy (w_fs w !! (src ++ ["images"; img])) = None) set Hmiss)
    as (pre & a & post & Hl & Ha & Hpre).
  assert (Hnd' : NoDup ((fun img : string => img) <$> set)) by by rewrite list_fmap_id.
  destruct (copy_each_fatal (fun img => src ++ ["images"; img]) img_dir (fun img => img)
              (fun img => m_fatal ("*** can't copy image " ++ img)%string) w md set
              Hwf Hdir Hnd' (image_apart set) Hfresh pre a post
              ("*** can't copy image " ++ a)%string Hl Hpre Ha (fun _ => eq_refl))
    as [w' Hw'].
  eauto.
Qed.
End Images.

Lemma image_sets_disjoint : forall img, img ∈ rblrIMAGES -> img ∉ myIMAGES.
Proof.
  apply Forall_forall.
  decide_vm.
Qed.

(** C7. Image selection: with every image present in the source and a
    fresh images folder, [copyImages] returns and afterwards the images
    folder holds exactly the base set, plus the RBLR set precisely when
    [-rblr] is given or the database variant is [r]. *)
Theorem copyImages_selection cfg w md :
  fs_wf (w_fs w) -> w_fs w !! (smFolder cfg ++ ["images"]) = Some (NDir md) ->
  (forall x rel, w_fs w !! ((smFolder cfg ++ ["images"]) ++ x :: rel) = None) ->
  apart (srcFolder cfg) (smFolder cfg) ->
  (forall img, img ∈ myIMAGES ++ rblrIMAGES ->
     exists m d, w_fs w !! (srcFolder cfg ++ ["images"; img]) = Some (NFile m d)) ->
  exists w', copyImages cfg w = Ok tt w' /\
    forall img, is_Some (w_fs w' !! ((smFolder cfg ++ ["images"]) ++ [img])) <->
      img ∈ myIMAGES \/ ((rblr cfg || String.eqb (db2Use cfg) "r") = true /\ img ∈ rblrIMAGES).
Proof.
  intros Hwf Hdir Hfr Hap Hsrc. unfold copyImages.
  set (w1 := mkWorld (w_fs w) (w_events w ++ [ELog "Copying images"])).
  rewrite (m_bind_ok _ _ w tt w1) by reflexivity. cbv beta.
  destruct (copyImageSet_copies cfg w1 md Hwf Hdir Hap myIMAGES) as (w2 & Hrun2 & Hwf2 & Hc2 & Hk2).
  { decide_vm. }
  { intros img _. apply Hfr. }
  { intros img Hi. apply Hsrc, elem_of_app. by left. }
  rewrite (m_bind_ok _ _ _ _ _ Hrun2).
  assert (Hsome : forall img, img ∈ myIMAGES ++ rblrIMAGES ->
            is_Some (file_copy (w_fs w !! (srcFolder cfg ++ ["images"; img])))).
  { intros img Hi. destruct (Hsrc img Hi) as (m & d & ->). by eexists. }
  destruct (rblr cfg || String.eqb (db2Use cfg) "r") eqn:Hflag.
  - assert (Hdir2 : w_fs w2 !! (smFolder cfg ++ ["images"]) = Some (NDir md)).
    { rewrite Hk2; [done|]. intros img _ Heq. symmetry in Heq. by apply snoc_neq in Heq. }
    destruct (copyImageSet_copies cfg w2 md Hwf2 Hdir2 Hap rblrIMAGES) as (w3 & Hrun3 & _ & Hc3 & Hk3).
    { decide_vm. }
    { intros img Hi. rewrite Hk2; [apply Hfr|].
      intros b Hb Heq%app_inv_head. injection Heq as ->. by apply (image_sets_disjoint b). }
    { intros img Hi. rewrite Hk2; [apply Hsrc, elem_of_app; by right|].
      intros b Hb. rewrite <-app_assoc. by apply apart_under. }
    exists w3. split; [exact Hrun3|]. intros img.
    destruct (decide (img ∈ rblrIMAGES)) as [Hr|Hr].
    + rewrite Hc3, Hk2 by (done || (intros b _; rewrite <-app_assoc; by apply apart_under)).
      split; [intros _; by right|intros _; apply Hsome, elem_of_app; by right].
    + rewrite Hk3 by (intros b Hb Heq%app_inv_head; injection Heq as ->; done).
      destruct (decide (img ∈ myIMAGES)) as [Hm|Hm].
      * rewrite Hc2 by done. split; [intros _; by left|intros _; apply Hsome, elem_of_app; by left].
      * rewrite Hk2, Hfr by (intros b Hb Heq%app_inv_head; injection Heq as ->; done).
        split; [by intros []|naive_solver].
  - exists w2. split; [reflexivity|]. intros img.
    destruct (decide (img ∈ myIMAGES)) as [Hm|Hm].
    + rewrite Hc2 by done. split; [intros _; by left|intros _; apply Hsome, elem_of_app; by left].
    + rewrite Hk2, Hfr by (intros b Hb Heq%app_inv_head; injection Heq as ->; done).
      split; [by intros []|naive_solver].
Qed.

(* ------------------------------------------------------------------ *)
(** ** Examples *)

Definition ex_cfg : Config :=
  mkConfig ["sm3"] ["runsm"] ["ebcfetch"] ["smpatch"] ["PHP"] ["inst"] "v" false "en" false false.

(** A source tree with one application file and a fresh application
    folder. *)
Definition ex_sm_fs : FS :=
  list_to_map [([], NDir 493); (["sm3"], NDir 493); (["sm3"; "about.php"], NFile 420 "<?php");
               (["inst"], NDir 511); (["inst"; "sm"], NDir 511)].

(** Every image in the source and a fresh images folder. *)
Definition ex_img_fs : FS :=
  list_to_map ([([], NDir 493); (["sm3"], NDir 493); (["sm3"; "images"], NDir 493);
                (["inst"], NDir 511); (["inst"; "sm"], NDir 511); (["inst"; "sm"; "images"], NDir 511)] ++
               map (fun i => (["sm3"; "images"; i], NFile 420 i)) (myIMAGES ++ rblrIMAGES)).

Lemma copySMFiles_copies_witness :
  exists w', copySMFiles ex_cfg (mkWorld ex_sm_fs []) = Ok tt w' /\
    (forall s, s ∈ mySMFILES -> w_fs w' !! (["inst"; "sm"] ++ [s]) = file_copy (ex_sm_fs !! (["sm3"] ++ [s]))) /\
    (forall s, s ∈ myLANGFILES ->
       w_fs w' !! (["inst"; "sm"] ++ [s]) = file_copy (ex_sm_fs !! (["sm3"] ++ [lang_source ex_cfg s]))).
Proof.
  apply (copySMFiles_copies ex_cfg (mkWorld ex_sm_fs []) 511).
  - apply fs_wfb_sound. vm_compute. reflexivity.
  - vm_compute. reflexivity.
  - apply nothing_below_sound. vm_compute. reflexivity.
  - decide_vm.
Defined.


Lemma copyImageSet_fatal_witness :
  exists msg w', copyImageSet ex_cfg ["nothere.png"] (mkWorld ex_img_fs []) = Fatal msg w'.
Proof.
  apply (copyImageSet_fatal ex_cfg (mkWorld ex_img_fs []) 511).
  - apply fs_wfb_sound. vm_compute. reflexivity.
  - vm_compute. reflexivity.
  - decide_vm.
  - decide_vm.
  - apply Forall_forall. decide_vm.
  - exists "nothere.png". split; [by left|vm_compute; reflexivity].
Defined.

Lemma copyImages_selection_witness :
  exists w', copyImages ex_cfg (mkWorld ex_img_fs []) = Ok tt w' /\
    forall img, is_Some (w_fs w' !! ((smFolder ex_cfg ++ ["images"]) ++ [img])) <->
      img ∈ myIMAGES \/ ((rblr ex_cfg || String.eqb (db2Use ex_cfg) "r") = true /\ img ∈ rblrIMAGES).
Proof.
  apply (copyImages_selection ex_cfg (mkWorld ex_img_fs []) 511).
  - apply fs_wfb_sound. vm_compute. reflexivity.
  - vm_compute. reflexivity.
  - apply nothing_below_sound. vm_compute. reflexivity.
  - decide_vm.
  - intros img Hin. exists 420%N, img. revert img Hin. apply Forall_forall. decide_vm.
Defined.
