(* ===== verification/Database.v ===== *)
(** * Database: [loadSQL] and [copyDatabase]

    The external [sqlite3] command is an interface ([SqlEngine]): given
    the SQL text on its standard input and the current bytes of the
    database file (if any), it exits 0 with the new bytes, or fails.
    [loadSQL] reads the script (a read error gives an empty script, as
    the Go code ignores it), records the invocation, runs the engine if
    the executable exists, and writes the database file.  [copyDatabase]
    loads [ScoreMaster.sql], then the reasons script for a foreign
    language, then [rblrcerts.sql] for RBLR, each failure fatal; for the
    [l] variant it copies [ScoreMaster.db] instead.  The theorems: the
    order of the scripts, the live variant runs no SQL and copies the
    database byte for byte, and the error branches. *)

From stdpp Require Import base list gmap strings sorting.
From Stdlib Require Import String.
From S2P Require Import Prelude FileSystem Copier Selector.

(** What [exec.Command(sqlite3, db)] with the script on stdin does. *)
Class SqlEngine := {
  sqlite_exec : string -> option string -> option string
}.

Definition file_contents (fs : FS) (p : path) : option string :=
  match fs !! p with Some (NFile _ d) => Some d | _ => None end.

Section Database.
Context `{!SqlEngine} (goos : GOOS) (cfg : Config).

Definition sqlite_exe : path := srcFolder cfg ++ [utilsFolder; sqlite3].
Definition db_file : path := smFolder cfg ++ ["ScoreMaster.db"].

(** [exec.Command] finds the program as a regular file; on Windows
    also with the [.exe] suffix. *)
Definition exe_found (fs : FS) (exe : path) : bool :=
  match fs !! exe with
  | Some (NFile _ _) => true
  | _ =>
      if decide (goos = windows) then
        match fs !! add_suffix exe ".exe" with Some (NFile _ _) => true | _ => false end
      else false
  end.

(** [loadSQL]: [true] iff the command exited with status 0. *)
Definition loadSQL (sqlfile : string) : M world bool :=
  sql <- os_read_or_empty (srcFolder cfg ++ [sqlfile]) ;;
  emit (ERun sqlite_exe [db_file] sql) ;;
  w <- m_get ;;
  if exe_found (w_fs w) sqlite_exe then
    match sqlite_exec sql (file_contents (w_fs w) db_file) with
    | Some out =>
        err <- os_create db_file ;;
        match err with
        | Some _ => m_ret false
        | None => os_append db_file out ;; m_ret true
        end
    | None => m_ret false
    end
  else m_ret false.

Definition copyDatabase : M world unit :=
  emit (ELog "Establishing database") ;;
  if negb (String.eqb (db2Use cfg) "l") then
    (ok <- loadSQL "ScoreMaster.sql" ;;
     if ok then m_ret tt else m_fatal "*** can't load ScoreMaster.sql") ;;
    (if negb (String.eqb (lang2use cfg) "en") then
       ok <- loadSQL ("Reasons-" ++ lang2use cfg ++ ".sql") ;;
       if ok then m_ret tt else m_fatal "*** can't load foreign reasons"
     else m_ret tt) ;;
    (if rblr cfg || String.eqb (db2Use cfg) "r" then
       emit (ELog "Loading RBLR certificates") ;;
       ok <- loadSQL "rblrcerts.sql" ;;
       if ok then m_ret tt else m_fatal "*** can't load rblrcerts.sql"
     else m_ret tt)
  else
    _ <- copyFile (srcFolder cfg ++ ["ScoreMaster.db"]) db_file ;;
    m_ret tt.
End Database.

(** The SQL texts sent to the interpreter, in order. *)
Definition sql_runs (evs : list event) : list string :=
  omap (fun e => match e with ERun _ _ sql => Some sql | _ => None end) evs.

Lemma sql_runs_app evs1 evs2 : sql_runs (evs1 ++ evs2) = sql_runs evs1 ++ sql_runs evs2.
Proof. apply omap_app. Qed.

Lemma sql_runs_log m : sql_runs [ELog m] = [].
Proof. reflexivity. Qed.

Lemma sql_runs_run e a s : sql_runs [ERun e a s] = [s].
Proof. reflexivity. Qed.

Create Rewrite HintDb runs_rw.
#[export] Hint Rewrite sql_runs_app sql_runs_log sql_runs_run map_app app_nil_r : runs_rw.

(** The scripts [copyDatabase] loads, in order: the specification. *)
Definition sql_scripts (cfg : Config) : list string :=
  ["ScoreMaster.sql"] ++
  (if String.eqb (lang2use cfg) "en" then [] else [("Reasons-" ++ lang2use cfg ++ ".sql")%string]) ++
  (if rblr cfg || String.eqb (db2Use cfg) "r" then ["rblrcerts.sql"] else []).

Section DatabaseSpecs.
Context `{!SqlEngine} (goos : GOOS) (cfg : Config).
Let src := srcFolder cfg.
Let exe := sqlite_exe cfg.
Let db := db_file cfg.
Hypothesis Hap : apart src (smFolder cfg).

Lemma db_not_exe : db <> exe /\ db <> add_suffix exe ".exe".
Proof.
  unfold db, exe, db_file, sqlite_exe. rewrite add_suffix_app by done.
  split; intros Heq; symmetry in Heq; by apply (apart_under src (smFolder cfg)) in Heq.
Qed.

Lemma exe_found_insert (fs : FS) n :
  exe_found goos (<[db := n]> fs) exe = exe_found goos fs exe.
Proof.
  destruct db_not_exe as [H1 H2]. unfold exe_found.
  rewrite !lookup_insert_ne by done. done.
Qed.

Lemma read_kept (w w' : world) f :
  (forall k, k <> db -> w_fs w' !! k = w_fs w !! k) ->
  fs_read_or_empty (src ++ [f]) (w_fs w') = fs_read_or_empty (src ++ [f]) (w_fs w).
Proof.
  intros Hk. unfold fs_read_or_empty. rewrite Hk; [done|].
  intros Heq. by apply (apart_under src (smFolder cfg) [f] ["ScoreMaster.db"]).
Qed.

Lemma src_not_db f : src ++ [f] <> db.
Proof. intros Heq. by apply (apart_under src (smFolder cfg) [f] ["ScoreMaster.db"]). Qed.

(** What a load needs: the interpreter, the application folder, and a
    database path that is not a directory. *)
Record db_inv (w : world) : Prop := {
  di_exe : exe_found goos (w_fs w) exe = true;
  di_sm : exists m, w_fs w !! smFolder cfg = Some (NDir m);
  di_db : forall md, w_fs w !! db <> Some (NDir md)
}.

Lemma loadSQL_unfold f w :
  loadSQL goos cfg f w =
  let sql := fs_read_or_empty (src ++ [f]) (w_fs w) in
  let w1 := mkWorld (w_fs w) (w_events w ++ [ERun exe [db] sql]) in
  if exe_found goos (w_fs w) exe then
    match sqlite_exec sql (file_contents (w_fs w) db) with
    | Some out =>
        match fs_create db (w_fs w) with
        | inl _ => Ok false w1
        | inr fs1 => Ok true (mkWorld (fs_append db out fs1) (w_events w1))
        end
    | None => Ok false w1
    end
  else Ok false w1.
Proof.
  unfold loadSQL. unfold_os. unfold m_get, m_bind, m_ret. cbn.
  destruct (exe_found _ _ _); [|done].
  destruct (sqlite_exec _ _); [|done]. by destruct (fs_create _ _).
Qed.

(** One successful load: the invocation is recorded, the database file
    holds the interpreter's output, nothing else changes. *)
Lemma loadSQL_step f w out :
  db_inv w -> src ++ [f] <> db ->
  sqlite_exec (fs_read_or_empty (src ++ [f]) (w_fs w)) (file_contents (w_fs w) db) = Some out ->
  exists w', loadSQL goos cfg f w = Ok true w' /\ db_inv w' /\
    w_events w' = w_events w ++ [ERun exe [db] (fs_read_or_empty (src ++ [f]) (w_fs w))] /\
    w_fs w' = <[db := NFile (created_mode (w_fs w) db) out]> (w_fs w).
Proof.
  intros Hinv Hne Hout. rewrite loadSQL_unfold. cbv zeta.
  rewrite (di_exe _ Hinv), Hout.
  destruct (di_sm _ Hinv) as [m Hm].
  rewrite fs_create_ok; [|apply Hinv|right; by exists (smFolder cfg), "ScoreMaster.db", m].
  eexists; split; [done|]. cbn. unfold fs_append. rewrite lookup_insert_eq, insert_insert_eq.
  split_and!; [|done|done]. split; cbn.
  - rewrite exe_found_insert. apply Hinv.
  - exists m. rewrite lookup_insert_ne; [done|]. apply snoc_neq.
  - intros md. by rewrite lookup_insert_eq.
Qed.
(** C18. The live variant runs no SQL: [copyDatabase] only logs and
    copies [ScoreMaster.db] byte for byte into the application folder. *)
Theorem copyDatabase_live_copies w m d md :
  db2Use cfg = "l" -> w_fs w !! (src ++ ["ScoreMaster.db"]) = Some (NFile m d) ->
  w_fs w !! smFolder cfg = Some (NDir md) -> w_fs w !! db = None ->
  copyDatabase goos cfg w =
    Ok tt (mkWorld (<[db := NFile mode_create d]> (w_fs w))
                   (w_events w ++ [ELog "Establishing database"])).
Proof.
  intros Hl Hsrc Hsm Hdb. unfold copyDatabase. rewrite Hl, String.eqb_refl. cbn [negb].
  set (w1 := mkWorld (w_fs w) (w_events w ++ [ELog "Establishing database"])).
  rewrite (m_bind_ok _ _ w tt w1) by reflexivity. cbv beta.
  assert (Hpar : parent_dir (w_fs w1) db) by (by exists (smFolder cfg), "ScoreMaster.db", md).
  rewrite (m_bind_ok _ _ _ _ _ (copyFile_fresh (src ++ ["ScoreMaster.db"]) db w1 m d Hsrc
                                  (src_not_db _) Hdb Hpar)).
  reflexivity.
Qed.

(** C19. A missing live database is not fatal: [copyDatabase] returns
    and the installation has no database file. *)
Theorem copyDatabase_live_missing w :
  db2Use cfg = "l" -> w_fs w !! (src ++ ["ScoreMaster.db"]) = None ->
  copyDatabase goos cfg w = Ok tt (mkWorld (w_fs w) (w_events w ++ [ELog "Establishing database"])).
Proof.
  intros Hl Hsrc. unfold copyDatabase. rewrite Hl, String.eqb_refl. cbn [negb].
  set (w1 := mkWorld (w_fs w) (w_events w ++ [ELog "Establishing database"])).
  rewrite (m_bind_ok _ _ w tt w1) by reflexivity. cbv beta.
  rewrite (m_bind_ok _ _ _ _ _ (copyFile_missing _ db w1 Hsrc)). reflexivity.
Qed.

(** C20. A base script the interpreter rejects, or a missing
    interpreter, ends the run in [log.Fatal]. *)
Theorem copyDatabase_base_fatal w :
  db2Use cfg <> "l" ->
  (exe_found goos (w_fs w) exe = false \/
   sqlite_exec (fs_read_or_empty (src ++ ["ScoreMaster.sql"]) (w_fs w)) (file_contents (w_fs w) db) = None) ->
  exists w', copyDatabase goos cfg w = Fatal "*** can't load ScoreMaster.sql" w'.
Proof.
  intros Hl Hfail. unfold copyDatabase.
  rewrite (proj2 (String.eqb_neq _ _) Hl). cbn [negb].
  set (w1 := mkWorld (w_fs w) (w_events w ++ [ELog "Establishing database"])).
  rewrite (m_bind_ok _ _ w tt w1) by reflexivity. cbv beta.
  rewrite m_bind_assoc, (m_bind_ok _ _ w1 false (mkWorld (w_fs w1) (w_events w1 ++
    [ERun exe [db] (fs_read_or_empty (src ++ ["ScoreMaster.sql"]) (w_fs w1))]))).
  - by eexists.
  - rewrite loadSQL_unfold. cbv zeta. unfold w1. cbn [w_fs w_events].
    destruct Hfail as [-> | Hrej]; [done|]. rewrite Hrej.
    by destruct (exe_found _ _ _).
Qed.

Hypothesis Hacc : forall sql d, is_Some (sqlite_exec sql d).

(** A load whose failure is fatal, when the interpreter accepts it. *)
Lemma checked_load f msg w :
  db_inv w -> src ++ [f] <> db ->
  exists w', (ok <- loadSQL goos cfg f ;; if ok then m_ret tt else m_fatal msg) w = Ok tt w' /\
    db_inv w' /\
    w_events w' = w_events w ++ [ERun exe [db] (fs_read_or_empty (src ++ [f]) (w_fs w))] /\
    (forall k, k <> db -> w_fs w' !! k = w_fs w !! k).
Proof.
  intros Hinv Hne. destruct (Hacc (fs_read_or_empty (src ++ [f]) (w_fs w)) (file_contents (w_fs w) db)) as [out Hout].
  destruct (loadSQL_step f w out Hinv Hne Hout) as (w' & Hrun & Hinv' & Hev & Hfs).
  exists w'. rewrite (m_bind_ok _ _ _ _ _ Hrun). split_and!; try done.
  intros k Hk. rewrite Hfs. by rewrite lookup_insert_ne by congruence.
Qed.

(** C6. Script order: when the interpreter accepts every script and
    the database variant is not [l], [copyDatabase] returns, and the
    SQL texts it sends to [sqlite3] are, in this order, the base script,
    the reasons script of a non-English language, and the RBLR
    certificates when [-rblr] or [-db r] (a missing script is sent as
    an empty text: its read error is ignored). *)
Theorem copyDatabase_script_order w :
  db_inv w -> db2Use cfg <> "l" ->
  exists w', copyDatabase goos cfg w = Ok tt w' /\
    sql_runs (w_events w') =
      sql_runs (w_events w) ++ map (fun f => fs_read_or_empty (src ++ [f]) (w_fs w)) (sql_scripts cfg).
Proof.
  intros Hinv Hl. unfold copyDatabase, sql_scripts.
  rewrite (proj2 (String.eqb_neq _ _) Hl). cbn [negb].
  set (w1 := mkWorld (w_fs w) (w_events w ++ [ELog "Establishing database"])).
  rewrite (m_bind_ok _ _ w tt w1) by reflexivity. cbv beta.
  assert (Hinv1 : db_inv w1) by (destruct Hinv; by split).
  destruct (checked_load "ScoreMaster.sql" "*** can't load ScoreMaster.sql" w1 Hinv1 (src_not_db _))
    as (w2 & H2 & Hinv2 & Hev2 & Hfr2).
  rewrite (m_bind_ok _ _ _ _ _ H2). cbv beta.
  assert (Hpart2 : exists w3,
    (if negb (String.eqb (lang2use cfg) "en") then
       ok <- loadSQL goos cfg ("Reasons-" ++ lang2use cfg ++ ".sql") ;;
       if ok then m_ret tt else m_fatal "*** can't load foreign reasons"
     else m_ret tt) w2 = Ok tt w3 /\ db_inv w3 /\
    sql_runs (w_events w3) = sql_runs (w_events w2) ++
      map (fun f => fs_read_or_empty (src ++ [f]) (w_fs w))
          (if String.eqb (lang2use cfg) "en" then [] else [("Reasons-" ++ lang2use cfg ++ ".sql")%string]) /\
    (forall k, k <> db -> w_fs w3 !! k = w_fs w2 !! k)).
  { destruct (String.eqb (lang2use cfg) "en"); cbn [negb].
    - exists w2. split_and!; [done|done|by rewrite app_nil_r|done].
    - destruct (checked_load ("Reasons-" ++ lang2use cfg ++ ".sql") "*** can't load foreign reasons" w2 Hinv2 (src_not_db _))
        as (w3 & H3 & Hinv3 & Hev3 & Hfr3).
      exists w3. split_and!; [done|done| |done].
      rewrite Hev3, sql_runs_app. cbn. do 2 f_equal.
      by rewrite (read_kept w1 w2) by done. }
  destruct Hpart2 as (w3 & H3 & Hinv3 & Hev3 & Hfr3).
  rewrite (m_bind_ok _ _ _ _ _ H3). cbv beta.
  destruct (rblr cfg || String.eqb (db2Use cfg) "r").
  - set (w4 := mkWorld (w_fs w3) (w_events w3 ++ [ELog "Loading RBLR certificates"])).
    rewrite (m_bind_ok _ _ w3 tt w4) by reflexivity. cbv beta.
    assert (Hinv4 : db_inv w4) by (destruct Hinv3; by split).
    destruct (checked_load "rblrcerts.sql" "*** can't load rblrcerts.sql" w4 Hinv4 (src_not_db _))
      as (w5 & H5 & _ & Hev5 & _).
    exists w5. split; [done|].
    rewrite Hev5. change (w_events w4) with (w_events w3 ++ [ELog "Loading RBLR certificates"]).
    rewrite (read_kept w1 w4) by (intros k Hk; cbn; by rewrite Hfr3, Hfr2).
    autorewrite with runs_rw. rewrite Hev3, Hev2.
    change (w_events w1) with (w_events w ++ [ELog "Establishing database"]).
    autorewrite with runs_rw. by rewrite <-!app_assoc.
  - exists w3. split; [done|].
    rewrite Hev3, Hev2. change (w_events w1) with (w_events w ++ [ELog "Establishing database"]).
    autorewrite with runs_rw. by rewrite <-!app_assoc.
Qed.
End DatabaseSpecs.

(* ------------------------------------------------------------------ *)
(** ** Examples *)

(** An interpreter that appends each script to the database text. *)
Definition ex_engine : SqlEngine := {| sqlite_exec sql d := Some (default EmptyString d ++ sql)%string |}.
#[local] Existing Instance ex_engine.

Definition ex_db_fs : FS :=
  list_to_map [([], NDir 493); (["sm3"], NDir 493); (["sm3"; "ScoreMaster.sql"], NFile 420 "CREATE;");
               (["sm3"; "ScoreMaster.db"], NFile 420 "DB");
               (["sm3"; "utils"], NDir 493); (["sm3"; "utils"; "sqlite3"], NFile 493 "ELF");
               (["inst"], NDir 511); (["inst"; "sm"], NDir 511)].

Definition ex_live_cfg : Config :=
  mkConfig ["sm3"] ["runsm"] ["ebcfetch"] ["smpatch"] ["PHP"] ["inst"] "l" false "en" false false.

(** The same tree without the interpreter. *)
Definition ex_noexe_fs : FS := delete ["sm3"; "utils"; "sqlite3"] ex_db_fs.

Lemma copyDatabase_script_order_witness :
  exists w', copyDatabase linux ex_cfg (mkWorld ex_db_fs []) = Ok tt w' /\
    sql_runs (w_events w') =
      sql_runs [] ++ map (fun f => fs_read_or_empty (["sm3"] ++ [f]) ex_db_fs) (sql_scripts ex_cfg).
Proof.
  apply (copyDatabase_script_order linux ex_cfg).
  - decide_vm.
  - intros sql d. by eexists.
  - split.
    + vm_compute. reflexivity.
    + exists 511%N. vm_compute. reflexivity.
    + intros md. vm_compute. discriminate.
  - decide_vm.
Defined.

Lemma copyDatabase_live_copies_witness :
  copyDatabase linux ex_live_cfg (mkWorld ex_db_fs []) =
    Ok tt (mkWorld (<[db_file ex_live_cfg := NFile mode_create "DB"]> ex_db_fs) ([] ++ [ELog "Establishing database"])).
Proof.
  apply (copyDatabase_live_copies linux ex_live_cfg) with (m := 420%N) (md := 511%N).
  - decide_vm.
  - reflexivity.
  - vm_compute. reflexivity.
  - vm_compute. reflexivity.
  - vm_compute. reflexivity.
Defined.

Lemma copyDatabase_live_missing_witness :
  copyDatabase linux ex_live_cfg (mkWorld (delete ["sm3"; "ScoreMaster.db"] ex_db_fs) []) =
    Ok tt (mkWorld (delete ["sm3"; "ScoreMaster.db"] ex_db_fs) ([] ++ [ELog "Establishing database"])).
Proof.
  apply (copyDatabase_live_missing linux ex_live_cfg).
  - reflexivity.
  - vm_compute. reflexivity.
Defined.

Lemma copyDatabase_base_fatal_witness :
  exists w', copyDatabase linux ex_cfg (mkWorld ex_noexe_fs []) = Fatal "*** can't load ScoreMaster.sql" w'.
Proof.
  apply (copyDatabase_base_fatal linux ex_cfg).
  - decide_vm.
  - left. vm_compute. reflexivity.
Defined.
