(* ===== verification/Prereq.v ===== *)
(** * Prereq: [checkPrerequisites] and [fileOrFolderExists]

    The nine checks of [checkPrerequisites] are a table of (condition on
    the platform, path probed, remedy lines), run in the order of the
    source by [run_checks]: each enabled check whose path does not exist
    logs "does not exist" and its remedies and clears [ok]; after all of
    them the run stops if [ok] is false.  "Does not exist" is
    [os.IsNotExist] of the [os.Stat] error ([is_not_exist]): on Unix a
    path through a regular file fails with not-a-directory, which does
    not count, so such a path passes ([prereq_through_file]).  The
    theorem refines this to a per-platform list of required artifacts:
    the function never touches the file system, reports exactly the
    artifacts with a not-exist error in order, and fails exactly when
    it reports one. *)

From stdpp Require Import base list gmap strings sorting.
From Stdlib Require Import String.
From S2P Require Import Prelude FileSystem Copier Selector.



(** [os.IsNotExist(err)]: only a missing component counts on Unix, so
    a path through a regular file exists for the check; on Windows the
    same lookup fails with [ERROR_PATH_NOT_FOUND], which counts as not
    existing. *)
Definition is_not_exist (goos : GOOS) (err : option oserror) : bool :=
  match err with
  | Some (ENOENT _) => true
  | Some (ENOTDIR _) => bool_decide (goos = windows)
  | _ => false
  end.

Section Prereq.
Context (goos : GOOS) (cfg : Config).

(** [!os.IsNotExist(err)] after [os.Stat]. *)
Definition fileOrFolderExists (filename : path) : M world bool :=
  err <- os_stat_error filename ;;
  m_ret (negb (is_not_exist goos err)).

(** One block [if cond && !fileOrFolderExists(p) { log...; ok = false }]. *)
Definition check (cond : bool) (p : path) (hints : list string) (ok : bool) : M world bool :=
  if cond then
    ex <- fileOrFolderExists p ;;
    if ex then m_ret ok
    else emit (ENotExist p) ;; forM_ hints (fun h => emit (ELog h)) ;; m_ret false
  else m_ret ok.

Fixpoint run_checks (tbl : list (bool * path * list string)) (ok : bool) : M world bool :=
  match tbl with
  | [] => m_ret ok
  | (cond, p, hints) :: tbl' => ok' <- check cond p hints ok ;; run_checks tbl' ok'
  end.

Definition is_windows : bool := bool_decide (goos = windows).
Definition is_linux : bool := bool_decide (goos = linux).

Definition sqlitetest := binexe goos (srcFolder cfg ++ [utilsFolder; sqlite3]).
Definition caddytest := binexe goos (srcFolder cfg ++ [utilsFolder; caddy]).
Definition runtest := binexe goos (runsmFolder cfg ++ ["runsm"]).
Definition cgitest := binexe goos (srcFolder cfg ++ [utilsFolder; phpcgi]).
Definition jodittest := srcFolder cfg ++ ["jodit"].
Definition vendortest := srcFolder cfg ++ ["vendor"].
Definition ebcfetchtest := binexe goos (ebcfetchFolder cfg ++ [ebcfetch]).
Definition smpatchtest := binexe goos (smpatchFolder cfg ++ [smpatch]).

(** The checks in the order of the source. *)
Definition prereq_table : list (bool * path * list string) := [
  (is_windows, phpFolder cfg,
    ["*** You must have a working PHP installation installed. Download from php.net";
     "*** Be sure to use my php.ini rather than the default"]);
  (negb is_windows && negb is_linux, cgitest,
    ["*** You must obtain a copy - compile PHP from source?";
     "*** Be sure to use my php.ini rather than the default"]);
  (negb is_linux, sqlitetest, ["*** Please download from sqlite.org"]);
  (negb is_linux, ebcfetchtest, ["*** Please build or download from github"]);
  (negb is_linux, smpatchtest, ["*** Please build or download from github"]);
  (negb is_linux, caddytest,
    ["*** You must have a working Caddy installation. Download from github.com/caddyserver/caddy)"]);
  (true, jodittest, ["*** You might want to download from github.com/xdan/jodit"]);
  (true, vendortest,
    ["*** You probably need to run 'composer install' (download from getcomposer.org"]);
  (negb is_linux, runtest, ["*** You must do build it or use '-run' to point me to it"])].

Definition checkPrerequisites : M world unit :=
  ok <- run_checks prereq_table true ;;
  if ok then m_ret tt else m_fatal "*** Please fix these issues and try again".
End Prereq.

(* ------------------------------------------------------------------ *)
(** ** Specification: the artifacts each platform requires *)

(** The paths reported as missing, in order. *)
Definition not_exist_reports (evs : list event) : list path :=
  omap (fun e => match e with ENotExist p => Some p | _ => None end) evs.

Section PrereqSpec.
Context (goos : GOOS) (cfg : Config).

(** A path the check reports: [os.Stat] fails with a not-exist error. *)
Definition missing (fs : FS) (p : path) : bool := is_not_exist goos (stat_error fs p).

Definition check_events (cond : bool) (p : path) (hints : list string) (fs : FS) : list event :=
  if cond && missing fs p then ENotExist p :: map ELog hints else [].

(** What the specification asks for: everything on Windows (with the
    PHP installation folder), only the editor and the vendored packages
    on Linux, and the CGI binary instead of the PHP folder elsewhere. *)
Definition required_artifacts : list path :=
  match goos with
  | windows => [phpFolder cfg; sqlitetest goos cfg; ebcfetchtest goos cfg; smpatchtest goos cfg;
                caddytest goos cfg; jodittest cfg; vendortest cfg; runtest goos cfg]
  | linux => [jodittest cfg; vendortest cfg]
  | _ => [cgitest goos cfg; sqlitetest goos cfg; ebcfetchtest goos cfg; smpatchtest goos cfg;
          caddytest goos cfg; jodittest cfg; vendortest cfg; runtest goos cfg]
  end.

Lemma forM_emit_logs (hints : list string) w :
  forM_ hints (fun h => emit (ELog h)) w = Ok tt (mkWorld (w_fs w) (w_events w ++ map ELog hints)).
Proof.
  revert w. induction hints as [|h hints IH]; intros w; cbn.
  - rewrite app_nil_r. by destruct w.
  - unfold m_bind. cbn. rewrite IH. cbn. by rewrite <-app_assoc.
Qed.

Lemma check_spec cond p hints ok w :
  check goos cond p hints ok w =
  Ok (ok && negb (cond && missing (w_fs w) p))
     (mkWorld (w_fs w) (w_events w ++ check_events cond p hints (w_fs w))).
Proof.
  unfold check, check_events, fileOrFolderExists, missing.
  destruct cond; cbn; [|by rewrite andb_true_r, app_nil_r; destruct w].
  unfold m_bind, os_stat_error, m_ret. cbn.
  destruct (is_not_exist goos (stat_error (w_fs w) p)); cbn; [|by rewrite andb_true_r, app_nil_r; destruct w].
  unfold m_bind. cbn. rewrite forM_emit_logs. cbn. by rewrite andb_false_r, <-app_assoc.
Qed.

Lemma run_checks_spec tbl ok w :
  run_checks goos tbl ok w =
  Ok (ok && forallb (fun '(c, p, _) => negb (c && missing (w_fs w) p)) tbl)
     (mkWorld (w_fs w) (w_events w ++ List.concat (map (fun '(c, p, h) => check_events c p h (w_fs w)) tbl))).
Proof.
  revert ok w. induction tbl as [|[[c p] h] tbl IH]; intros ok w; cbn.
  - by rewrite andb_true_r, app_nil_r; destruct w.
  - unfold m_bind. rewrite check_spec, IH. cbn. by rewrite andb_assoc, app_assoc.
Qed.

Definition enabled_paths (tbl : list (bool * path * list string)) : list path :=
  map (fun '(c, p, _) => p) (filter (fun e => e.1.1 = true) tbl).

Lemma reports_check c p h fs :
  not_exist_reports (check_events c p h fs) = if c && missing fs p then [p] else [].
Proof.
  unfold check_events. destruct (c && missing fs p); [|done].
  cbn. f_equal. by induction h.
Qed.

Lemma filter_enabled_cons c p h tbl fs :
  filter (fun p => missing fs p = true) (enabled_paths ((c, p, h) :: tbl)) =
  (if c && missing fs p then [p] else []) ++ filter (fun p => missing fs p = true) (enabled_paths tbl).
Proof.
  unfold enabled_paths. rewrite filter_cons. cbn [fst].
  destruct c; cbn [andb]; [rewrite decide_True by done|by rewrite decide_False].
  cbn [map]. rewrite filter_cons. by destruct (missing fs p).
Qed.

Lemma reports_table tbl fs :
  not_exist_reports (List.concat (map (fun '(c, p, h) => check_events c p h fs) tbl)) =
  filter (fun p => missing fs p = true) (enabled_paths tbl).
Proof.
  induction tbl as [|[[c p] h] tbl IH]; [done|].
  cbn [map List.concat]. unfold not_exist_reports in *.
  rewrite omap_app, IH, filter_enabled_cons. f_equal. apply reports_check.
Qed.

Lemma forallb_table tbl fs :
  forallb (fun '(c, p, _) => negb (c && missing fs p)) tbl = true <->
  filter (fun p => missing fs p = true) (enabled_paths tbl) = [].
Proof.
  induction tbl as [|[[c p] h] tbl IH]; [done|].
  rewrite filter_enabled_cons. cbn [forallb]. rewrite andb_true_iff, IH.
  destruct (c && missing fs p); cbn; naive_solver.
Qed.

(** The table of the source enables exactly the required artifacts. *)
Lemma prereq_table_required : enabled_paths (prereq_table goos cfg) = required_artifacts.
Proof. unfold required_artifacts, prereq_table, is_windows, is_linux. destruct goos; reflexivity. Qed.
End PrereqSpec.

(** The new events of a run of [checkPrerequisites] on [fs]. *)
Definition prereq_events (goos : GOOS) (cfg : Config) (fs : FS) : list event :=
  List.concat (map (fun '(c, p, h) => check_events goos c p h fs) (prereq_table goos cfg)).

(** The required artifacts [fs] lacks, in the order they are checked. *)
Definition missing_artifacts (goos : GOOS) (cfg : Config) (fs : FS) : list path :=
  filter (fun p => missing goos fs p = true) (required_artifacts goos cfg).

(** The run of [checkPrerequisites]: the file system is untouched and
    the outcome is decided by the missing artifacts. *)
Lemma checkPrerequisites_run goos cfg w :
  checkPrerequisites goos cfg w =
    (if decide (missing_artifacts goos cfg (w_fs w) = [])
     then Ok tt (mkWorld (w_fs w) (w_events w ++ prereq_events goos cfg (w_fs w)))
     else Fatal "*** Please fix these issues and try again"
            (mkWorld (w_fs w) (w_events w ++ prereq_events goos cfg (w_fs w)))).
Proof.
  unfold prereq_events, missing_artifacts. rewrite <-prereq_table_required.
  unfold checkPrerequisites, m_bind. rewrite run_checks_spec. cbn [andb].
  destruct (forallb _ _) eqn:Hall.
  - apply forallb_table in Hall. by rewrite decide_True.
  - rewrite decide_False; [done|]. by rewrite <-forallb_table, Hall.
Qed.

(** C5. [checkPrerequisites] refines the specification of the
    required artifacts: it never changes the file system, the paths it
    reports as not existing are exactly the required artifacts for which
    [os.Stat] fails with a not-exist error ([missing]: a missing
    component; on Unix a path through a regular file is not one), in
    order, and it returns normally exactly when there is none;
    otherwise it stops with "Please fix these issues". *)
Theorem checkPrerequisites_refines goos cfg w :
  not_exist_reports (prereq_events goos cfg (w_fs w)) = missing_artifacts goos cfg (w_fs w) /\
  checkPrerequisites goos cfg w =
    (if decide (missing_artifacts goos cfg (w_fs w) = [])
     then Ok tt (mkWorld (w_fs w) (w_events w ++ prereq_events goos cfg (w_fs w)))
     else Fatal "*** Please fix these issues and try again"
            (mkWorld (w_fs w) (w_events w ++ prereq_events goos cfg (w_fs w)))).
Proof.
  split; [|apply checkPrerequisites_run].
  unfold prereq_events, missing_artifacts. rewrite <-prereq_table_required. apply reports_table.
Qed.

(** On Linux, [-sm3] naming a regular file passes the check: [os.Stat]
    of [sm3/jodit] and [sm3/vendor] fails with [ENOTDIR], which
    [os.IsNotExist] does not accept. *)
Example prereq_through_file :
  missing_artifacts linux (mkConfig ["sm3"] ["runsm"] ["ebcfetch"] ["smpatch"] ["PHP"] ["inst"]
                             "v" false "en" false false)
    (list_to_map [([], NDir 493); (["sm3"], NFile 420 "not a folder")]) = [].
Proof. vm_compute. reflexivity. Qed.
