(* ===== verification/Assembler.v ===== *)
(** * Assembler: [main] and the steps it calls to assemble the installation

    [main] checks the target flag and the prerequisites, removes an old
    target when [-ok] is given, makes the eight folders of the layout and
    then populates them in a fixed order: [writeReadme], [copyPHP],
    [copyDatabase], [copySMFiles], [copyExecs], [copyImages],
    [copyJodit], [copyPhpPackages], [generateHelp].  The recursive walks
    get as fuel [tree_fuel] of the file system at the moment they start,
    read with [m_get].  The theorems: the early exits of [main] leave the
    file system untouched, [zapTarget] removes exactly the old target,
    the layout phase builds the folders in order and stops at the first
    that cannot be made, the steps' error behaviour, the help tree
    [generateHelp] builds, and what [copyPHP] installs on each
    platform. *)

From stdpp Require Import base list gmap strings sorting.
From Stdlib Require Import String Ascii.
From S2P Require Import Prelude FileSystem Copier Help Selector Database Prereq.

(** [const myREADME]. *)
Definition myREADME : string :=
"This folder contains a working copy of IBA ScoreMaster rally administration software.

If you wish, you can copy this folder and its subfolders into a location on your
hard drive and run the software from there.

To start the ScoreMaster server, run or double-click the file 'runsm' in this folder. You might need
to grant permission for your firewall but it will only fire up a local web browser to enable you to
access the system, from this machine or anywhere on your local network.

If you need further support please contact the author, Bob Stammers, at webmaster@ironbutt.co.uk
".

(** The text of a Go [*PathError] as [%s] prints it, without the name
    of the failed operation. *)
Definition oserror_text (e : oserror) : string :=
  (match e with
  | ENOENT p => show_path p ++ ": no such file or directory"
  | EEXIST p => show_path p ++ ": file exists"
  | ENOTDIR p => show_path p ++ ": not a directory"
  | EISDIR p => show_path p ++ ": is a directory"
  | ENOTREG p => show_path p ++ " is not a regular file"
  end)%string.

(** The Go literal ["\n\n"]. *)
Definition nl2 : string := String "010"%char (String "010"%char EmptyString).

(** The fuel of a walk of [src] starting now. *)
Definition walk_fuel (src : path) : M world nat :=
  w <- m_get ;; m_ret (tree_fuel (w_fs w) src).

Section Assembler.
Context `{!SqlEngine} (goos : GOOS) (cfg : Config).

Local Abbreviation target := (targetFolder cfg).
Local Abbreviation sm := (smFolder cfg).

(** [zapTarget]: the one second sleep is not observable here. *)
Definition zapTarget : M world unit :=
  emit (ELog ("Overwriting " ++ show_path target)%string) ;;
  os_remove_all target.

(** [writeReadme]: give up silently if [readme.txt] cannot be created;
    the marker file named after the platform ignores its error. *)
Definition writeReadme : M world unit :=
  let readme := target ++ ["readme.txt"] in
  err <- os_create readme ;;
  match err with
  | Some _ => m_ret tt
  | None =>
      os_append readme myREADME ;;
      os_append readme (nl2 ++ goos_name goos)%string ;;
      _ <- os_create (target ++ [goos_name goos]) ;;
      m_ret tt
  end.

(** [copyPHP]: the whole PHP installation on Windows (fatal on
    failure), the CGI binary if present on other non-Linux systems,
    and [php.ini] if present everywhere. *)
Definition copyPHP : M world unit :=
  (if decide (goos = windows) then
     emit (ELog ("Copying PHP from " ++ show_path (phpFolder cfg))%string) ;;
     fuel <- walk_fuel (phpFolder cfg) ;;
     err <- copyFolderTree fuel (phpFolder cfg) (target ++ ["php"]) ;;
     match err with
     | Some e => m_fatal ("*** FAILED copying folder: " ++ oserror_text e)%string
     | None => m_ret tt
     end
   else if decide (goos <> linux) then
     let cgi := srcFolder cfg ++ [utilsFolder; phpcgi] in
     st <- os_stat cgi ;;
     match st with
     | Some _ => copyExec goos cgi (target ++ ["php"; "php-cgi"])
     | None => m_ret tt
     end
   else m_ret tt) ;;
  let ini := srcFolder cfg ++ ["php"; "php.ini"] in
  st <- os_stat ini ;;
  match st with
  | Some _ => _ <- copyFile ini (target ++ ["php"; "php.ini"]) ;; m_ret tt
  | None => m_ret tt
  end.

(** [copyExecs]: nothing on Linux; [debugsm] unless [-nodebug]. *)
Definition copyExecs : M world unit :=
  if decide (goos = linux) then m_ret tt
  else
    emit (ELog "Copying executables") ;;
    copyExec goos (srcFolder cfg ++ [utilsFolder; caddy]) (target ++ ["caddy"; caddy]) ;;
    copyExec goos (ebcfetchFolder cfg ++ [ebcfetch]) (target ++ ["caddy"; ebcfetch]) ;;
    copyExec goos (smpatchFolder cfg ++ [smpatch]) (target ++ [smpatch]) ;;
    copyExec goos (runsmFolder cfg ++ ["runsm"]) (target ++ ["runsm"]) ;;
    if negb (nodebug cfg) then
      copyExec goos (runsmFolder cfg ++ ["runsm"]) (target ++ ["debugsm"])
    else m_ret tt.

(** [copyJodit]: the folder is mandatory, the four copies are not. *)
Definition copyJodit : M world unit :=
  emit (ELog "Copying Jodit WYSIWYG editor") ;;
  makeFolder (sm ++ ["jodit"]) ;;
  _ <- copyFile (srcFolder cfg ++ ["jodit"; "build"; "jodit.min.js"]) (sm ++ ["jodit"; "jodit.min.js"]) ;;
  _ <- copyFile (srcFolder cfg ++ ["jodit"; "build"; "jodit.min.css"]) (sm ++ ["jodit"; "jodit.min.css"]) ;;
  _ <- copyFile (srcFolder cfg ++ ["images"; "icons"; "fields.png"]) (sm ++ ["jodit"; "fields.png"]) ;;
  _ <- copyFile (srcFolder cfg ++ ["images"; "icons"; "borders.png"]) (sm ++ ["jodit"; "borders.png"]) ;;
  m_ret tt.

(** [copyPhpPackages]: the vendor tree, fatal on failure. *)
Definition copyPhpPackages : M world unit :=
  emit (ELog "Copying PHP packages") ;;
  fuel <- walk_fuel (srcFolder cfg ++ ["vendor"]) ;;
  err <- copyFolderTree fuel (srcFolder cfg ++ ["vendor"]) (sm ++ ["vendor"]) ;;
  match err with
  | Some e => m_fatal ("*** FAILED copying folder: " ++ oserror_text e)%string
  | None => m_ret tt
  end.

(** [generateHelp]: the result of [copyHelp] is dropped. *)
Definition generateHelp : M world unit :=
  emit (ELog "Generating help") ;;
  fuel <- walk_fuel (srcFolder cfg ++ [helpFolder]) ;;
  _ <- copyHelp fuel (srcFolder cfg) (target ++ ["sm"]) helpFolder ;;
  m_ret tt.

(** [main], lines up to the prerequisites and the optional zap. *)
Definition main_start : M world unit :=
  emit (ELog ("MakeSM " ++ mySMFLAVOUR ++ " ScoreMaster installation maker")%string) ;;
  emit (ELog ("Building for " ++ goos_name goos)%string) ;;
  match target with
  | [] => m_fatal "You must specify a target folder"
  | _ :: _ =>
      checkPrerequisites goos cfg ;;
      if overwriteok cfg then zapTarget else m_ret tt
  end.

(** The folders of the layout, in the order [main] makes them. *)
Definition layout : list path :=
  [target; sm; sm ++ ["images"]; sm ++ ["images"; "bonuses"]; sm ++ ["uploads"];
   sm ++ ["ebcimg"]; target ++ ["php"]; target ++ ["caddy"]].

Definition buildFolders : M world unit :=
  emit (ELog "Building folder structure") ;;
  forM_ layout makeFolder.

Definition populate : M world unit :=
  writeReadme ;; copyPHP ;; copyDatabase goos cfg ;; copySMFiles cfg ;;
  copyExecs ;; copyImages cfg ;; copyJodit ;; copyPhpPackages ;; generateHelp ;;
  emit (ELog ("ScoreMaster installed in " ++ show_path target)%string).

Definition main : M world unit :=
  main_start ;; buildFolders ;; populate.
End Assembler.

(** [layout] as paths relative to the target, for the checker below. *)
Definition layout_rels : list path :=
  [[]; ["sm"]; ["sm"; "images"]; ["sm"; "images"; "bonuses"]; ["sm"; "uploads"];
   ["sm"; "ebcimg"]; ["php"]; ["caddy"]].

(** Every folder is new and its parent is the target's parent (for the
    target itself) or a folder made before it. *)
Fixpoint parents_first (seen rels : list path) : bool :=
  match rels with
  | [] => true
  | r :: rs =>
      bool_decide (r ∉ seen) && bool_decide (r = [] \/ removelast r ∈ seen) &&
      parents_first (r :: seen) rs
  end.

(* ------------------------------------------------------------------ *)
(** ** Making folders *)

Lemma parent_dir_below (fs : FS) base r :
  r <> [] -> fs !! (base ++ removelast r) = Some (NDir mode_dir_default) -> parent_dir fs (base ++ r).
Proof.
  intros Hr Hq. exists (base ++ removelast r), (List.last r ""), mode_dir_default.
  split; [|done]. by rewrite <-app_assoc, <-app_removelast_last.
Qed.

Lemma parent_dir_frame (fs fs' : FS) base :
  parent_dir fs base -> (forall k, ~ base `prefix_of` k -> fs' !! k = fs !! k) -> parent_dir fs' base.
Proof.
  intros (q & x & m & -> & Hq) Hfr. exists q, x, m. split; [done|].
  rewrite Hfr; [done|]. intros Hpre%prefix_length. rewrite length_app in Hpre. cbn in Hpre. lia.
Qed.

(** The folders [base ++ r] for [r] in [rels] are made in order when
    each is new and its parent exists by then. *)
Lemma make_folders base rels seen w :
  fs_wf (w_fs w) -> parent_dir (w_fs w) base ->
  (forall rel, w_fs w !! (base ++ rel) = if decide (rel ∈ seen) then Some (NDir mode_dir_default) else None) ->
  parents_first seen rels = true ->
  exists fs', forM_ (app base <$> rels) makeFolder w = Ok tt (mkWorld fs' (w_events w)) /\ fs_wf fs' /\
    (forall rel, fs' !! (base ++ rel) =
       if decide (rel ∈ rels \/ rel ∈ seen) then Some (NDir mode_dir_default) else None) /\
    (forall k, ~ base `prefix_of` k -> fs' !! k = w_fs w !! k).
Proof.
  revert seen w. induction rels as [|r rs IH]; intros seen w Hwf Hbase Hunder Hpf.
  - exists (w_fs w). destruct w as [fs ev]. split; [done|]. split; [done|]. split; [|done].
    intros rel. rewrite Hunder. cbn. do 2 case_decide; set_solver.
  - cbn in Hpf. apply andb_true_iff in Hpf as [[Hnew Hpar]%andb_true_iff Hpf].
    apply bool_decide_eq_true in Hnew, Hpar.
    assert (Hp : parent_dir (w_fs w) (base ++ r)).
    { destruct Hpar as [->|Hpar]; [by rewrite app_nil_r|].
      apply parent_dir_below; [intros ->; by apply Hnew|].
      rewrite Hunder. by rewrite decide_True. }
    assert (Hr : w_fs w !! (base ++ r) = None) by (rewrite Hunder; by rewrite decide_False).
    set (w1 := set_fs (<[base ++ r := NDir mode_dir_default]> (w_fs w)) w).
    assert (Hfr1 : forall k, ~ base `prefix_of` k -> w_fs w1 !! k = w_fs w !! k).
    { intros k Hk. cbn. rewrite lookup_insert_ne; [done|]. intros <-. by apply Hk, prefix_app_r. }
    destruct (IH (r :: seen) w1) as (fs' & Hrun & Hwf' & Hin & Hfr); [| |intros rel| |].
    + apply wf_insert; [done|done|done].
    + by apply (parent_dir_frame (w_fs w)).
    + cbn. rewrite lookup_insert. case_decide as Heq.
      * apply app_inv_head in Heq as ->. by rewrite decide_True by set_solver.
      * rewrite Hunder. apply decide_ext. assert (rel <> r) by congruence. set_solver.
    + done.
    + exists fs'. cbn [fmap list_fmap forM_]. rewrite (m_bind_ok _ _ _ _ _ (makeFolder_new _ _ Hr Hp)).
      split; [exact Hrun|]. split; [done|]. split.
      * intros rel. rewrite Hin. apply decide_ext. set_solver.
      * intros k Hk. by rewrite Hfr, Hfr1.
Qed.

(* ------------------------------------------------------------------ *)
(** ** [main]: the checks before anything is written, and the layout *)

(** The folder under which the run starts: the old target removed with
    [-ok], the file system as it is otherwise. *)
Definition start_fs (ok : bool) (target : path) (fs : FS) : FS :=
  if ok then fs_remove_all target fs else fs.

Lemma start_fs_props (fs : FS) t ok :
  fs_wf fs -> parent_dir fs t -> ok = true \/ fs !! t = None ->
  fs_wf (start_fs ok t fs) /\ parent_dir (start_fs ok t fs) t /\
  (forall rel, start_fs ok t fs !! (t ++ rel) = None) /\
  (forall k, ~ t `prefix_of` k -> start_fs ok t fs !! k = fs !! k).
Proof.
  intros Hwf Hpar Hok.
  assert (Ht : t <> []) by (intros ->; by apply parent_dir_nil in Hpar).
  assert (Hfr : forall k, ~ t `prefix_of` k -> start_fs ok t fs !! k = fs !! k).
  { intros k Hk. unfold start_fs. destruct ok; [|done].
    rewrite fs_remove_all_lookup. by rewrite decide_False. }
  split; [|split; [by apply (parent_dir_frame fs)|split; [|done]]].
  - unfold start_fs. destruct ok; [by apply fs_remove_all_wf|done].
  - intros rel. unfold start_fs. destruct ok.
    + rewrite fs_remove_all_lookup. rewrite decide_True; [done|]. by apply prefix_app_r.
    + destruct Hok as [|Hnone]; [done|]. destruct rel as [|y rel]; [by rewrite app_nil_r|].
      apply wf_leaf_below; [done|]. by rewrite Hnone.
Qed.

Lemma layout_eq cfg : layout cfg = app (targetFolder cfg) <$> layout_rels.
Proof. unfold layout, smFolder. cbn. by rewrite <-!app_assoc, app_nil_r. Qed.

Section MainSpec.
Context `{!SqlEngine} (goos : GOOS) (cfg : Config).

Definition banner : list event :=
  [ELog ("MakeSM " ++ mySMFLAVOUR ++ " ScoreMaster installation maker")%string;
   ELog ("Building for " ++ goos_name goos)%string].

Lemma main_start_ok w :
  targetFolder cfg <> [] -> missing_artifacts goos cfg (w_fs w) = [] ->
  exists ev, main_start goos cfg w =
    Ok tt (mkWorld (start_fs (overwriteok cfg) (targetFolder cfg) (w_fs w)) ev).
Proof.
  intros Ht Hm. unfold main_start, zapTarget, start_fs.
  destruct (targetFolder cfg) as [|t ts]; [done|].
  unfold m_bind at 1 2. cbn. unfold m_bind at 1.
  rewrite checkPrerequisites_run. cbn. rewrite Hm, decide_True by done.
  destruct (overwriteok cfg); cbn; eauto.
Qed.
End MainSpec.

Section MainRuns.
Context `{!SqlEngine} (goos : GOOS) (cfg : Config).

(** C4. Without [-target], [main] stops after its two banner lines
    with "You must specify a target folder" and the file system as it
    was. *)
Theorem main_no_target w :
  targetFolder cfg = [] ->
  main goos cfg w = Fatal "You must specify a target folder"
                      (mkWorld (w_fs w) (w_events w ++ banner goos)).
Proof.
  intros Ht. unfold main, main_start. rewrite Ht. unfold m_bind. cbn.
  by rewrite <-app_assoc.
Qed.

(** C2. Nothing is written before the prerequisites pass: with a
    target given and a required artifact missing, [main] stops with
    "Please fix these issues" after the banner and the reports of
    [checkPrerequisites], and the file system (an existing target
    included, even with [-ok]) is untouched. *)
Theorem main_prereq_missing w :
  targetFolder cfg <> [] -> missing_artifacts goos cfg (w_fs w) <> [] ->
  main goos cfg w = Fatal "*** Please fix these issues and try again"
    (mkWorld (w_fs w) (w_events w ++ banner goos ++ prereq_events goos cfg (w_fs w))).
Proof.
  intros Ht Hm. unfold main, main_start.
  destruct (targetFolder cfg) as [|t ts]; [done|].
  unfold m_bind at 1 2 3. cbn. unfold m_bind at 1.
  rewrite checkPrerequisites_run. cbn [w_fs w_events]. rewrite decide_False by done.
  unfold banner. by rewrite <-!app_assoc.
Qed.

(** C3. An existing target is never overwritten without [-ok]: with
    the prerequisites present, [main] stops at the first folder of the
    layout with "can't establish folder" and the file system as it
    was. *)
Theorem main_existing_target w :
  targetFolder cfg <> [] -> missing_artifacts goos cfg (w_fs w) = [] ->
  overwriteok cfg = false -> is_Some (w_fs w !! targetFolder cfg) ->
  exists ev, main goos cfg w =
    Fatal ("*** can't establish folder " ++ show_path (targetFolder cfg))%string (mkWorld (w_fs w) ev).
Proof.
  intros Ht Hm Hok Hex. destruct (main_start_ok goos cfg w Ht Hm) as [ev Hs].
  unfold start_fs in Hs. rewrite Hok in Hs.
  unfold main. rewrite (m_bind_ok _ _ _ _ _ Hs). unfold buildFolders. rewrite m_bind_assoc.
  unfold m_bind at 1. cbn. unfold layout. cbn [forM_]. rewrite m_bind_assoc.
  unfold m_bind at 1. rewrite makeFolder_exists by done. eauto.
Qed.

(** C1. The layout: when the target's parent is a directory, the
    prerequisites are present and the target is new or [-ok] is given,
    [main] goes on to populate a world in which the target holds
    exactly the eight folders of the layout and nothing else (an old
    target's content is gone), and everything outside the target is as
    it was. *)
Theorem main_builds_layout w :
  fs_wf (w_fs w) -> parent_dir (w_fs w) (targetFolder cfg) ->
  missing_artifacts goos cfg (w_fs w) = [] ->
  overwriteok cfg = true \/ w_fs w !! targetFolder cfg = None ->
  exists w', main goos cfg w = populate goos cfg w' /\ fs_wf (w_fs w') /\
    (forall rel, w_fs w' !! (targetFolder cfg ++ rel) =
       if decide (rel ∈ layout_rels) then Some (NDir mode_dir_default) else None) /\
    (forall k, ~ targetFolder cfg `prefix_of` k -> w_fs w' !! k = w_fs w !! k).
Proof.
  intros Hwf Hpar Hm Hok.
  assert (Ht : targetFolder cfg <> []) by (intros E; rewrite E in Hpar; by apply parent_dir_nil in Hpar).
  destruct (main_start_ok goos cfg w Ht Hm) as [ev Hs].
  destruct (start_fs_props (w_fs w) (targetFolder cfg) (overwriteok cfg)) as (Hwf1 & Hpar1 & Hnew1 & Hfr1);
    [done|done|done|].
  set (fs1 := start_fs (overwriteok cfg) (targetFolder cfg) (w_fs w)) in *.
  unfold main. rewrite (m_bind_ok _ _ _ _ _ Hs). unfold buildFolders. rewrite m_bind_assoc.
  unfold m_bind at 1. cbn [emit w_fs w_events]. rewrite layout_eq.
  destruct (make_folders (targetFolder cfg) layout_rels []
              (mkWorld fs1 (ev ++ [ELog "Building folder structure"])))
    as (fs' & Hrun & Hwf' & Hin & Hfr); [done|done|done|reflexivity|].
  rewrite (m_bind_ok _ _ _ _ _ Hrun). eexists. split; [reflexivity|]. cbn [w_fs].
  split; [done|]. split.
  - intros rel. rewrite Hin. apply decide_ext. rewrite elem_of_nil. tauto.
  - intros k Hk. by rewrite Hfr, Hfr1.
Qed.
End MainRuns.

(* ------------------------------------------------------------------ *)
(** ** Examples *)

#[local] Existing Instance ex_engine.

Definition ex_notarget_cfg : Config :=
  mkConfig ["sm3"] ["runsm"] ["ebcfetch"] ["smpatch"] ["PHP"] [] "v" false "en" false false.

(** A source tree with what Linux requires (the editor and the vendored
    packages), and an old installation [inst]. *)
Definition ex_main_fs : FS :=
  list_to_map [([], NDir 493); (["sm3"], NDir 493); (["sm3"; "jodit"], NDir 493);
               (["sm3"; "vendor"], NDir 493); (["inst"], NDir 511); (["inst"; "old.txt"], NFile 420 "old")].

Lemma main_no_target_witness :
  main linux ex_notarget_cfg (mkWorld ex_main_fs []) =
    Fatal "You must specify a target folder" (mkWorld ex_main_fs ([] ++ banner linux)).
Proof. apply main_no_target. reflexivity. Defined.

Lemma main_prereq_missing_witness :
  main linux ex_cfg (mkWorld (delete ["sm3"; "vendor"] ex_main_fs) []) =
    Fatal "*** Please fix these issues and try again"
      (mkWorld (delete ["sm3"; "vendor"] ex_main_fs)
               ([] ++ banner linux ++ prereq_events linux ex_cfg (delete ["sm3"; "vendor"] ex_main_fs))).
Proof.
  apply main_prereq_missing.
  - decide_vm.
  - decide_vm.
Defined.

Lemma main_existing_target_witness :
  exists ev, main linux ex_cfg (mkWorld ex_main_fs []) =
    Fatal ("*** can't establish folder " ++ show_path ["inst"])%string (mkWorld ex_main_fs ev).
Proof.
  apply (main_existing_target linux ex_cfg).
  - decide_vm.
  - vm_compute. reflexivity.
  - reflexivity.
  - vm_compute. by eexists.
Defined.

Lemma main_builds_layout_witness :
  exists w', main linux ex_cfg (mkWorld (delete ["inst"; "old.txt"] (delete ["inst"] ex_main_fs)) []) =
               populate linux ex_cfg w' /\ fs_wf (w_fs w') /\
    (forall rel, w_fs w' !! (["inst"] ++ rel) =
       if decide (rel ∈ layout_rels) then Some (NDir mode_dir_default) else None) /\
    (forall k, ~ ["inst"] `prefix_of` k ->
       w_fs w' !! k = delete ["inst"; "old.txt"] (delete ["inst"] ex_main_fs) !! k).
Proof.
  apply (main_builds_layout linux ex_cfg).
  - apply fs_wfb_sound. vm_compute. reflexivity.
  - exists [], "inst", 493%N. split; [reflexivity|vm_compute; reflexivity].
  - vm_compute. reflexivity.
  - right. vm_compute. reflexivity.
Defined.

(* ------------------------------------------------------------------ *)
(** ** [copyJodit] *)

Lemma under_ne (base k : path) d x : ~ (base ++ [d]) `prefix_of` k -> k <> base ++ [d; x].
Proof. intros Hk ->. apply Hk. exists [x]. by rewrite <-app_assoc. Qed.

Lemma dir_ne_child (base : path) d x : base ++ [d] <> base ++ [d; x].
Proof. intros H%app_inv_head. discriminate. Qed.

(** One [copyFile] whose result is dropped always returns. *)
Ltac drop_copy :=
  match goal with
  | |- context [m_bind (copyFile ?s ?d) ?k ?w] =>
      let r := fresh "r" in let w' := fresh "w" in let H := fresh "Hc" in
      destruct (copyFile_total s d w) as (r & w' & H);
      rewrite (m_bind_ok _ _ _ _ _ H)
  end.

(** C13. The editor assets are best effort: once [sm/jodit] can be made,
    [copyJodit] returns whatever the four sources are (a missing source
    is not an error), the folder exists afterwards, and nothing outside
    it changes. *)
Theorem copyJodit_best_effort cfg w :
  w_fs w !! (smFolder cfg ++ ["jodit"]) = None -> parent_dir (w_fs w) (smFolder cfg ++ ["jodit"]) ->
  exists w', copyJodit cfg w = Ok tt w' /\
    w_fs w' !! (smFolder cfg ++ ["jodit"]) = Some (NDir mode_dir_default) /\
    (forall k, ~ (smFolder cfg ++ ["jodit"]) `prefix_of` k -> w_fs w' !! k = w_fs w !! k).
Proof.
  intros Hnew Hpar. unfold copyJodit. unfold m_bind at 1. cbn [emit].
  rewrite (m_bind_ok _ _ _ _ _ (makeFolder_new (smFolder cfg ++ ["jodit"])
             (mkWorld (w_fs w) (w_events w ++ [ELog "Copying Jodit WYSIWYG editor"])) Hnew Hpar)).
  do 4 drop_copy. eexists. split; [reflexivity|]. split.
  - rewrite (copyFile_frame _ _ _ _ _ _ Hc2), (copyFile_frame _ _ _ _ _ _ Hc1),
      (copyFile_frame _ _ _ _ _ _ Hc0), (copyFile_frame _ _ _ _ _ _ Hc) by apply dir_ne_child.
    cbn [w_fs set_fs]. apply lookup_insert_eq.
  - intros k Hk.
    rewrite (copyFile_frame _ _ _ _ _ _ Hc2), (copyFile_frame _ _ _ _ _ _ Hc1),
      (copyFile_frame _ _ _ _ _ _ Hc0), (copyFile_frame _ _ _ _ _ _ Hc) by (by apply under_ne).
    cbn [w_fs set_fs]. rewrite lookup_insert_ne; [done|]. intros <-. by apply Hk.
Qed.

(** An application folder without the editor's sources. *)
Definition ex_jodit_fs : FS := <[["inst"; "sm"] := NDir 511]> (delete ["inst"; "old.txt"] ex_main_fs).

Lemma copyJodit_best_effort_witness :
  exists w', copyJodit ex_cfg (mkWorld ex_jodit_fs []) = Ok tt w' /\
    w_fs w' !! (smFolder ex_cfg ++ ["jodit"]) = Some (NDir mode_dir_default) /\
    (forall k, ~ (smFolder ex_cfg ++ ["jodit"]) `prefix_of` k -> w_fs w' !! k = ex_jodit_fs !! k).
Proof.
  apply copyJodit_best_effort.
  - vm_compute. reflexivity.
  - exists ["inst"; "sm"], "jodit", 511%N. split; [reflexivity|vm_compute; reflexivity].
Defined.

(* ------------------------------------------------------------------ *)
(** ** [writeReadme] *)

Section Readme.
Context (goos : GOOS) (cfg : Config).
Let readme := targetFolder cfg ++ ["readme.txt"].
Let marker := targetFolder cfg ++ [goos_name goos].

(** C21. The readme and the platform marker: in an existing target
    without them, [writeReadme] writes [readme.txt] holding the text of
    [myREADME], a blank line and the platform name, and an empty file
    named after the platform, both with mode 0666. *)
Theorem writeReadme_writes w m :
  w_fs w !! targetFolder cfg = Some (NDir m) -> w_fs w !! readme = None -> w_fs w !! marker = None ->
  goos_name goos <> "readme.txt" ->
  writeReadme goos cfg w =
    Ok tt (mkWorld (<[marker := NFile mode_create EmptyString]>
                     (<[readme := NFile mode_create (myREADME ++ nl2 ++ goos_name goos)%string]> (w_fs w)))
                   (w_events w)).
Proof.
  intros Ht Hr Hm Hne. unfold writeReadme, os_create, lift_fs, os_append, m_bind, m_ret.
  fold readme marker. cbn [w_fs w_events set_fs].
  rewrite fs_create_fresh by (done || by exists (targetFolder cfg), "readme.txt", m). cbn.
  rewrite (fs_append_file readme myREADME (<[readme := NFile mode_create EmptyString]> (w_fs w))
             mode_create EmptyString) by apply lookup_insert_eq.
  rewrite insert_insert_eq.
  erewrite fs_append_file by apply lookup_insert_eq. rewrite insert_insert_eq.
  rewrite fs_create_fresh.
  - by rewrite <-string_app_assoc.
  - rewrite lookup_insert_ne; [done|]. intros Heq%app_inv_head. injection Heq. done.
  - exists (targetFolder cfg), (goos_name goos), m. split; [done|].
    rewrite lookup_insert_ne; [done|]. apply snoc_neq.
Qed.

End Readme.

Lemma writeReadme_writes_witness :
  writeReadme linux ex_cfg (mkWorld ex_jodit_fs []) =
    Ok tt (mkWorld (<[["inst"] ++ [goos_name linux] := NFile mode_create EmptyString]>
                     (<[["inst"] ++ ["readme.txt"] := NFile mode_create (myREADME ++ nl2 ++ goos_name linux)%string]>
                        ex_jodit_fs)) []).
Proof.
  apply (writeReadme_writes linux ex_cfg (mkWorld ex_jodit_fs []) 511).
  - vm_compute. reflexivity.
  - vm_compute. reflexivity.
  - vm_compute. reflexivity.
  - decide_vm.
Defined.

(* ------------------------------------------------------------------ *)
(** ** [copyExecs] *)

(** Two paths of the installation that differ, as the assembler builds
    them: distinct names under the target, or a path apart from it. *)
Ltac neq_exec :=
  rewrite ?binexe_app by discriminate;
  first [ by apply apart_under
        | apply app_neq_tail; unfold binexe; repeat case_decide; discriminate
        | apply app_nonempty_neq; unfold binexe; repeat case_decide; discriminate ].

Ltac drop_exec H :=
  match goal with
  | |- context [m_bind (copyExec ?g ?s ?d) ?k ?w] =>
      let w' := fresh "w" in
      destruct (copyExec_total g s d w) as (w' & H);
      rewrite (m_bind_ok _ _ _ _ _ H)
  end.

(** C22. The debug launcher: off Linux, with the launcher present and
    its runtime folder apart from the target, [copyExecs] returns, and
    the installation has [debugsm] exactly when [-nodebug] is not
    given. *)
Theorem copyExecs_debugsm goos cfg w m d mt :
  goos <> linux -> apart (runsmFolder cfg) (targetFolder cfg) ->
  w_fs w !! binexe goos (runsmFolder cfg ++ ["runsm"]) = Some (NFile m d) ->
  w_fs w !! targetFolder cfg = Some (NDir mt) ->
  w_fs w !! binexe goos (targetFolder cfg ++ ["debugsm"]) = None ->
  exists w', copyExecs goos cfg w = Ok tt w' /\
    (is_Some (w_fs w' !! binexe goos (targetFolder cfg ++ ["debugsm"])) <-> nodebug cfg = false).
Proof.
  intros Hl Hap Hrun Ht Hdbg. unfold copyExecs. rewrite decide_False by done.
  unfold m_bind at 1. cbn [emit w_fs w_events].
  drop_exec H1. drop_exec H2. drop_exec H3. drop_exec H4.
  assert (Hfr : forall K, K <> binexe goos (targetFolder cfg ++ ["caddy"; caddy]) ->
            K <> targetFolder cfg ++ ["caddy"; caddy] ->
            K <> binexe goos (targetFolder cfg ++ ["caddy"; ebcfetch]) ->
            K <> targetFolder cfg ++ ["caddy"; ebcfetch] ->
            K <> binexe goos (targetFolder cfg ++ [smpatch]) -> K <> targetFolder cfg ++ [smpatch] ->
            K <> binexe goos (targetFolder cfg ++ ["runsm"]) -> K <> targetFolder cfg ++ ["runsm"] ->
            w_fs w3 !! K = w_fs w !! K).
  { intros K ????????.
    by rewrite (copyExec_frame _ _ _ _ _ K H4), (copyExec_frame _ _ _ _ _ K H3),
      (copyExec_frame _ _ _ _ _ K H2), (copyExec_frame _ _ _ _ _ K H1). }
  assert (Hdbg3 : w_fs w3 !! binexe goos (targetFolder cfg ++ ["debugsm"]) = None)
    by (rewrite Hfr; [done|..]; neq_exec).
  destruct (nodebug cfg); cbn [negb].
  - eexists. split; [reflexivity|]. rewrite Hdbg3. split; [by intros []|done].
  - destruct (copyExec_total goos (runsmFolder cfg ++ ["runsm"]) (targetFolder cfg ++ ["debugsm"]) w3)
      as [w5 H5].
    exists w5. split; [done|]. split; [done|intros _].
    assert (Hrun3 : w_fs w3 !! binexe goos (runsmFolder cfg ++ ["runsm"]) = Some (NFile m d))
      by (rewrite Hfr; [done|..]; neq_exec).
    assert (Hp : parent_dir (w_fs w3) (binexe goos (targetFolder cfg ++ ["debugsm"]))).
    { rewrite binexe_app by discriminate.
      exists (targetFolder cfg), (if decide (goos = windows) then ("debugsm" ++ ".exe")%string else "debugsm"), mt.
      split.
      - unfold binexe. destruct (decide (goos = windows)); reflexivity.
      - rewrite Hfr; [done|..]; neq_exec. }
    assert (Hne : binexe goos (runsmFolder cfg ++ ["runsm"]) <> binexe goos (targetFolder cfg ++ ["debugsm"]))
      by neq_exec.
    destruct (copyExec_lands _ _ _ _ _ m d Hrun3 Hne Hdbg3 Hp H5) as [mode Hm].
    by rewrite Hm.
Qed.

Definition ex_exec_fs : FS :=
  list_to_map [([], NDir 493); (["runsm"], NDir 493); (["runsm"; "runsm"], NFile 493 "bin");
               (["inst"], NDir 511)].

Lemma copyExecs_debugsm_witness :
  exists w', copyExecs darwin ex_cfg (mkWorld ex_exec_fs []) = Ok tt w' /\
    (is_Some (w_fs w' !! binexe darwin (targetFolder ex_cfg ++ ["debugsm"])) <-> nodebug ex_cfg = false).
Proof.
  apply (copyExecs_debugsm darwin ex_cfg (mkWorld ex_exec_fs []) 493 "bin" 511).
  - discriminate.
  - decide_vm.
  - vm_compute. reflexivity.
  - vm_compute. reflexivity.
  - vm_compute. reflexivity.
Defined.

(* ------------------------------------------------------------------ *)
(** ** [copyPhpPackages] *)

Lemma walk_fuel_run src w : walk_fuel src w = Ok (tree_fuel (w_fs w) src) w.
Proof. reflexivity. Qed.

(** C23. The vendored packages: when [vendor] is a directory of the
    source tree and [sm/vendor] is apart from it with no file on the way
    and nothing below it, [copyPhpPackages] returns and [sm/vendor] is
    the mirror of the source's [vendor] (the walk gets [tree_fuel],
    which is enough). *)
Theorem copyPhpPackages_mirror cfg w m :
  fs_wf (w_fs w) -> apart (srcFolder cfg ++ ["vendor"]) (smFolder cfg ++ ["vendor"]) ->
  w_fs w !! (srcFolder cfg ++ ["vendor"]) = Some (NDir m) ->
  (forall k mk dk, k `prefix_of` (smFolder cfg ++ ["vendor"]) -> w_fs w !! k <> Some (NFile mk dk)) ->
  (forall x rel, w_fs w !! ((smFolder cfg ++ ["vendor"]) ++ x :: rel) = None) ->
  exists fs', copyPhpPackages cfg w = Ok tt (mkWorld fs' (w_events w ++ [ELog "Copying PHP packages"])) /\
    tree_post (w_fs w) fs' (srcFolder cfg ++ ["vendor"]) (smFolder cfg ++ ["vendor"]) m.
Proof.
  intros Hwf Hap Hsrc Hnf Hfr. unfold copyPhpPackages.
  unfold m_bind at 1. cbn [emit w_fs w_events]. rewrite (m_bind_ok _ _ _ _ _ (walk_fuel_run _ _)).
  destruct (copyFolderTree_mirror (tree_fuel (w_fs w) (srcFolder cfg ++ ["vendor"]))
              (srcFolder cfg ++ ["vendor"]) (smFolder cfg ++ ["vendor"]) m
              (tree_depth (w_fs w) (srcFolder cfg ++ ["vendor"]))
              (mkWorld (w_fs w) (w_events w ++ [ELog "Copying PHP packages"])))
    as (fs' & Hrun & Hpost); [by apply tree_pre_depth|unfold tree_fuel; lia|].
  rewrite (m_bind_ok _ _ _ _ _ Hrun). by exists fs'.
Qed.

(** A missing vendor tree is fatal: [copyPhpPackages] ends in
    [log.Fatal] with the error of [os.Stat]. *)
Theorem copyPhpPackages_missing cfg w :
  w_fs w !! (srcFolder cfg ++ ["vendor"]) = None ->
  copyPhpPackages cfg w =
    Fatal ("*** FAILED copying folder: " ++ oserror_text (ENOENT (srcFolder cfg ++ ["vendor"])))%string
          (mkWorld (w_fs w) (w_events w ++ [ELog "Copying PHP packages"])).
Proof.
  intros Hsrc. unfold copyPhpPackages.
  unfold m_bind at 1. cbn [emit w_fs w_events]. rewrite (m_bind_ok _ _ _ _ _ (walk_fuel_run _ _)).
  unfold tree_fuel, m_bind at 1. rewrite copyFolderTree_S. cbn [w_fs]. by rewrite Hsrc.
Qed.

Definition ex_vendor_fs : FS :=
  list_to_map [([], NDir 493); (["sm3"], NDir 493); (["sm3"; "vendor"], NDir 493);
               (["sm3"; "vendor"; "autoload.php"], NFile 420 "<?php");
               (["sm3"; "vendor"; "lib"], NDir 493); (["sm3"; "vendor"; "lib"; "x.php"], NFile 420 "x");
               (["inst"], NDir 511); (["inst"; "sm"], NDir 511)].

Lemma copyPhpPackages_mirror_witness :
  exists fs', copyPhpPackages ex_cfg (mkWorld ex_vendor_fs []) =
                Ok tt (mkWorld fs' ([] ++ [ELog "Copying PHP packages"])) /\
    tree_post ex_vendor_fs fs' (srcFolder ex_cfg ++ ["vendor"]) (smFolder ex_cfg ++ ["vendor"]) 493.
Proof.
  apply (copyPhpPackages_mirror ex_cfg (mkWorld ex_vendor_fs []) 493).
  - apply fs_wfb_sound. vm_compute. reflexivity.
  - decide_vm.
  - vm_compute. reflexivity.
  - apply nofile_on_sound. vm_compute. reflexivity.
  - apply nothing_below_sound. vm_compute. reflexivity.
Defined.

Lemma copyPhpPackages_missing_witness :
  copyPhpPackages ex_cfg (mkWorld (delete ["sm3"; "vendor"] ex_jodit_fs) []) =
    Fatal ("*** FAILED copying folder: " ++ oserror_text (ENOENT (srcFolder ex_cfg ++ ["vendor"])))%string
          (mkWorld (delete ["sm3"; "vendor"] ex_jodit_fs) ([] ++ [ELog "Copying PHP packages"])).
Proof.
  refine (copyPhpPackages_missing ex_cfg (mkWorld (delete ["sm3"; "vendor"] ex_jodit_fs) []) _).
  vm_compute. reflexivity.
Defined.

(* ------------------------------------------------------------------ *)
(** ** [generateHelp] *)

(** C25. The generated help: when the help source satisfies the
    conditions of the walk, [generateHelp] returns, and [sm/help] holds
    every page of the source with [.md] turned into [.hlp] and the bytes
    unchanged, every other file unchanged in name and bytes, and
    nothing outside it changed. *)
Theorem generateHelp_mirror cfg w :
  help_pre (w_fs w) (srcFolder cfg ++ [helpFolder]) ((targetFolder cfg ++ ["sm"]) ++ [helpFolder])
           (tree_depth (w_fs w) (srcFolder cfg ++ [helpFolder])) ->
  exists fs', generateHelp cfg w = Ok tt (mkWorld fs' (w_events w ++ [ELog "Generating help"])) /\
    help_post (w_fs w) fs' (srcFolder cfg ++ [helpFolder]) ((targetFolder cfg ++ ["sm"]) ++ [helpFolder]).
Proof.
  intros Hpre. unfold generateHelp. unfold m_bind at 1. cbn [emit w_fs w_events].
  rewrite (m_bind_ok _ _ _ _ _ (walk_fuel_run _ _)). cbn [w_fs].
  destruct (copyHelp_mirror (tree_fuel (w_fs w) (srcFolder cfg ++ [helpFolder])) (srcFolder cfg)
              (targetFolder cfg ++ ["sm"]) helpFolder _
              (mkWorld (w_fs w) (w_events w ++ [ELog "Generating help"])) Hpre)
    as (fs' & Hrun & Hpost); [unfold tree_fuel; lia|].
  rewrite (m_bind_ok _ _ _ _ _ Hrun). by exists fs'.
Qed.

(** A help source under [sm3] and an installation with [sm]. *)
Definition ex_gen_fs : FS :=
  list_to_map [([], NDir 493); (["sm3"], NDir 493); (["sm3"; "help"], NDir 493);
               (["sm3"; "help"; "guide.md"], NFile 420 "# Guide");
               (["sm3"; "help"; "pic.png"], NFile 420 "PNG");
               (["inst"], NDir 511); (["inst"; "sm"], NDir 511)].

Lemma generateHelp_mirror_witness :
  exists fs', generateHelp ex_cfg (mkWorld ex_gen_fs []) = Ok tt (mkWorld fs' ([] ++ [ELog "Generating help"])) /\
    help_post ex_gen_fs fs' (srcFolder ex_cfg ++ [helpFolder]) ((targetFolder ex_cfg ++ ["sm"]) ++ [helpFolder]).
Proof.
  apply (generateHelp_mirror ex_cfg (mkWorld ex_gen_fs [])).
  split.
  - apply fs_wfb_sound. vm_compute. reflexivity.
  - decide_vm.
  - exists 493%N. vm_compute. reflexivity.
  - vm_compute. reflexivity.
  - exists ["inst"; "sm"], "help", 511%N. split; [reflexivity|vm_compute; reflexivity].
  - decide_vm.
  - apply dirs_no_md_sound. vm_compute. reflexivity.
  - apply siblings_apart_sound. vm_compute. reflexivity.
  - intros rel n. apply tree_depth_bound.
Defined.

(** The example of the specification, run: the help page
    [guide.md] is installed as [guide.hlp] with its bytes, [pic.png]
    keeps its name and bytes, and no [guide.md] is left in the
    installation. *)
Example generateHelp_example :
  match generateHelp ex_cfg (mkWorld ex_gen_fs []) with
  | Ok _ w' => w_fs w' !! ["inst"; "sm"; "help"; "guide.hlp"] = Some (NFile mode_create "# Guide") /\
               w_fs w' !! ["inst"; "sm"; "help"; "pic.png"] = Some (NFile mode_create "PNG") /\
               w_fs w' !! ["inst"; "sm"; "help"; "guide.md"] = None
  | _ => False
  end.
Proof. vm_compute. split_and!; reflexivity. Qed.

(* ------------------------------------------------------------------ *)
(** ** [copyPHP] *)

Section PhpSpec.
Context (goos : GOOS) (cfg : Config).

(** The paths [copyPHP] names. *)
Definition php_cgi_src : path := srcFolder cfg ++ [utilsFolder; phpcgi].
Definition php_cgi_dst : path := targetFolder cfg ++ ["php"; "php-cgi"].
Definition php_ini_src : path := srcFolder cfg ++ ["php"; "php.ini"].
Definition php_ini_dst : path := targetFolder cfg ++ ["php"; "php.ini"].

(** What [copyPHP] installs off Windows: the CGI binary, executable,
    where the platform is not Linux and the source has one, then
    [php.ini] as [copyFile] leaves it. *)
Definition php_unix_fs (fs : FS) : FS :=
  let fs1 := if decide (goos = linux) then fs else
    match fs !! php_cgi_src with
    | Some (NFile _ d) => <[php_cgi_dst := NFile mode_exec d]> fs
    | _ => fs
    end in
  copied_fs fs1 php_ini_src php_ini_dst.

Lemma php_ini_ne : srcFolder cfg <> targetFolder cfg -> php_ini_src <> php_ini_dst.
Proof. intros Hne Heq. apply Hne. by apply app_inv_tail in Heq. Qed.

Lemma php_cgi_ne : php_cgi_src <> php_cgi_dst.
Proof.
  unfold php_cgi_src, php_cgi_dst. intros Heq.
  assert (H : (srcFolder cfg ++ [utilsFolder]) ++ [phpcgi] = (targetFolder cfg ++ ["php"]) ++ ["php-cgi"])
    by (rewrite <-!app_assoc; exact Heq).
  apply app_inj_tail in H as [H _]. apply app_inj_tail in H as [_ H]. discriminate.
Qed.

(** The last step of [copyPHP]: [php.ini] through [copyFile] when it
    exists. *)
Lemma copyPHP_ini w :
  srcFolder cfg <> targetFolder cfg ->
  (st <- os_stat php_ini_src ;;
   match st with
   | Some _ => _ <- copyFile php_ini_src php_ini_dst ;; m_ret tt
   | None => m_ret tt
   end) w = Ok tt (mkWorld (copied_fs (w_fs w) php_ini_src php_ini_dst) (w_events w)).
Proof.
  intros Hne. unfold m_bind at 1, os_stat.
  destruct (w_fs w !! php_ini_src) eqn:Hini.
  - destruct (copyFile_fs php_ini_src php_ini_dst w) as [r Hr]; [by apply php_ini_ne|].
    by rewrite (m_bind_ok _ _ _ _ _ Hr).
  - rewrite copied_fs_skip by (intros ??; by rewrite Hini). by destruct w.
Qed.

(** The CGI step off Windows: [copyExec] of the binary into the
    installation's [php] folder when [os.Stat] finds it. *)
Lemma copyPHP_cgi w m :
  goos <> windows -> w_fs w !! (targetFolder cfg ++ ["php"]) = Some (NDir m) ->
  w_fs w !! php_cgi_dst = None ->
  (st <- os_stat php_cgi_src ;;
   match st with
   | Some _ => copyExec goos php_cgi_src php_cgi_dst
   | None => m_ret tt
   end) w =
  Ok tt (mkWorld (match w_fs w !! php_cgi_src with
                  | Some (NFile _ d) => <[php_cgi_dst := NFile mode_exec d]> (w_fs w)
                  | _ => w_fs w
                  end) (w_events w)).
Proof.
  intros Hw Hphp Hdst. unfold m_bind at 1, os_stat.
  destruct (w_fs w !! php_cgi_src) as [[md|mf d]|] eqn:Hsrc; [| |by destruct w].
  - unfold copyExec, binexe. rewrite decide_False by done.
    rewrite (m_bind_ok _ _ _ _ _ (copyFile_notreg _ _ _ _ Hsrc)).
    unfold m_bind, os_chmod, lift_fs, fs_chmod. rewrite Hdst. by destruct w.
  - assert (Hb : forall p, binexe goos p = p) by (intros p; unfold binexe; by rewrite decide_False).
    pose proof (copyExec_mode goos php_cgi_src php_cgi_dst w mf d) as Hrun.
    rewrite !Hb, decide_False in Hrun by done. apply Hrun; [done|apply php_cgi_ne|done| |done|].
    + exists (targetFolder cfg ++ ["php"]), "php-cgi", m. split; [|done].
      unfold php_cgi_dst. by rewrite <-app_assoc.
    + unfold php_cgi_dst. by destruct (targetFolder cfg).
Qed.
End PhpSpec.

(** C26. [copyPHP] off Windows: with the installation's [php] folder
    made and no CGI binary there yet, the run returns, logs nothing, and
    leaves exactly [php_unix_fs]: the CGI binary with mode 0755 when the
    platform is not Linux and the source has one as a regular file,
    then [php.ini] copied when the source has it. *)
Theorem copyPHP_unix goos cfg w m :
  goos <> windows -> srcFolder cfg <> targetFolder cfg ->
  w_fs w !! (targetFolder cfg ++ ["php"]) = Some (NDir m) ->
  w_fs w !! php_cgi_dst cfg = None ->
  copyPHP goos cfg w = Ok tt (mkWorld (php_unix_fs goos cfg (w_fs w)) (w_events w)).
Proof.
  intros Hw Hne Hphp Hdst. unfold copyPHP, php_unix_fs. rewrite decide_False by done.
  destruct (decide (goos = linux)) as [Hl|Hl].
  - rewrite decide_False by naive_solver.
    rewrite (m_bind_ok (m_ret tt) _ w tt w eq_refl). exact (copyPHP_ini cfg w Hne).
  - rewrite decide_True by done.
    rewrite (m_bind_ok _ _ _ _ _ (copyPHP_cgi goos cfg w m Hw Hphp Hdst)).
    exact (copyPHP_ini cfg _ Hne).
Qed.

(** C27. [copyPHP] on Windows: when the PHP installation is a folder
    apart from the installation's [php] folder, which has nothing below
    it and no file on the way, the run logs "Copying PHP from", mirrors
    the PHP installation into [php] (the walk gets [tree_fuel], which is
    enough), and then copies [php.ini] over the mirrored tree. *)
Theorem copyPHP_windows goos cfg w m :
  goos = windows -> srcFolder cfg <> targetFolder cfg ->
  fs_wf (w_fs w) -> apart (phpFolder cfg) (targetFolder cfg ++ ["php"]) ->
  w_fs w !! phpFolder cfg = Some (NDir m) ->
  (forall k mk dk, k `prefix_of` (targetFolder cfg ++ ["php"]) -> w_fs w !! k <> Some (NFile mk dk)) ->
  (forall x rel, w_fs w !! ((targetFolder cfg ++ ["php"]) ++ x :: rel) = None) ->
  exists fs', copyPHP goos cfg w =
    Ok tt (mkWorld (copied_fs fs' (php_ini_src cfg) (php_ini_dst cfg))
                   (w_events w ++ [ELog ("Copying PHP from " ++ show_path (phpFolder cfg))%string])) /\
    tree_post (w_fs w) fs' (phpFolder cfg) (targetFolder cfg ++ ["php"]) m.
Proof.
  intros Hw Hne Hwf Hap Hsrc Hnf Hfr. unfold copyPHP. rewrite decide_True by done.
  destruct (copyFolderTree_mirror (tree_fuel (w_fs w) (phpFolder cfg)) (phpFolder cfg)
              (targetFolder cfg ++ ["php"]) m (tree_depth (w_fs w) (phpFolder cfg))
              (mkWorld (w_fs w) (w_events w ++ [ELog ("Copying PHP from " ++ show_path (phpFolder cfg))%string])))
    as (fs' & Hrun & Hpost); [by apply tree_pre_depth|unfold tree_fuel; lia|].
  exists fs'. split; [|done].
  rewrite m_bind_assoc. unfold m_bind at 1. cbn [emit w_fs w_events].
  rewrite m_bind_assoc, (m_bind_ok _ _ _ _ _ (walk_fuel_run _ _)).
  rewrite m_bind_assoc, (m_bind_ok _ _ _ _ _ Hrun). cbn.
  exact (copyPHP_ini cfg _ Hne).
Qed.

(** C28. A missing PHP installation on Windows is fatal: [copyPHP] ends
    in [log.Fatalf] with the error of [os.Stat], after its log line and
    before any write. *)
Theorem copyPHP_windows_missing goos cfg w :
  goos = windows -> w_fs w !! phpFolder cfg = None ->
  copyPHP goos cfg w =
    Fatal ("*** FAILED copying folder: " ++ oserror_text (ENOENT (phpFolder cfg)))%string
          (mkWorld (w_fs w) (w_events w ++ [ELog ("Copying PHP from " ++ show_path (phpFolder cfg))%string])).
Proof.
  intros Hw Hsrc. unfold copyPHP. rewrite decide_True by done.
  rewrite m_bind_assoc. unfold m_bind at 1. cbn [emit w_fs w_events].
  rewrite m_bind_assoc, (m_bind_ok _ _ _ _ _ (walk_fuel_run _ _)).
  unfold tree_fuel. rewrite m_bind_assoc. unfold m_bind at 1. rewrite copyFolderTree_S. cbn [w_fs].
  by rewrite Hsrc.
Qed.

(** A PHP installation, the CGI binary and [php.ini] in the source, and
    an installation whose [php] folder is made. *)
Definition ex_php_fs : FS :=
  list_to_map [([], NDir 493); (["sm3"], NDir 493); (["sm3"; "utils"], NDir 493);
               (["sm3"; "utils"; "php-cgi"], NFile 493 "CGI");
               (["sm3"; "php"], NDir 493); (["sm3"; "php"; "php.ini"], NFile 420 "ini");
               (["PHP"], NDir 493); (["PHP"; "php.exe"], NFile 420 "EXE");
               (["PHP"; "ext"], NDir 493); (["PHP"; "ext"; "x.dll"], NFile 420 "DLL");
               (["inst"], NDir 511); (["inst"; "php"], NDir 511)].

Lemma copyPHP_unix_witness :
  copyPHP darwin ex_cfg (mkWorld ex_php_fs []) = Ok tt (mkWorld (php_unix_fs darwin ex_cfg ex_php_fs) []).
Proof.
  apply (copyPHP_unix darwin ex_cfg (mkWorld ex_php_fs []) 511).
  - discriminate.
  - cbn. congruence.
  - vm_compute. reflexivity.
  - vm_compute. reflexivity.
Defined.

Lemma copyPHP_windows_witness :
  exists fs', copyPHP windows ex_cfg (mkWorld ex_php_fs []) =
    Ok tt (mkWorld (copied_fs fs' (php_ini_src ex_cfg) (php_ini_dst ex_cfg))
                   ([] ++ [ELog ("Copying PHP from " ++ show_path (phpFolder ex_cfg))%string])) /\
    tree_post ex_php_fs fs' (phpFolder ex_cfg) (targetFolder ex_cfg ++ ["php"]) 493.
Proof.
  apply (copyPHP_windows windows ex_cfg (mkWorld ex_php_fs []) 493).
  - reflexivity.
  - cbn. congruence.
  - apply fs_wfb_sound. vm_compute. reflexivity.
  - decide_vm.
  - vm_compute. reflexivity.
  - apply nofile_on_sound. vm_compute. reflexivity.
  - apply nothing_below_sound. vm_compute. reflexivity.
Defined.

Lemma copyPHP_windows_missing_witness :
  copyPHP windows ex_cfg (mkWorld (delete ["PHP"] ex_php_fs) []) =
    Fatal ("*** FAILED copying folder: " ++ oserror_text (ENOENT (phpFolder ex_cfg)))%string
          (mkWorld (delete ["PHP"] ex_php_fs) ([] ++ [ELog ("Copying PHP from " ++ show_path (phpFolder ex_cfg))%string])).
Proof.
  refine (copyPHP_windows_missing windows ex_cfg (mkWorld (delete ["PHP"] ex_php_fs) []) eq_refl _).
  vm_compute. reflexivity.
Defined.

(** The run off Windows, on a concrete tree: on macOS the CGI
    binary lands in the installation's [php] folder with mode 0755 and
    [php.ini] is copied with mode 0666; on Linux only [php.ini] is. *)
Example copyPHP_example :
  (match copyPHP darwin ex_cfg (mkWorld ex_php_fs []) with
   | Ok _ w' => w_fs w' !! ["inst"; "php"; "php-cgi"] = Some (NFile mode_exec "CGI") /\
                w_fs w' !! ["inst"; "php"; "php.ini"] = Some (NFile mode_create "ini")
   | _ => False
   end) /\
  (match copyPHP linux ex_cfg (mkWorld ex_php_fs []) with
   | Ok _ w' => w_fs w' !! ["inst"; "php"; "php-cgi"] = None /\
                w_fs w' !! ["inst"; "php"; "php.ini"] = Some (NFile mode_create "ini")
   | _ => False
   end).
Proof. vm_compute. split_and!; reflexivity. Qed.
