(* ===== verification/Run.v ===== *)
(** * Run: a run of [main] always ends

    [main] is a straight sequence of steps; the only loops that are not
    bounded by a list are the two recursive walks, [copyFolderTree]
    (the PHP installation on Windows, the vendored packages) and
    [copyHelp] (the help tree).  Each walk gets [tree_fuel] of the file
    system at the moment it starts.  This file proves that this fuel is
    always enough when each walk's destination is apart from its source,
    so a run of [main] either finishes or stops at a [log.Fatal]; it
    never recurses without end.  The steps are taken apart by the
    [ends_auto] tactic of the prelude, each primitive closed by its
    [total] lemma.  The second part shows, in the same way with
    [keeps_auto], that every step keeps the file system well formed
    ([fs_wf]), whether the run finishes or stops ([main_keeps_wf]). *)

From stdpp Require Import base list gmap strings sorting.
From Stdlib Require Import String.
From S2P Require Import Prelude FileSystem Copier Help Selector Database Prereq Assembler.

(* ------------------------------------------------------------------ *)
(** ** The primitives return *)

Lemma lift_fs_total f : total (lift_fs f).
Proof. intros w. unfold lift_fs. destruct (f (w_fs w)); eauto. Qed.

Lemma os_append_total p s : total (os_append p s).
Proof. intros w. eauto. Qed.

Lemma os_remove_all_total p : total (os_remove_all p).
Proof. intros w. eauto. Qed.

Lemma os_stat_total p : total (os_stat p).
Proof. intros w. eauto. Qed.

Lemma os_read_or_empty_total p : total (os_read_or_empty p).
Proof. intros w. eauto. Qed.

Lemma m_get_total : total (S := world) m_get.
Proof. intros w. eauto. Qed.

Lemma copyFile_total' src dst : total (copyFile src dst).
Proof. intros w. apply copyFile_total. Qed.

Lemma copyExec_total' goos src dst : total (copyExec goos src dst).
Proof. intros w. destruct (copyExec_total goos src dst w). eauto. Qed.

Lemma os_mkdir_total p m : total (os_mkdir p m).
Proof. apply lift_fs_total. Qed.

Lemma os_create_total p : total (os_create p).
Proof. apply lift_fs_total. Qed.

Lemma os_chmod_total p m : total (os_chmod p m).
Proof. apply lift_fs_total. Qed.

Lemma os_read_dir_total p : total (os_read_dir p).
Proof. intros w. eauto. Qed.

#[local] Hint Resolve lift_fs_total os_append_total os_remove_all_total os_stat_total
  os_read_or_empty_total m_get_total copyFile_total' copyExec_total' print_err_total
  os_mkdir_total os_create_total os_chmod_total os_read_dir_total emit_total : makesm.

(* ------------------------------------------------------------------ *)
(** ** The steps end *)

Lemma makeFolder_ends p : ends (makeFolder p).
Proof. unfold makeFolder, establishFolder. ends_auto. Qed.

Lemma checkPrerequisites_ends goos cfg : ends (checkPrerequisites goos cfg).
Proof. intros w _. rewrite checkPrerequisites_run. by case_decide. Qed.

#[local] Hint Resolve makeFolder_ends checkPrerequisites_ends : makesm.

Section Steps.
Context `{!SqlEngine} (goos : GOOS) (cfg : Config).

Lemma main_start_ends : ends (main_start goos cfg).
Proof. unfold main_start, zapTarget. ends_auto. Qed.

Lemma buildFolders_ends : ends (buildFolders cfg).
Proof. unfold buildFolders. ends_auto. Qed.

Lemma writeReadme_ends : ends (writeReadme goos cfg).
Proof. unfold writeReadme. ends_auto. Qed.

Lemma copyDatabase_ends : ends (copyDatabase goos cfg).
Proof. unfold copyDatabase, loadSQL. ends_auto. Qed.

Lemma copySMFiles_ends : ends (copySMFiles cfg).
Proof. unfold copySMFiles. ends_auto. Qed.

Lemma copyExecs_ends : ends (copyExecs goos cfg).
Proof. unfold copyExecs. ends_auto. Qed.

Lemma copyImages_ends : ends (copyImages cfg).
Proof. unfold copyImages, copyImageSet. ends_auto. Qed.

Lemma copyJodit_ends : ends (copyJodit cfg).
Proof. unfold copyJodit. ends_auto. Qed.
End Steps.

(* ------------------------------------------------------------------ *)
(** ** The walks end when their destination is apart from the source *)

Lemma ends_in_then {A B} (P : world -> Prop) (Q : A -> world -> Prop) c (k : A -> M world B) :
  ends_in P c Q -> (forall a, ends (k a)) -> ends_in P (m_bind c k) (fun _ _ => True).
Proof.
  intros Hc Hk. apply (ends_in_bind _ Q); [done|]. intros a.
  eapply ends_in_conseq; [apply Hk|done|done].
Qed.

(** [walk_fuel] reads the fuel from the state the walk starts in. *)
Lemma walk_ends {A} src (k : nat -> M world A) :
  (forall w, ends_in (eq w) (k (tree_fuel (w_fs w) src)) (fun _ _ => True)) ->
  ends (m_bind (walk_fuel src) k).
Proof. intros H w _. unfold m_bind at 1. rewrite walk_fuel_run. by apply H. Qed.

Lemma walk_tree_ends {A} src dst (k : option oserror -> M world A) :
  apart src dst -> (forall e, ends (k e)) ->
  ends (fuel <- walk_fuel src ;; e <- copyFolderTree fuel src dst ;; k e).
Proof.
  intros Hap Hk. apply walk_ends. intros w. eapply ends_in_then; [|done].
  apply copyFolderTree_ends; [done|unfold tree_fuel; lia|apply tree_fuel_dir_bound].
Qed.

Lemma walk_help_ends {A} sp dp f (k : option oserror -> M world A) :
  apart (sp ++ [f]) (dp ++ [f]) -> (forall e, ends (k e)) ->
  ends (fuel <- walk_fuel (sp ++ [f]) ;; e <- copyHelp fuel sp dp f ;; k e).
Proof.
  intros Hap Hk. apply walk_ends. intros w. eapply ends_in_then; [|done].
  apply copyHelp_ends; [done|unfold tree_fuel; lia|apply tree_fuel_dir_bound].
Qed.

Section Walks.
Context (goos : GOOS) (cfg : Config).

Lemma copyPHP_ends :
  (goos = windows -> apart (phpFolder cfg) (targetFolder cfg ++ ["php"])) -> ends (copyPHP goos cfg).
Proof.
  intros Hap. unfold copyPHP. apply ends_bind; [|intros; ends_auto]. case_decide.
  - apply ends_bind; [ends_auto|intros _]. apply walk_tree_ends; [auto|intros; ends_auto].
  - ends_auto.
Qed.

Lemma copyPhpPackages_ends :
  apart (srcFolder cfg ++ ["vendor"]) (smFolder cfg ++ ["vendor"]) -> ends (copyPhpPackages cfg).
Proof.
  intros Hap. unfold copyPhpPackages. apply ends_bind; [ends_auto|intros _].
  apply walk_tree_ends; [done|intros; ends_auto].
Qed.

Lemma generateHelp_ends :
  apart (srcFolder cfg ++ [helpFolder]) ((targetFolder cfg ++ ["sm"]) ++ [helpFolder]) ->
  ends (generateHelp cfg).
Proof.
  intros Hap. unfold generateHelp. apply ends_bind; [ends_auto|intros _].
  apply walk_help_ends; [done|intros; ends_auto].
Qed.
End Walks.

(* ------------------------------------------------------------------ *)
(** ** [main] ends *)

(** C30. A run of [main] always ends: it finishes or stops at a
    [log.Fatal], and never recurses without end, whenever the PHP
    installation (on Windows), the vendored packages and the help tree
    are each apart from where they are copied.  The fuel [tree_fuel]
    each walk gets from the state it starts in is always enough. *)
Theorem main_ends `{!SqlEngine} goos cfg w :
  (goos = windows -> apart (phpFolder cfg) (targetFolder cfg ++ ["php"])) ->
  apart (srcFolder cfg ++ ["vendor"]) (smFolder cfg ++ ["vendor"]) ->
  apart (srcFolder cfg ++ [helpFolder]) ((targetFolder cfg ++ ["sm"]) ++ [helpFolder]) ->
  main goos cfg w <> NoFuel.
Proof.
  intros Hphp Hvendor Hhelp. apply ends_never_nofuel.
  pose proof (copyPHP_ends goos cfg Hphp). pose proof (copyPhpPackages_ends cfg Hvendor).
  pose proof (generateHelp_ends cfg Hhelp).
  unfold main, populate.
  repeat first
    [ solve [auto using main_start_ends, buildFolders_ends, writeReadme_ends, copyDatabase_ends,
               copySMFiles_ends, copyExecs_ends, copyImages_ends, copyJodit_ends with makesm]
    | apply total_ends, emit_total
    | apply ends_bind; [|intros _] ].
Qed.

#[local] Existing Instance ex_engine.

Lemma main_ends_witness :
  apart (srcFolder ex_cfg ++ ["vendor"]) (smFolder ex_cfg ++ ["vendor"]) /\
  main windows ex_cfg (mkWorld ex_main_fs []) <> NoFuel.
Proof.
  assert (Hv : apart (srcFolder ex_cfg ++ ["vendor"]) (smFolder ex_cfg ++ ["vendor"])) by decide_vm.
  split; [exact Hv|]. apply main_ends; [intros _; decide_vm|exact Hv|decide_vm].
Defined.

(* ------------------------------------------------------------------ *)
(** ** Every run leaves a well-formed file system *)

(** The state invariant: every entry's parent is a directory. *)
Definition wf_world (w : world) : Prop := fs_wf (w_fs w).

Lemma lift_fs_keeps f :
  (forall fs fs', fs_wf fs -> f fs = inr fs' -> fs_wf fs') -> keeps wf_world (lift_fs f).
Proof. intros Hf w Hw. unfold lift_fs. destruct (f (w_fs w)) eqn:E; [done|]. by eapply Hf. Qed.

(** A step that does not touch the file system. *)
Lemma same_fs_keeps {A} (c : M world A) :
  (forall w, match c w with Ok _ w' | Fatal _ w' => w_fs w' = w_fs w | NoFuel => True end) ->
  keeps wf_world c.
Proof. intros H w Hw. specialize (H w). destruct (c w); [by unfold wf_world; rewrite H..|done]. Qed.

Lemma emit_keeps e : keeps wf_world (emit e).
Proof. by apply same_fs_keeps. Qed.

Lemma os_stat_keeps p : keeps wf_world (os_stat p).
Proof. by apply same_fs_keeps. Qed.

Lemma os_read_dir_keeps p : keeps wf_world (os_read_dir p).
Proof. by apply same_fs_keeps. Qed.

Lemma os_read_or_empty_keeps p : keeps wf_world (os_read_or_empty p).
Proof. by apply same_fs_keeps. Qed.

Lemma m_get_keeps : keeps wf_world m_get.
Proof. by apply same_fs_keeps. Qed.

Lemma os_append_keeps p s : keeps wf_world (os_append p s).
Proof. intros w Hw. by apply fs_append_wf. Qed.

Lemma os_mkdir_keeps p m : keeps wf_world (os_mkdir p m).
Proof. apply lift_fs_keeps. intros. by eapply fs_mkdir_wf. Qed.

Lemma os_mkdir_all_keeps p m : keeps wf_world (os_mkdir_all p m).
Proof. apply lift_fs_keeps. intros. by eapply fs_mkdir_all_wf. Qed.

Lemma os_create_keeps p : keeps wf_world (os_create p).
Proof. apply lift_fs_keeps. intros. by eapply fs_create_wf. Qed.

Lemma os_chmod_keeps p m : keeps wf_world (os_chmod p m).
Proof. apply lift_fs_keeps. intros. by eapply fs_chmod_wf. Qed.

Lemma copyFile_keeps src dst : keeps wf_world (copyFile src dst).
Proof.
  intros w Hw. destruct (copyFile_total src dst w) as (r & w' & H). rewrite H. by eapply copyFile_wf.
Qed.

Lemma checkPrerequisites_keeps goos cfg : keeps wf_world (checkPrerequisites goos cfg).
Proof. apply same_fs_keeps. intros w. rewrite checkPrerequisites_run. by case_decide. Qed.

#[local] Hint Resolve emit_keeps os_stat_keeps os_read_dir_keeps os_read_or_empty_keeps m_get_keeps
  os_append_keeps os_mkdir_keeps os_mkdir_all_keeps os_create_keeps os_chmod_keeps copyFile_keeps
  checkPrerequisites_keeps : makesm.

Lemma print_err_keeps e : keeps wf_world (print_err e).
Proof. unfold print_err. keeps_auto. Qed.

Lemma makeFolder_keeps p : keeps wf_world (makeFolder p).
Proof. unfold makeFolder, establishFolder. keeps_auto. Qed.

Lemma copyExec_keeps goos src dst : keeps wf_world (copyExec goos src dst).
Proof. unfold copyExec. keeps_auto. Qed.

#[local] Hint Resolve print_err_keeps makeFolder_keeps copyExec_keeps : makesm.

Lemma copyFolderTree_keeps fuel src dst : keeps wf_world (copyFolderTree fuel src dst).
Proof.
  revert src dst. induction fuel as [|n IH]; intros src dst; cbn [copyFolderTree]; keeps_auto.
Qed.

Lemma copyHelp_keeps fuel sp dp f : keeps wf_world (copyHelp fuel sp dp f).
Proof.
  revert sp dp f. induction fuel as [|n IH]; intros sp dp f; cbn [copyHelp]; unfold copyMarkdown; keeps_auto.
Qed.

#[local] Hint Resolve copyFolderTree_keeps copyHelp_keeps : makesm.

Section MainWf.
Context `{!SqlEngine} (goos : GOOS) (cfg : Config).

Lemma main_start_keeps : keeps wf_world (main_start goos cfg).
Proof.
  unfold main_start, zapTarget. keeps_auto.
  intros w Hw. apply fs_remove_all_wf; [congruence|done].
Qed.

Lemma populate_keeps : keeps wf_world (populate goos cfg).
Proof.
  unfold populate, writeReadme, copyPHP, copyDatabase, loadSQL, copySMFiles, copyExecs,
    copyImages, copyImageSet, copyJodit, copyPhpPackages, generateHelp, walk_fuel.
  keeps_auto.
Qed.
End MainWf.

(** The file system stays well formed: from a file system where
    every entry's parent is a directory, every run of [main], whether it
    finishes or stops at a [log.Fatal], leaves one that is still so. *)
Theorem main_keeps_wf `{!SqlEngine} goos cfg w :
  fs_wf (w_fs w) ->
  match main goos cfg w with Ok _ w' | Fatal _ w' => fs_wf (w_fs w') | NoFuel => True end.
Proof.
  apply (keeps_bind wf_world); [apply main_start_keeps|intros _].
  apply keeps_bind; [unfold buildFolders; keeps_auto|intros _]. apply populate_keeps.
Qed.

