(* ===== verification/Flags.v ===== *)
(** * Flags: the command line of [makesm]

    The eleven flags of [makesm.go] (lines 57-67) are declared with
    [flag.String] and [flag.Bool]; [main] calls [flag.Parse()] after its
    first log line.  This file holds the flag table (names, kinds and
    defaults), the parser with the rules of Go's [flag] package (one or
    two dashes, [-name=value] or [-name value] for string flags, an
    optional [=value] for boolean flags read by [strconv.ParseBool],
    parsing stops at the first argument that is not a flag or after
    [--], [-h] and [-help] ask for the usage, every other name is an
    error), and [makesm], the whole program on its arguments: the
    parse, then [main] on the resulting [Config].  A flag value that is
    a folder becomes a path by splitting it at [/]; a path printed with
    [show_path] reads back to itself ([path_roundtrip]).  A flag after
    the first positional argument is dropped
    ([flag_after_positional_ignored]). *)

From stdpp Require Import base list gmap strings sorting.
From Stdlib Require Import String Ascii.
From S2P Require Import Prelude FileSystem Copier Selector Database Assembler.

Local Open Scope string_scope.

(* ------------------------------------------------------------------ *)
(** ** Folder values as paths *)

(** The pieces of [s] between the separators [sep]. *)
Fixpoint split_on (sep : ascii) (s : string) : list string :=
  match s with
  | EmptyString => [EmptyString]
  | String c s' =>
      match split_on sep s' with
      | [] => [String c EmptyString]
      | seg :: segs => if Ascii.eqb c sep then EmptyString :: seg :: segs else String c seg :: segs
      end
  end.

(** A folder flag's value as a path: the empty string is no path (the
    [-target] test of [main] is on the empty string), empty pieces are
    dropped as [filepath.Join] drops them, and a leading [/] is kept as
    an empty first component. *)
Definition path_of_string (s : string) : path :=
  match s with
  | EmptyString => []
  | _ =>
      match split_on "/" s with
      | EmptyString :: segs => EmptyString :: filter (fun x => x <> EmptyString) segs
      | segs => filter (fun x => x <> EmptyString) segs
      end
  end.

(* ------------------------------------------------------------------ *)
(** ** The flag table *)

Inductive flag : Type :=
  | Fsm3 | Frunsm | Febcfetch | Fsmpatch | Fphp | Ftarget
  | Fdb | Frblr | Flang | Fok | Fnodebug.

#[export] Instance flag_eq_dec : EqDecision flag.
Proof. solve_decision. Defined.

Definition all_flags : list flag :=
  [Fsm3; Frunsm; Febcfetch; Fsmpatch; Fphp; Ftarget; Fdb; Frblr; Flang; Fok; Fnodebug].

(** The name each flag is declared with. *)
Definition flag_name (f : flag) : string :=
  match f with
  | Fsm3 => "sm3" | Frunsm => "runsm" | Febcfetch => "ebcfetch" | Fsmpatch => "smpatch"
  | Fphp => "php" | Ftarget => "target" | Fdb => "db" | Frblr => "rblr"
  | Flang => "lang" | Fok => "ok" | Fnodebug => "nodebug"
  end.

(** [flag.Bool] or [flag.String]. *)
Definition is_bool_flag (f : flag) : bool :=
  match f with Frblr | Fok | Fnodebug => true | _ => false end.

(** The lookup in the flag set. *)
Definition flag_of_name (name : string) : option flag :=
  List.find (fun f => String.eqb (flag_name f) name) all_flags.

(** The defaults: [filepath.Join("..", "sm3")] and so on, an empty
    target, the virgin database, English. *)
Definition default_config : Config :=
  mkConfig [".."; "sm3"] [".."; "runsm"] [".."; "ebcfetch"] [".."; "smpatch"] ["C:\"; "PHP"]
           [] "v" false "en" false false.

(** [Value.Set] of a string flag. *)
Definition set_string (f : flag) (v : string) (c : Config) : Config :=
  let p := path_of_string v in
  match f with
  | Fsm3 => mkConfig p (runsmFolder c) (ebcfetchFolder c) (smpatchFolder c) (phpFolder c)
                     (targetFolder c) (db2Use c) (rblr c) (lang2use c) (overwriteok c) (nodebug c)
  | Frunsm => mkConfig (srcFolder c) p (ebcfetchFolder c) (smpatchFolder c) (phpFolder c)
                       (targetFolder c) (db2Use c) (rblr c) (lang2use c) (overwriteok c) (nodebug c)
  | Febcfetch => mkConfig (srcFolder c) (runsmFolder c) p (smpatchFolder c) (phpFolder c)
                          (targetFolder c) (db2Use c) (rblr c) (lang2use c) (overwriteok c) (nodebug c)
  | Fsmpatch => mkConfig (srcFolder c) (runsmFolder c) (ebcfetchFolder c) p (phpFolder c)
                         (targetFolder c) (db2Use c) (rblr c) (lang2use c) (overwriteok c) (nodebug c)
  | Fphp => mkConfig (srcFolder c) (runsmFolder c) (ebcfetchFolder c) (smpatchFolder c) p
                     (targetFolder c) (db2Use c) (rblr c) (lang2use c) (overwriteok c) (nodebug c)
  | Ftarget => mkConfig (srcFolder c) (runsmFolder c) (ebcfetchFolder c) (smpatchFolder c) (phpFolder c)
                        p (db2Use c) (rblr c) (lang2use c) (overwriteok c) (nodebug c)
  | Fdb => mkConfig (srcFolder c) (runsmFolder c) (ebcfetchFolder c) (smpatchFolder c) (phpFolder c)
                    (targetFolder c) v (rblr c) (lang2use c) (overwriteok c) (nodebug c)
  | Flang => mkConfig (srcFolder c) (runsmFolder c) (ebcfetchFolder c) (smpatchFolder c) (phpFolder c)
                      (targetFolder c) (db2Use c) (rblr c) v (overwriteok c) (nodebug c)
  | _ => c
  end.

(** [Value.Set] of a boolean flag. *)
Definition set_bool (f : flag) (b : bool) (c : Config) : Config :=
  match f with
  | Frblr => mkConfig (srcFolder c) (runsmFolder c) (ebcfetchFolder c) (smpatchFolder c) (phpFolder c)
                      (targetFolder c) (db2Use c) b (lang2use c) (overwriteok c) (nodebug c)
  | Fok => mkConfig (srcFolder c) (runsmFolder c) (ebcfetchFolder c) (smpatchFolder c) (phpFolder c)
                    (targetFolder c) (db2Use c) (rblr c) (lang2use c) b (nodebug c)
  | Fnodebug => mkConfig (srcFolder c) (runsmFolder c) (ebcfetchFolder c) (smpatchFolder c) (phpFolder c)
                         (targetFolder c) (db2Use c) (rblr c) (lang2use c) (overwriteok c) b
  | _ => c
  end.

(* ------------------------------------------------------------------ *)
(** ** [flag.Parse] *)

Inductive flag_error : Type :=
  | BadSyntax (arg : string)          (* "bad flag syntax: %s" *)
  | UnknownFlag (name : string)       (* "flag provided but not defined: -%s" *)
  | HelpRequested                     (* -h or -help: the usage *)
  | BadBool (name value : string)     (* "invalid boolean value %q for -%s" *)
  | NeedsArgument (name : string).    (* "flag needs an argument: -%s" *)

(** [strconv.ParseBool]. *)
Definition parse_bool (v : string) : option bool :=
  if decide (v ∈ ["1"; "t"; "T"; "TRUE"; "true"; "True"]) then Some true
  else if decide (v ∈ ["0"; "f"; "F"; "FALSE"; "false"; "False"]) then Some false
  else None.

Fixpoint split_eq_go (s : string) : string * option string :=
  match s with
  | EmptyString => (EmptyString, None)
  | String c s' =>
      if Ascii.eqb c "=" then (EmptyString, Some s')
      else let '(n, v) := split_eq_go s' in (String c n, v)
  end.

(** The search for [=] in the flag's name, which starts at its second
    byte ("equals cannot be first"). *)
Definition split_eq (name : string) : string * option string :=
  match name with
  | EmptyString => (EmptyString, None)
  | String c s' => let '(n, v) := split_eq_go s' in (String c n, v)
  end.

(** What one argument is to [parseOne]. *)
Inductive arg_class : Type :=
  | NotFlag                                   (* the flags end here *)
  | EndOfFlags                                (* "--": consumed, the flags end *)
  | SyntaxError
  | FlagArg (name : string) (value : option string).

Definition check_name (name : string) : arg_class :=
  match name with
  | EmptyString => SyntaxError
  | String c _ =>
      if Ascii.eqb c "-" || Ascii.eqb c "=" then SyntaxError
      else let '(n, v) := split_eq name in FlagArg n v
  end.

Definition classify (s : string) : arg_class :=
  match s with
  | String c0 (String c1 rest) =>
      if negb (Ascii.eqb c0 "-") then NotFlag
      else if Ascii.eqb c1 "-" then
        match rest with EmptyString => EndOfFlags | _ => check_name rest end
      else check_name (String c1 rest)
  | _ => NotFlag
  end.

(** [FlagSet.parseOne] in a loop, from the configuration [c] built so
    far; the arguments after the flags ([flag.Args()]) are not used by
    [makesm] and are dropped. *)
Fixpoint parse_args (args : list string) (c : Config) : flag_error + Config :=
  match args with
  | [] => inr c
  | s :: rest =>
      match classify s with
      | NotFlag | EndOfFlags => inr c
      | SyntaxError => inl (BadSyntax s)
      | FlagArg name val =>
          match flag_of_name name with
          | None =>
              if String.eqb name "help" || String.eqb name "h" then inl HelpRequested
              else inl (UnknownFlag name)
          | Some f =>
              if is_bool_flag f then
                match val with
                | None => parse_args rest (set_bool f true c)
                | Some v =>
                    match parse_bool v with
                    | Some b => parse_args rest (set_bool f b c)
                    | None => inl (BadBool name v)
                    end
                end
              else
                match val, rest with
                | Some v, _ => parse_args rest (set_string f v c)
                | None, v :: rest' => parse_args rest' (set_string f v c)
                | None, [] => inl (NeedsArgument name)
                end
          end
      end
  end.

(** [flag.Parse()] on [os.Args[1:]]. *)
Definition flag_parse (args : list string) : flag_error + Config := parse_args args default_config.

Definition dquote : string := String (ascii_of_nat 34) EmptyString.

(** The message the [flag] package prints before it exits. *)
Definition flag_error_text (e : flag_error) : string :=
  match e with
  | BadSyntax s => "bad flag syntax: " ++ s
  | UnknownFlag n => "flag provided but not defined: -" ++ n
  | HelpRequested => "flag: help requested"
  | BadBool n v => "invalid boolean value " ++ dquote ++ v ++ dquote ++ " for -" ++ n ++ ": parse error"
  | NeedsArgument n => "flag needs an argument: -" ++ n
  end.

(* ------------------------------------------------------------------ *)
(** ** The program on its arguments *)

(** [main] with its [flag.Parse()]: the banner is logged, then the
    arguments are parsed; a parse error ends the process (the [flag]
    package prints the message and the usage and exits with status 2,
    0 for [-h]), modelled as a stop with that message.  Otherwise [main]
    runs on the parsed configuration (its banner is the same first log
    line). *)
Definition makesm `{!SqlEngine} (goos : GOOS) (args : list string) : M world unit :=
  match flag_parse args with
  | inr cfg => main goos cfg
  | inl e =>
      emit (ELog ("MakeSM " ++ mySMFLAVOUR ++ " ScoreMaster installation maker")) ;;
      m_fatal (flag_error_text e)
  end.

(* ------------------------------------------------------------------ *)
(** ** Folder values print and read back *)

Fixpoint has_char (a : ascii) (s : string) : bool :=
  match s with EmptyString => false | String c s' => Ascii.eqb c a || has_char a s' end.

(** A path a folder flag can hold: non-empty components without [/],
    after an empty first component for an absolute path. *)
Definition comp_ok (x : string) : bool := negb (String.eqb x "") && negb (has_char "/" x).
Definition path_ok (p : path) : bool :=
  match p with
  | EmptyString :: ((_ :: _) as q) => forallb comp_ok q
  | _ => forallb comp_ok p
  end.

Lemma split_on_nonnil sep s : split_on sep s <> [].
Proof. destruct s as [|c s]; cbn; [done|]. destruct (split_on sep s); [done|]. by case_match. Qed.

Lemma split_on_no_sep sep x : has_char sep x = false -> split_on sep x = [x].
Proof.
  induction x as [|c x IH]; [done|]. cbn. intros [Hc Hx]%orb_false_iff.
  rewrite IH, Hc by done. done.
Qed.

Lemma split_on_app sep x s :
  has_char sep x = false -> split_on sep (x ++ String sep s) = x :: split_on sep s.
Proof.
  induction x as [|c x IH]; intros Hx.
  - rewrite append_empty_l. cbn. destruct (split_on sep s) eqn:E; [by apply split_on_nonnil in E|].
    by rewrite Ascii.eqb_refl.
  - cbn in Hx. apply orb_false_iff in Hx as [Hc Hx].
    rewrite append_String. cbn. by rewrite IH, Hc.
Qed.

Lemma split_on_concat sep p :
  p <> [] -> Forall (fun x => has_char sep x = false) p ->
  split_on sep (String.concat (String sep EmptyString) p) = p.
Proof.
  induction p as [|x [|y q] IH]; intros Hne Hp; [done| |].
  - inversion Hp. cbn. by apply split_on_no_sep.
  - inversion Hp as [|? ? Hx Hq]. subst.
    change (String.concat (String sep "") (x :: y :: q))
      with (x ++ String sep "" ++ String.concat (String sep "") (y :: q)).
    rewrite append_String, append_empty_l, split_on_app by done. f_equal. by apply IH.
Qed.

Lemma filter_comp_ok (q : path) : forallb comp_ok q = true -> filter (fun x => x <> EmptyString) q = q.
Proof.
  induction q as [|x q IH]; [done|]. cbn [forallb]. intros [Hx Hq]%andb_true_iff.
  rewrite filter_cons, decide_True, IH by (try done; unfold comp_ok in Hx;
    apply andb_true_iff in Hx as [Hx _]; intros ->; done). done.
Qed.

Lemma comp_ok_forall (q : path) :
  forallb comp_ok q = true -> Forall (fun x => has_char "/" x = false) q.
Proof.
  intros Hq. apply Forall_forall. intros x Hx. eapply forallb_forall in Hq; [|by apply list_elem_of_In].
  unfold comp_ok in Hq. apply andb_true_iff in Hq as [_ Hq]. by apply negb_true_iff in Hq.
Qed.

(** A folder value prints and reads back to the same path. *)
Lemma path_roundtrip p : path_ok p = true -> path_of_string (show_path p) = p.
Proof.
  unfold show_path. destruct p as [|x q]; [done|]. intros Hp.
  destruct x as [|a x].
  - destruct q as [|y q]; [done|]. cbn [path_ok] in Hp.
    pose proof (comp_ok_forall _ Hp) as Hf.
    assert (Hs : split_on "/" (String.concat "/" ("" :: y :: q)) = "" :: y :: q)
      by (apply split_on_concat; [done|by constructor]).
    change (String.concat "/" ("" :: y :: q)) with (String "/" (String.concat "/" (y :: q))) in Hs |- *.
    unfold path_of_string. rewrite Hs. by rewrite filter_comp_ok.
  - assert (Hp' : forallb comp_ok (String a x :: q) = true) by (destruct q; done).
    pose proof (comp_ok_forall _ Hp') as Hf.
    assert (Hs : split_on "/" (String.concat "/" (String a x :: q)) = String a x :: q)
      by (apply split_on_concat; done).
    destruct q as [|y q].
    + cbn in Hs |- *. rewrite Hs. by rewrite filter_comp_ok.
    + change (String.concat "/" (String a x :: y :: q))
        with (String a x ++ "/" ++ String.concat "/" (y :: q)) in Hs |- *.
      rewrite append_String in Hs |- *. unfold path_of_string. rewrite Hs. by rewrite filter_comp_ok.
Qed.

(** Parsing stops at the first argument that is not a flag: a flag
    written after a folder name is dropped without a message. *)
Example flag_after_positional_ignored :
  flag_parse ["-target=out"; "extra"; "-ok"] =
    inr (set_string Ftarget "out" default_config).
Proof. reflexivity. Qed.

Close Scope string_scope.
